(** * core-engine-vis: the graph execution core, embedded and verified

    The development follows the TypeScript sources:
    - [Js]       the fragment of ECMAScript values and built-ins the engine uses;
    - [JsMap]    a [Map] whose iteration order is observed;
    - [Context]  runtime/context: VisScope, VisBlackboard, VisExecutionSignal,
                 VisNodeExecutionContext;
    - [Node]     runtime/node.ts: VisNodeResult, VisRuntimeNode;
    - [Control]  runtime/nodes/control.ts: the Loop and Get Variable nodes;
    - [Graph]    runtime/graph.ts: VisGraph hydration, roots, buildInputs;
    - [Runner]   runtime/scheduler/VisGraphRunner.ts: fibers, waiters, lifecycle;
    - [ControlFlow] runtime/nodes/control.ts: the Branch, Set Variable and
                 Parallel nodes;
    - [Registry] core/registry.ts: VisNodeRegistry;
    - [Library]  runtime/library.ts: VisGraphLibrary.

    Definitions come first, the theorems about them afterwards. *)

From Stdlib Require Import Floats ZArith Uint63.
From stdpp Require Import gmap strings list.

Open Scope string_scope.

(* ===================================================================== *)
(** ** ECMAScript values and built-ins *)
(* ===================================================================== *)

Module Js.

(** Values of type [unknown].  Numbers are IEEE 754 binary64, as in the
    language; an object or array is an opaque reference, since the code
    modelled here only stores objects and passes them on. *)
Inductive value : Type :=
| VUndefined
| VNull
| VBool (b : bool)
| VNum (x : float)
| VStr (s : string)
| VObj (ref : nat).

(** [v === undefined]. *)
Definition isUndefined (v : value) : bool :=
  match v with VUndefined => true | _ => false end.

(** [v == null], the test behind [??]. *)
Definition isNullish (v : value) : bool :=
  match v with VUndefined | VNull => true | _ => false end.

(** [a ?? b]. *)
Definition coalesce (a b : value) : value :=
  if isNullish a then b else a.

(** The members that an object literal inherits from [Object.prototype].
    Each is a function, but [__proto__], which reads as the prototype
    itself: objects all, and not null.  They are the references [0] to
    [11] here; the objects that the program makes have other references. *)
Definition Object_prototype : list string :=
  ["constructor"; "__defineGetter__"; "__defineSetter__"; "hasOwnProperty";
   "__lookupGetter__"; "__lookupSetter__"; "isPrototypeOf";
   "propertyIsEnumerable"; "toString"; "valueOf"; "__proto__";
   "toLocaleString"].

Fixpoint member_of (names : list string) (ref : nat) (k : string) : value :=
  match names with
  | [] => VUndefined
  | name :: rest =>
      if decide (k = name) then VObj ref else member_of rest (S ref) k
  end.

(** [Object.prototype[k]]. *)
Definition inherited (k : string) : value := member_of Object_prototype 0 k.

(** [o[k]] on a [Record<string, unknown>] that is an object literal, given
    by its own properties: the own property [k] when there is one, else
    what the literal inherits under that name. *)
Definition prop (o : gmap string value) (k : string) : value :=
  match o !! k with
  | Some v => v
  | None => inherited k
  end.

(** The conversions of the language that depend on string syntax or on
    the methods of an object are taken as given. *)
Class Coercions : Type := {
  StringToNumber : string -> float;
  ObjectToNumber : nat -> float;
  ObjectToPrimitive : nat -> value
}.

Definition isNaN (x : float) : bool := negb (PrimFloat.eqb x x).

(** [Number.isFinite] on a number. *)
Definition Number_isFinite (x : float) : bool :=
  match PrimFloat.classify x with
  | FloatClass.NaN | FloatClass.PInf | FloatClass.NInf => false
  | _ => true
  end.

(** [Number(v)]. *)
Definition Number `{Coercions} (v : value) : float :=
  match v with
  | VUndefined => PrimFloat.nan
  | VNull => 0%float
  | VBool b => if b then 1%float else 0%float
  | VNum x => x
  | VStr s => StringToNumber s
  | VObj r => ObjectToNumber r
  end.

(** [Math.floor]: a finite number with a negative exponent is cut at the
    binary point; everything else is already an integer, a zero, an
    infinity or NaN. *)
Definition Math_floor (x : float) : float :=
  match Prim2SF x with
  | S754_finite s m e =>
      if (0 <=? e)%Z then x
      else
        let q := (Z.pos m / 2 ^ (- e))%Z in
        let exact := (Z.pos m mod 2 ^ (- e) =? 0)%Z in
        if s then
          (if exact then x
           else PrimFloat.opp (PrimFloat.of_uint63 (Uint63.of_Z (q + 1))))
        else PrimFloat.of_uint63 (Uint63.of_Z q)
  | _ => x
  end.

(** [Math.max(a, b)]: NaN is contagious and +0 is larger than -0. *)
Definition Math_max (a b : float) : float :=
  if isNaN a || isNaN b then PrimFloat.nan
  else if PrimFloat.ltb a b then b
  else if PrimFloat.ltb b a then a
  else match PrimFloat.classify a with
       | FloatClass.NZero => b
       | _ => a
       end.

(** [v < n] for a number [n]: the left operand is converted to a number. *)
Definition lt_num `{Coercions} (v : value) (n : float) : bool :=
  PrimFloat.ltb (Number v) n.

(** [v + 1]: concatenation when the left operand is (or converts to) a
    string, addition of numbers otherwise. *)
Definition add_one `{Coercions} (v : value) : value :=
  let p := match v with VObj r => ObjectToPrimitive r | _ => v end in
  match p with
  | VStr s => VStr (s +:+ "1")
  | _ => VNum (PrimFloat.add (Number p) 1%float)
  end.

End Js.

(* ===================================================================== *)
(** ** runtime/context *)
(* ===================================================================== *)

Module Context.
Import Js.

(** *** VisScope *)

Definition makeScopeKey (nodeId pinId : string) : string :=
  nodeId +:+ ":" +:+ pinId.

(** [VisScope._values]: a [Map<string, unknown>].  The order of insertion
    plays no part in [get] nor in the key set of [snapshot]. *)
Definition VisScope : Type := gmap string value.

Definition scope_set (nodeId pinId : string) (v : value)
    (s : gmap string value) : gmap string value :=
  <[makeScopeKey nodeId pinId := v]> s.

Definition scope_get (s : gmap string value) (nodeId pinId : string) : value :=
  default VUndefined (s !! makeScopeKey nodeId pinId).

(** [snapshot()] is [Object.fromEntries] of the map: same keys, same values. *)
Definition scope_snapshot (s : gmap string value) : gmap string value := s.

(** *** VisBlackboard *)

Definition VisBlackboard : Type := gmap string value.

Definition bb_set (key : string) (v : value)
    (b : gmap string value) : gmap string value := <[key := v]> b.

Definition bb_get (b : gmap string value) (key : string) : value :=
  default VUndefined (b !! key).

Definition bb_delete (key : string) (b : gmap string value) : gmap string value :=
  delete key b.

(** *** VisExecutionSignal (its two latches and the reason) *)

Record VisExecutionSignal : Type := {
  cancelled : bool;
  fastForward : bool;
  reason : option string
}.

Definition signal_new : VisExecutionSignal :=
  {| cancelled := false; fastForward := false; reason := None |}.

(** *** The state one run shares between its nodes *)

Record Store : Type := {
  scope : gmap string value;
  blackboard : gmap string value;
  signal : VisExecutionSignal
}.

Definition with_blackboard (b : gmap string value) (st : Store) : Store :=
  {| scope := scope st; blackboard := b; signal := signal st |}.

(** *** VisNodeExecutionContext *)

Record VisNodeExecutionContext : Type := {
  entityId : string;
  inputs : gmap string value
}.

(** [getInput(pinId, fallback)]: [inputs[pinId] ?? fallback]. *)
Definition getInput (ctx : VisNodeExecutionContext) (pinId : string)
    (fallback : value) : value :=
  coalesce (prop (inputs ctx) pinId) fallback.

Definition setVariable (key : string) (v : value) (st : Store) : Store :=
  with_blackboard (bb_set key v (blackboard st)) st.

Definition getVariable (st : Store) (key : string) : value :=
  bb_get (blackboard st) key.

Definition clearVariable (key : string) (st : Store) : Store :=
  with_blackboard (bb_delete key (blackboard st)) st.

End Context.

(* ===================================================================== *)
(** ** runtime/node.ts *)
(* ===================================================================== *)

Module Node.
Import Js Context.

Inductive VisFlowStrategy : Type := sequential | parallel.

Inductive VisNodeStatus : Type :=
| st_idle | st_running | st_success | st_failure | st_skipped.

Record VisFlowTransition : Type := {
  pinId : string;
  strategy : option VisFlowStrategy;
  awaitCompletion : option bool;
  groupId : option string
}.

(** [{ pinId }] *)
Definition on_pin (p : string) : VisFlowTransition :=
  {| pinId := p; strategy := None; awaitCompletion := None; groupId := None |}.

(** [{ pinId, strategy }] *)
Definition on_pin_with (p : string) (s : VisFlowStrategy) : VisFlowTransition :=
  {| pinId := p; strategy := Some s; awaitCompletion := None; groupId := None |}.

(** [outputs] lists the entries of the record in the order
    [Object.entries] enumerates them. *)
Record VisNodeExecutionResult : Type := {
  status : VisNodeStatus;
  outputs : option (list (string * value));
  transitions : option (list VisFlowTransition);
  waitFor : option (list string);
  waitForNext : option bool
}.

(** *** VisNodeResult *)

Definition success (outs : option (list (string * value)))
    (ts : option (list VisFlowTransition)) : VisNodeExecutionResult :=
  {| status := st_success; outputs := outs; transitions := ts;
     waitFor := None; waitForNext := None |}.

Definition failure (message : option string) : VisNodeExecutionResult :=
  {| status := st_failure;
     outputs := match message with
                | Some m => if decide (m = "") then None else Some [("error", VStr m)]
                | None => None
                end;
     transitions := None; waitFor := None; waitForNext := None |}.

Definition skipped (ts : option (list VisFlowTransition)) : VisNodeExecutionResult :=
  {| status := st_skipped; outputs := None; transitions := ts;
     waitFor := None; waitForNext := None |}.

Definition result_cancelled : VisNodeExecutionResult :=
  {| status := st_skipped; outputs := None; transitions := None;
     waitFor := None; waitForNext := None |}.

(** *** VisRuntimeNode *)

(** What an entry point of a node does with the shared state: it returns
    a result or throws. *)
Inductive Outcome : Type :=
| Returned (r : VisNodeExecutionResult)
| Threw (error : string).

Definition Behaviour : Type :=
  VisNodeExecutionContext -> Store -> Outcome * Store.

(** A node instance: its id, the subclass hook and the (overridable)
    fast-forward entry point. *)
Record VisRuntimeNode : Type := {
  id : string;
  _onExecute : Behaviour;
  onFastForward : Behaviour
}.

(** The base class's [onFastForward]. *)
Definition base_onFastForward : Behaviour :=
  fun _ st => (Returned (skipped None), st).

Definition execute (n : VisRuntimeNode) : Behaviour :=
  fun ctx st =>
    if cancelled (signal st) then (Returned result_cancelled, st)
    else if fastForward (signal st) then onFastForward n ctx st
    else _onExecute n ctx st.

End Node.

(* ===================================================================== *)
(** ** runtime/nodes/control.ts *)
(* ===================================================================== *)

Module Control.
Import Js Context Node.

Definition toNumber `{Coercions} (v : value) (fallback : float) : float :=
  let num := Number v in
  if Number_isFinite num then num else fallback.

(** *** VisLoopNode *)

Record VisLoopNode : Type := {
  loop_id : string;
  count : float;
  loopKey : string
}.

Definition loop_key (n : VisLoopNode) : string :=
  "loop:" +:+ loop_id n +:+ ":" +:+ loopKey n.

Definition loop_total `{Coercions} (n : VisLoopNode)
    (ctx : VisNodeExecutionContext) : float :=
  Math_max 0%float
    (Math_floor (toNumber (getInput ctx "count" (VNum (count n))) (count n))).

Definition loop_onExecute `{Coercions} (n : VisLoopNode) : Behaviour :=
  fun ctx st =>
    let total := loop_total n ctx in
    let key := loop_key n in
    let current := coalesce (getVariable st key) (VNum 0%float) in
    if lt_num current total then
      let st' := setVariable key (add_one current) st in
      (Returned (success (Some [("index", current)]) (Some [on_pin "body"])), st')
    else
      let st' := clearVariable key st in
      (Returned (success None (Some [on_pin "complete"])), st').

Definition VisLoopNode_instance `{Coercions} (n : VisLoopNode) : VisRuntimeNode :=
  {| id := loop_id n;
     _onExecute := loop_onExecute n;
     onFastForward := base_onFastForward |}.

(** *** VisGetVariableNode *)

Record VisGetVariableNode : Type := {
  getvar_id : string;
  getvar_key : string;
  defaultValue : value
}.

Definition getvar_onExecute (n : VisGetVariableNode) : Behaviour :=
  fun ctx st =>
    if decide (getvar_key n = "") then
      (Returned (failure (Some "Get Variable node requires a key")), st)
    else
      let v := coalesce (getVariable st (getvar_key n)) (defaultValue n) in
      (Returned (success (Some [("value", v)])
                         (Some [on_pin_with "next" sequential])), st).

Definition VisGetVariableNode_instance (n : VisGetVariableNode) : VisRuntimeNode :=
  {| id := getvar_id n;
     _onExecute := getvar_onExecute n;
     onFastForward := base_onFastForward |}.

End Control.

(* ===================================================================== *)
(** ** Exceptions and insertion-ordered maps *)
(* ===================================================================== *)

(** A computation that returns or throws an [Error] with a message. *)
Inductive Except (A : Type) : Type :=
| Ok (a : A)
| Throw (message : string).
Arguments Ok {A} a.
Arguments Throw {A} message.

#[global] Instance Except_bind : MBind Except :=
  fun A B k m => match m with
                 | Ok a => k a
                 | Throw e => Throw e
                 end.

#[global] Instance Except_ret : MRet Except := fun A a => Ok a.

(** A JavaScript [Map<string, V>] whose iteration order matters: the
    entries in insertion order.  [set] on a present key replaces the value
    where it stands, on a fresh key it appends. *)
Module JsMap.

Definition t (V : Type) : Type := list (string * V).

Fixpoint get {V : Type} (m : t V) (k : string) : option V :=
  match m with
  | [] => None
  | (k', v) :: rest => if decide (k' = k) then Some v else get rest k
  end.

Fixpoint set {V : Type} (k : string) (v : V) (m : t V) : t V :=
  match m with
  | [] => [(k, v)]
  | (k', v') :: rest =>
      if decide (k' = k) then (k, v) :: rest else (k', v') :: set k v rest
  end.

Definition entries {V : Type} (m : t V) : list (string * V) := m.


End JsMap.

(* ===================================================================== *)
(** ** runtime/graph.ts *)
(* ===================================================================== *)

Module Graph.
Import Js Context Node.

(** *** core/types.ts, as far as the runtime reads it *)

Inductive VisPinDirection : Type := dir_in | dir_out.
Inductive VisPinSignal : Type := sig_flow | sig_data.

Record VisPinMetadata : Type := {
  pin_id : string;
  direction : VisPinDirection;
  pin_signal : VisPinSignal;
  pin_strategy : option VisFlowStrategy
}.

Record VisParameterMetadata : Type := {
  param_id : string;
  propertyKey : string;
  param_defaultValue : value
}.

(** [ctor]: the class; applied to the node id and to the properties that
    hydration assigns, it gives the instance. *)
Record VisNodeDefinition : Type := {
  def_type : string;
  defaultOutput : option string;
  ctor : string -> gmap string value -> VisRuntimeNode;
  pins : list VisPinMetadata;
  parameters : list VisParameterMetadata
}.

(** [visNodeRegistry._definitions]. *)
Definition VisNodeRegistry : Type := gmap string VisNodeDefinition.

(** *** Serialized assets *)

Record VisSerializedNode : Type := {
  sn_id : string;
  sn_type : string;
  sn_params : option (gmap string value);
  sn_inputs : option (gmap string value);
  sn_entityId : option string
}.

Inductive ConnectionKind : Type := flow | data.

Record Endpoint : Type := { nodeId : string; pinId : string }.

Record VisSerializedConnection : Type := {
  kind : ConnectionKind;
  from : Endpoint;
  to : Endpoint
}.

(** [root?: string | string[]]. *)
Inductive RootSpec : Type :=
| RootId (id : string)
| RootList (ids : list string).

Record VisGraphAsset : Type := {
  asset_id : string;
  asset_name : string;
  root : option RootSpec;
  nodes : list VisSerializedNode;
  connections : option (list VisSerializedConnection)
}.

(** *** Hydrated graph *)

Record VisGraphNode : Type := {
  gn_id : string;
  gn_type : string;
  gn_entityId : option string;
  instance : VisRuntimeNode;
  definition : VisNodeDefinition;
  literalInputs : gmap string value
}.

Definition DataBinding : Type := Endpoint.

Record VisGraph : Type := {
  graph_id : string;
  graph_name : string;
  roots : list string;
  _nodes : gmap string VisGraphNode;
  _flowMap : gmap string (gmap string (list string));
  _dataMap : gmap string (JsMap.t (list DataBinding))
}.

(** [connection.to.nodeId] of every connection of the asset. *)
Definition incoming_of (cs : list VisSerializedConnection) : gset string :=
  foldl (fun (acc : gset string) c => {[ nodeId (to c) ]} ∪ acc) ∅ cs.

Definition _resolveRoots (asset : VisGraphAsset) : list string :=
  let computed :=
    let incoming := incoming_of (default [] (connections asset)) in
    let candidates :=
      filter (fun id => id ∉ incoming) (sn_id <$> nodes asset) in
    match candidates with
    | _ :: _ => candidates
    | [] => match nodes asset with
            | first :: _ => [sn_id first]
            | [] => []
            end
    end in
  match root asset with
  | Some (RootList ids) => ids
  | Some (RootId id) => if decide (id = "") then computed else [id]
  | None => computed
  end.

(** The properties [_applyParameters] assigns on the fresh instance. *)
Definition _applyParameters (parameters : list VisParameterMetadata)
    (values : gmap string value) : gmap string value :=
  foldl (fun (props : gmap string value) meta =>
           let v := coalesce (prop values (param_id meta))
                             (param_defaultValue meta) in
           if isUndefined v then props else <[propertyKey meta := v]> props)
        ∅ parameters.

Definition hydrateNode (reg : VisNodeRegistry) (node : VisSerializedNode)
    : Except VisGraphNode :=
  match reg !! sn_type node with
  | None => Throw ("Node type '" +:+ sn_type node +:+ "' is not registered.")
  | Some def =>
      let inst := ctor def (sn_id node)
                    (_applyParameters (parameters def)
                                      (default ∅ (sn_params node))) in
      Ok {| gn_id := sn_id node;
            gn_type := sn_type node;
            gn_entityId := sn_entityId node;
            instance := inst;
            definition := def;
            literalInputs := default ∅ (sn_inputs node) |}
  end.

Fixpoint _hydrateNodes (reg : VisNodeRegistry) (ns : list VisSerializedNode)
    (acc : gmap string VisGraphNode) : Except (gmap string VisGraphNode) :=
  match ns with
  | [] => Ok acc
  | node :: rest =>
      gn ← hydrateNode reg node;
      _hydrateNodes reg rest (<[sn_id node := gn]> acc)
  end.

Definition _addFlowConnection (c : VisSerializedConnection)
    (fm : gmap string (gmap string (list string)))
    : gmap string (gmap string (list string)) :=
  let map : gmap string (list string) := default ∅ (fm !! nodeId (from c)) in
  let targets := default [] (map !! pinId (from c)) in
  <[nodeId (from c) := <[pinId (from c) := (targets ++ [nodeId (to c)])%list]> map]> fm.

Definition _addDataConnection (c : VisSerializedConnection)
    (dm : gmap string (JsMap.t (list DataBinding)))
    : gmap string (JsMap.t (list DataBinding)) :=
  let map := default [] (dm !! nodeId (to c)) in
  let sources := default [] (JsMap.get map (pinId (to c))) in
  <[nodeId (to c) := JsMap.set (pinId (to c)) (sources ++ [from c])%list map]> dm.

Definition flowMap_of (cs : list VisSerializedConnection)
    : gmap string (gmap string (list string)) :=
  foldl (fun fm c => match kind c with
                     | flow => _addFlowConnection c fm
                     | data => fm
                     end) ∅ cs.

Definition dataMap_from (cs : list VisSerializedConnection)
    (dm : gmap string (JsMap.t (list DataBinding)))
    : gmap string (JsMap.t (list DataBinding)) :=
  foldl (fun dm c => match kind c with
                     | flow => dm
                     | data => _addDataConnection c dm
                     end) dm cs.

Definition fromAsset (reg : VisNodeRegistry) (asset : VisGraphAsset)
    : Except VisGraph :=
  let rs := _resolveRoots asset in
  ns ← _hydrateNodes reg (nodes asset) ∅;
  let cs := default [] (connections asset) in
  Ok {| graph_id := asset_id asset;
        graph_name := asset_name asset;
        roots := rs;
        _nodes := ns;
        _flowMap := flowMap_of cs;
        _dataMap := dataMap_from cs ∅ |}.

Definition getNode (g : VisGraph) (id : string) : Except VisGraphNode :=
  match _nodes g !! id with
  | Some node => Ok node
  | None => Throw ("Missing node '" +:+ id +:+ "' in graph.")
  end.

Definition getNext (g : VisGraph) (id pin : string) : list string :=
  match _flowMap g !! id with
  | Some m => default [] (m !! pin)
  | None => []
  end.

(** One source of a pin: it overwrites only with a defined scope value. *)
Definition overlay_source (scope : gmap string value) (pin : string)
    (values : gmap string value) (source : DataBinding) : gmap string value :=
  let v := scope_get scope (nodeId source) (pinId source) in
  if isUndefined v then values else <[pin := v]> values.

Definition overlay_pin (scope : gmap string value)
    (values : gmap string value) (entry : string * list DataBinding)
    : gmap string value :=
  foldl (overlay_source scope entry.1) values entry.2.

Definition buildInputs (g : VisGraph) (id : string)
    (scope : gmap string value) : Except (gmap string value) :=
  node ← getNode g id;
  let values := literalInputs node in
  match _dataMap g !! id with
  | Some binding => Ok (foldl (overlay_pin scope) values (JsMap.entries binding))
  | None => Ok values
  end.

(** *** The statements of the specification, in its own words *)

(** "nodes with no inbound flow connections", in asset order. *)
Definition has_inbound_flow (cs : list VisSerializedConnection)
    (id : string) : bool :=
  existsb (fun c => match kind c with
                    | flow => bool_decide (nodeId (to c) = id)
                    | data => false
                    end) cs.

Definition spec_roots (asset : VisGraphAsset) : list string :=
  let cs := default [] (connections asset) in
  let candidates :=
    List.filter (fun id => negb (has_inbound_flow cs id)) (sn_id <$> nodes asset) in
  match candidates with
  | _ :: _ => candidates
  | [] => match nodes asset with
          | first :: _ => [sn_id first]
          | [] => []
          end
  end.



End Graph.

(* ===================================================================== *)
(** ** runtime/scheduler/VisGraphRunner.ts *)
(* ===================================================================== *)

Module Runner.
Import Js Context Node Graph.

Inductive RunnerStatus : Type := Idle | Running | Completed | Cancelled | Failed.

#[global] Instance RunnerStatus_eq_dec : EqDecision RunnerStatus.
Proof. solve_decision. Defined.

Record VisScheduledNode : Type := {
  sch_nodeId : string;
  sch_entityId : string
}.

(** [resolve] names the promise the waiter resolves. *)
Record NodeWaiter : Type := {
  targetCount : nat;
  resolve : nat
}.

(** Where the body of [_runFiber] (and then the [catch]/[finally] chain
    of [_spawnFiber]) stands between two turns of the event loop.  The
    scheduling is cooperative and single-threaded: a turn runs from one
    [await] to the next without interleaving, and the turns of the fibers
    interleave in any order.  The stretch of [_runFiber] that JavaScript
    runs synchronously inside [_spawnFiber], up to the first [await], is
    the first turn of the fiber here; it commutes with what the spawning
    code does next. *)
Inductive Pc : Type :=
| AtLoop
    (* about to evaluate the [while] condition *)
| AwaitInvoke (node : VisGraphNode) (ctx : VisNodeExecutionContext)
              (viaFastForward : bool)
    (* [await this._invokeNode(graphNode, ctx)], outside the [try] *)
| AwaitWait (node : VisGraphNode) (result : VisNodeExecutionResult)
            (promises : list nat)
    (* in the [try]: [await this._waitForNodes(...)] *)
| AwaitRoute (node : VisGraphNode) (children : list nat)
    (* in the [try]: [await this._routeTransitions(...)] *)
| Unwinding (node : VisGraphNode) (error : string)
    (* an awaited call of the [try] rejected; [finally] is next *)
| Resolved
    (* the body returned *)
| Rejected (error : string)
    (* the body threw; the [catch] handler is next *)
| Handled.
    (* the [catch] handler ran; the [finally] handler is next *)

Record VisFiber : Type := {
  fiber_id : nat;
  queue : list VisScheduledNode;
  fiber_entityId : string;
  pc : Pc
}.

(** What a run did, in order (most recent first); kept beside the state
    to state properties of a whole run.  [Applied] is a call of
    [_applyOutputs] of this runner; [ScopeSet] is a call of [scope.set]
    from elsewhere. *)
Inductive Obs : Type :=
| Invoked (node : string) (viaFastForward : bool)
| InvokeThrew (node : string)
| Applied (node : string) (outs : list (string * value))
| ScopeSet (node pin : string) (v : value)
| BodyThrew (fiber : nat) (error : string)
| FiberError (fiber : nat) (error : string).

(** The fields of the runner.  Completion counts, target counts and the
    fiber counter are natural numbers: they count events, far below the
    2^53 up to which binary64 numbers are exact. *)
Record State : Type := {
  _graph : VisGraph;
  _options_entityId : string;
  _scope : gmap string value;
  _blackboard : gmap string value;
  _signal : VisExecutionSignal;
  _fastForwardSet : gset string;
  _fastForwardRules : list (string -> string -> bool);
  _completionCounts : gmap string nat;
  _waiters : gmap string (list NodeWaiter);
  _status : RunnerStatus;
  _fibers : list VisFiber;
  (** [Some false]: the promise is pending; [Some true]: it is resolved. *)
  _completionPromise : option bool;
  (** Whether [_resolveCompletion] holds the resolver. *)
  _resolveCompletion : bool;
  _fiberCounter : nat;
  (** The promises created by [_waitForNode], and those resolved. *)
  promiseCounter : nat;
  resolvedPromises : gset nat;
  history : list Obs
}.

Definition set_scope (x : gmap string value) (r : State) : State :=
  let 'Build_State g e _ bb sg fs fr cc ws st fb cp rc fc pn rp h := r in
  Build_State g e x bb sg fs fr cc ws st fb cp rc fc pn rp h.
Definition set_blackboard (x : gmap string value) (r : State) : State :=
  let 'Build_State g e sc _ sg fs fr cc ws st fb cp rc fc pn rp h := r in
  Build_State g e sc x sg fs fr cc ws st fb cp rc fc pn rp h.
Definition set_signal (x : VisExecutionSignal) (r : State) : State :=
  let 'Build_State g e sc bb _ fs fr cc ws st fb cp rc fc pn rp h := r in
  Build_State g e sc bb x fs fr cc ws st fb cp rc fc pn rp h.
Definition set_fastForwardSet (x : gset string) (r : State) : State :=
  let 'Build_State g e sc bb sg _ fr cc ws st fb cp rc fc pn rp h := r in
  Build_State g e sc bb sg x fr cc ws st fb cp rc fc pn rp h.
Definition set_fastForwardRules (x : list (string -> string -> bool))
    (r : State) : State :=
  let 'Build_State g e sc bb sg fs _ cc ws st fb cp rc fc pn rp h := r in
  Build_State g e sc bb sg fs x cc ws st fb cp rc fc pn rp h.
Definition set_completionCounts (x : gmap string nat) (r : State) : State :=
  let 'Build_State g e sc bb sg fs fr _ ws st fb cp rc fc pn rp h := r in
  Build_State g e sc bb sg fs fr x ws st fb cp rc fc pn rp h.
Definition set_waiters (x : gmap string (list NodeWaiter)) (r : State) : State :=
  let 'Build_State g e sc bb sg fs fr cc _ st fb cp rc fc pn rp h := r in
  Build_State g e sc bb sg fs fr cc x st fb cp rc fc pn rp h.
Definition set_status (x : RunnerStatus) (r : State) : State :=
  let 'Build_State g e sc bb sg fs fr cc ws _ fb cp rc fc pn rp h := r in
  Build_State g e sc bb sg fs fr cc ws x fb cp rc fc pn rp h.
Definition set_fibers (x : list VisFiber) (r : State) : State :=
  let 'Build_State g e sc bb sg fs fr cc ws st _ cp rc fc pn rp h := r in
  Build_State g e sc bb sg fs fr cc ws st x cp rc fc pn rp h.
Definition set_completionPromise (x : option bool) (r : State) : State :=
  let 'Build_State g e sc bb sg fs fr cc ws st fb _ rc fc pn rp h := r in
  Build_State g e sc bb sg fs fr cc ws st fb x rc fc pn rp h.
Definition set_resolveCompletion (x : bool) (r : State) : State :=
  let 'Build_State g e sc bb sg fs fr cc ws st fb cp _ fc pn rp h := r in
  Build_State g e sc bb sg fs fr cc ws st fb cp x fc pn rp h.
Definition set_fiberCounter (x : nat) (r : State) : State :=
  let 'Build_State g e sc bb sg fs fr cc ws st fb cp rc _ pn rp h := r in
  Build_State g e sc bb sg fs fr cc ws st fb cp rc x pn rp h.
Definition set_promiseCounter (x : nat) (r : State) : State :=
  let 'Build_State g e sc bb sg fs fr cc ws st fb cp rc fc _ rp h := r in
  Build_State g e sc bb sg fs fr cc ws st fb cp rc fc x rp h.
Definition set_resolvedPromises (x : gset nat) (r : State) : State :=
  let 'Build_State g e sc bb sg fs fr cc ws st fb cp rc fc pn _ h := r in
  Build_State g e sc bb sg fs fr cc ws st fb cp rc fc pn x h.
Definition observe (o : Obs) (r : State) : State :=
  let 'Build_State g e sc bb sg fs fr cc ws st fb cp rc fc pn rp h := r in
  Build_State g e sc bb sg fs fr cc ws st fb cp rc fc pn rp (o :: h).

(** The constructor: a runner on [graph], for [entityId], on the given
    (possibly shared) scope and blackboard. *)
Definition new (graph : VisGraph) (entityId : string)
    (scope blackboard : gmap string value) : State :=
  {| _graph := graph;
     _options_entityId := entityId;
     _scope := scope;
     _blackboard := blackboard;
     _signal := signal_new;
     _fastForwardSet := ∅;
     _fastForwardRules := [];
     _completionCounts := ∅;
     _waiters := ∅;
     _status := Idle;
     _fibers := [];
     _completionPromise := None;
     _resolveCompletion := false;
     _fiberCounter := 0;
     promiseCounter := 0;
     resolvedPromises := ∅;
     history := [] |}.

(** *** Fibers of the set [_fibers] *)

Definition fiber_lookup (fid : nat) (fs : list VisFiber) : option VisFiber :=
  List.find (fun f => bool_decide (fiber_id f = fid)) fs.

Definition fiber_update (fid : nat) (upd : VisFiber -> VisFiber)
    (fs : list VisFiber) : list VisFiber :=
  (fun f => if decide (fiber_id f = fid) then upd f else f) <$> fs.

Definition fiber_remove (fid : nat) (fs : list VisFiber) : list VisFiber :=
  List.filter (fun f => negb (bool_decide (fiber_id f = fid))) fs.

Definition with_pc (p : Pc) (f : VisFiber) : VisFiber :=
  {| fiber_id := fiber_id f; queue := queue f;
     fiber_entityId := fiber_entityId f; pc := p |}.

Definition with_queue (q : list VisScheduledNode) (f : VisFiber) : VisFiber :=
  {| fiber_id := fiber_id f; queue := q;
     fiber_entityId := fiber_entityId f; pc := pc f |}.

Definition goto (fid : nat) (p : Pc) (r : State) : State :=
  set_fibers (fiber_update fid (with_pc p) (_fibers r)) r.

(** The body of fiber [fid] throws [error]: its promise rejects. *)
Definition reject (fid : nat) (error : string) (r : State) : State :=
  goto fid (Rejected error) (observe (BodyThrew fid error) r).

Definition is_live (fid : nat) (r : State) : bool :=
  bool_decide (is_Some (fiber_lookup fid (_fibers r))).

(** *** Lifecycle *)

Definition is_terminal (s : RunnerStatus) : bool :=
  match s with
  | Completed | Failed | Cancelled => true
  | Idle | Running => false
  end.

(** [if (this._resolveCompletion) { this._resolveCompletion(); ... = undefined }] *)
Definition resolve_completion (r : State) : State :=
  if _resolveCompletion r
  then set_resolveCompletion false (set_completionPromise (Some true) r)
  else r.

Definition _finish (state : RunnerStatus) (r : State) : State :=
  if is_terminal (_status r) then resolve_completion r
  else resolve_completion (set_status state r).

(** *** Waiters *)

Definition _resolveAllWaiters (r : State) : State :=
  let woken : list nat :=
    (map_to_list (_waiters r)) ≫= (fun kv => resolve <$> kv.2) in
  set_waiters ∅ (set_resolvedPromises (list_to_set woken ∪ resolvedPromises r) r).

(** [this._signal.cancel(reason)], with the listener the constructor
    subscribed: on the event "cancel" it resolves all waiters. *)
Definition signal_cancel (why : option string) (r : State) : State :=
  if cancelled (_signal r) then r
  else
    _resolveAllWaiters
      (set_signal {| cancelled := true;
                     fastForward := fastForward (_signal r);
                     reason := why |} r).

(** [this._signal.requestFastForward(reason)]; the runner's listener
    ignores the event "fastForward". *)
Definition signal_requestFastForward (why : option string) (r : State) : State :=
  if fastForward (_signal r) then r
  else set_signal {| cancelled := cancelled (_signal r);
                     fastForward := true;
                     reason := why |} r.

Definition cancel (why : option string) (r : State) : State :=
  if decide (_status r = Cancelled) then r
  else
    let r := signal_cancel why r in
    match _fibers r with
    | [] => _finish Cancelled r
    | _ :: _ => r
    end.

Definition completed_of (r : State) (nodeId : string) : nat :=
  default 0 (_completionCounts r !! nodeId).

Definition add_waiter (nodeId : string) (w : NodeWaiter) (r : State) : State :=
  let existing := default [] (_waiters r !! nodeId) in
  set_waiters (<[nodeId := (existing ++ [w])%list]> (_waiters r)) r.

(** [_waitForNode]: [None] is [undefined] (nothing to wait for), [Some p]
    the promise that the recorded waiter resolves. *)
Definition _waitForNode (nodeId : string) (waitForNext : bool) (r : State)
    : option nat * State :=
  let completed := completed_of r nodeId in
  let target := if waitForNext then completed + 1 else 1 in
  if negb waitForNext && bool_decide (target ≤ completed)%nat then (None, r)
  else if waitForNext && bool_decide (target ≤ completed)%nat then (None, r)
  else
    let p := promiseCounter r in
    let waiter := {| targetCount := target; resolve := p |} in
    (Some p, add_waiter nodeId waiter (set_promiseCounter (S p) r)).

(** The synchronous part of [_waitForNodes]: the promises to await, or
    the error of [getNode]; the waiters recorded before the error stay. *)
Fixpoint _waitForNodes (nodeIds : list string) (waitForNext : bool)
    (promises : list nat) (r : State) : Except (list nat) * State :=
  match nodeIds with
  | [] => (Ok promises, r)
  | nodeId :: rest =>
      match getNode (_graph r) nodeId with
      | Throw e => (Throw e, r)
      | Ok _ =>
          match _waitForNode nodeId waitForNext r with
          | (Some p, r') => _waitForNodes rest waitForNext (promises ++ [p])%list r'
          | (None, r') => _waitForNodes rest waitForNext promises r'
          end
      end
  end.

Definition is_due (nextCount : nat) (w : NodeWaiter) : bool :=
  bool_decide (targetCount w ≤ nextCount)%nat.

Definition _markNodeCompleted (nodeId : string) (r : State) : State :=
  let nextCount := completed_of r nodeId + 1 in
  let r := set_completionCounts (<[nodeId := nextCount]> (_completionCounts r)) r in
  match _waiters r !! nodeId with
  | None | Some [] => r
  | Some waiters =>
      let woken := List.filter (is_due nextCount) waiters in
      let kept := List.filter (fun w => negb (is_due nextCount w)) waiters in
      let r := set_resolvedPromises
                 (list_to_set (resolve <$> woken) ∪ resolvedPromises r) r in
      match kept with
      | [] => set_waiters (delete nodeId (_waiters r)) r
      | _ :: _ => set_waiters (<[nodeId := kept]> (_waiters r)) r
      end
  end.

(** *** Outputs and transitions *)

Definition _applyOutputs (nodeId : string)
    (outs : option (list (string * value))) (r : State) : State :=
  match outs with
  | None => r
  | Some entries =>
      observe (Applied nodeId entries)
        (set_scope (foldl (fun s e => scope_set nodeId e.1 e.2 s)
                          (_scope r) entries) r)
  end.

Definition _defaultTransitions (graphNode : VisGraphNode) : list VisFlowTransition :=
  match defaultOutput (definition graphNode) with
  | None => []
  | Some out => if decide (out = "") then [] else [on_pin_with out sequential]
  end.

Definition find_out_pin (graphNode : VisGraphNode) (pin : string)
    : option VisPinMetadata :=
  List.find (fun p => match direction p with
                      | dir_out => bool_decide (pin_id p = pin)
                      | dir_in => false
                      end) (pins (definition graphNode)).

Definition _normalizeTransitions (graphNode : VisGraphNode)
    (ts : option (list VisFlowTransition)) : list VisFlowTransition :=
  let list := match ts with
              | Some (t :: rest) => t :: rest
              | Some [] | None => _defaultTransitions graphNode
              end in
  (fun t =>
     match strategy t with
     | Some _ => t
     | None =>
         let declared := match find_out_pin graphNode (Node.pinId t) with
                         | Some p => pin_strategy p
                         | None => None
                         end in
         {| Node.pinId := Node.pinId t;
            strategy := Some (default sequential declared);
            awaitCompletion := awaitCompletion t;
            groupId := groupId t |}
     end) <$> list.

Definition _resolveEntityId (nodeId fallback : string) (r : State)
    : Except string :=
  node ← getNode (_graph r) nodeId;
  Ok (default fallback (gn_entityId node)).

(** [_spawnFiber]: the new fiber joins [_fibers].  The code calls
    [_runFiber] before it adds the promise to the set, so that the body
    has run up to its first [await], the call of its first node, by the
    time [_spawnFiber] returns.  That stretch is the first turn of the
    fiber here, an event of its own ([Advance]): the state that
    [_spawnFiber], [run] and [_routeTransitions] return below is the one
    before the first turns of the new fibers, and [first_turns] is the
    stretch that the code has run by then.  The turns of a run interleave
    in any order, so that the runs of the code are among the runs of
    [exec]. *)
Definition _spawnFiber (nodeId entityId : string) (r : State) : nat * State :=
  let fid := S (_fiberCounter r) in
  let fiber := {| fiber_id := fid;
                  queue := [{| sch_nodeId := nodeId; sch_entityId := entityId |}];
                  fiber_entityId := entityId;
                  pc := AtLoop |} in
  (fid, set_fibers (_fibers r ++ [fiber])%list (set_fiberCounter fid r)).

Definition _shouldFastForward (nodeId nodeType : string) (r : State) : bool :=
  bool_decide (nodeId ∈ _fastForwardSet r)
  || existsb (fun rule => rule nodeId nodeType) (_fastForwardRules r).

Definition fastForwardNode (nodeId : string) (r : State) : State :=
  set_fastForwardSet ({[ nodeId ]} ∪ _fastForwardSet r) r.

Definition fastForwardWhere (rule : string -> string -> bool) (r : State) : State :=
  set_fastForwardRules (_fastForwardRules r ++ [rule])%list r.

(** The targets of one parallel transition. *)
Fixpoint spawn_targets (targets : list string) (fiberEntity : string)
    (awaited : bool) (promises : list nat) (r : State)
    : Except (list nat) * State :=
  match targets with
  | [] => (Ok promises, r)
  | target :: rest =>
      match _resolveEntityId target fiberEntity r with
      | Throw e => (Throw e, r)
      | Ok entityId =>
          let '(promise, r') := _spawnFiber target entityId r in
          spawn_targets rest fiberEntity awaited
            (if awaited then (promises ++ [promise])%list else promises) r'
      end
  end.

(** The targets of one sequential transition. *)
Fixpoint enqueue_targets (targets : list string) (fiberEntity : string)
    (pending : list VisScheduledNode) (r : State)
    : Except (list VisScheduledNode) :=
  match targets with
  | [] => Ok pending
  | target :: rest =>
      entityId ← _resolveEntityId target fiberEntity r;
      enqueue_targets rest fiberEntity
        (pending ++ [{| sch_nodeId := target; sch_entityId := entityId |}])%list r
  end.

Fixpoint route_each (ts : list VisFlowTransition) (graphNode : VisGraphNode)
    (fiberEntity : string) (pending : list VisScheduledNode)
    (promises : list nat) (r : State)
    : Except (list VisScheduledNode * list nat) * State :=
  match ts with
  | [] => (Ok (pending, promises), r)
  | t :: rest =>
      let targets := getNext (_graph r) (gn_id graphNode) (Node.pinId t) in
      match strategy t with
      | Some parallel =>
          let awaited := match awaitCompletion t with
                         | Some false => false
                         | _ => true
                         end in
          match spawn_targets targets fiberEntity awaited promises r with
          | (Throw e, r') => (Throw e, r')
          | (Ok promises', r') =>
              route_each rest graphNode fiberEntity pending promises' r'
          end
      | _ =>
          match enqueue_targets targets fiberEntity pending r with
          | Throw e => (Throw e, r)
          | Ok pending' =>
              route_each rest graphNode fiberEntity pending' promises r
          end
      end
  end.

(** The synchronous part of [_routeTransitions] for fiber [f]: the
    fibers to await, or the error of a missing target. *)
Definition _routeTransitions (f : VisFiber) (graphNode : VisGraphNode)
    (ts : option (list VisFlowTransition)) (r : State)
    : Except (list nat) * State :=
  let list := _normalizeTransitions graphNode ts in
  match route_each list graphNode (fiber_entityId f) [] [] r with
  | (Throw e, r') => (Throw e, r')
  | (Ok (pending, promises), r') =>
      (Ok promises,
       set_fibers (fiber_update (fiber_id f)
                     (fun f' => with_queue (pending ++ queue f')%list f')
                     (_fibers r')) r')
  end.

(** *** run() *)

(** The handle wraps the runner it was made for; there is one runner
    here, so the handle carries nothing. *)
Inductive VisExecutionHandle : Type := HandleOfRunner.

Definition handle_status (_ : VisExecutionHandle) (r : State) : RunnerStatus :=
  _status r.

Definition getScopeSnapshot (r : State) : gmap string value :=
  scope_snapshot (_scope r).

Definition handle_scope (_ : VisExecutionHandle) (r : State) : gmap string value :=
  getScopeSnapshot r.

Fixpoint spawn_roots (rs : list string) (r : State) : Except unit * State :=
  match rs with
  | [] => (Ok tt, r)
  | root :: rest =>
      match _resolveEntityId root (_options_entityId r) r with
      | Throw e => (Throw e, r)
      | Ok entityId => spawn_roots rest (_spawnFiber root entityId r).2
      end
  end.

Definition run (r : State) : Except VisExecutionHandle * State :=
  if negb (bool_decide (_status r = Idle)) then (Ok HandleOfRunner, r)
  else
    let r := set_resolveCompletion true
               (set_completionPromise (Some false) (set_status Running r)) in
    match spawn_roots (roots (_graph r)) r with
    | (Throw e, r') => (Throw e, r')
    | (Ok _, r') =>
        match _fibers r' with
        | [] => (Ok HandleOfRunner, _finish Completed r')
        | _ :: _ => (Ok HandleOfRunner, r')
        end
    end.

(** *** The body of a fiber ([_runFiber]), turn by turn *)

(** [_invokeNode]: whether the call goes to [onFastForward] rather than to
    [execute]. *)
Definition _invokeNode (node : VisGraphNode) (r : State) : bool :=
  _shouldFastForward (gn_id node) (gn_type node) r.

(** The entry point of the instance that [_invokeNode] calls.  The runner
    awaits the call; what comes back is an event of the run. *)
Definition entry_point (node : VisGraphNode) (viaFastForward : bool) : Behaviour :=
  if viaFastForward then onFastForward (instance node) else execute (instance node).

(** The [while] condition and, when it holds, the iteration up to the
    call of the node.  [scheduled.entityId] is never null, so that the
    [??] keeps it; the constructor of the context calls
    [adapter.getEntity], which does not throw in [VisComponentHost]. *)
Definition loop_head (f : VisFiber) (r : State) : State :=
  let fid := fiber_id f in
  if cancelled (_signal r) then goto fid Resolved r
  else
    match queue f with
    | [] => goto fid Resolved r
    | scheduled :: rest =>
        let r := set_fibers (fiber_update fid (with_queue rest) (_fibers r)) r in
        match getNode (_graph r) (sch_nodeId scheduled) with
        | Throw e => reject fid e r
        | Ok graphNode =>
            match buildInputs (_graph r) (gn_id graphNode) (_scope r) with
            | Throw e => reject fid e r
            | Ok ins =>
                let ctx := {| entityId := sch_entityId scheduled; inputs := ins |} in
                let ff := _invokeNode graphNode r in
                goto fid (AwaitInvoke graphNode ctx ff)
                  (observe (Invoked (gn_id graphNode) ff) r)
            end
        end
    end.

(** In the [try], past the wait: outputs, then transitions. *)
Definition after_wait (f : VisFiber) (graphNode : VisGraphNode)
    (result : VisNodeExecutionResult) (r : State) : State :=
  let r := _applyOutputs (gn_id graphNode) (outputs result) r in
  match _routeTransitions f graphNode (transitions result) r with
  | (Ok children, r') => goto (fiber_id f) (AwaitRoute graphNode children) r'
  | (Throw e, r') => goto (fiber_id f) (Unwinding graphNode e) r'
  end.

(** The awaited call of the node returns [result]: the [try] begins. *)
Definition node_returns (fid : nat) (result : VisNodeExecutionResult)
    (r : State) : State :=
  match fiber_lookup fid (_fibers r) with
  | Some f =>
      match pc f with
      | AwaitInvoke graphNode _ _ =>
          match waitFor result with
          | Some (t :: ts) =>
              match _waitForNodes (t :: ts) (default false (waitForNext result)) [] r with
              | (Ok promises, r') => goto fid (AwaitWait graphNode result promises) r'
              | (Throw e, r') => goto fid (Unwinding graphNode e) r'
              end
          | Some [] | None => after_wait f graphNode result r
          end
      | _ => r
      end
  | None => r
  end.

(** The awaited call of the node throws: the [await] stands before the
    [try], so the body rejects at once. *)
Definition node_throws (fid : nat) (error : string) (r : State) : State :=
  match fiber_lookup fid (_fibers r) with
  | Some f =>
      match pc f with
      | AwaitInvoke graphNode _ _ =>
          reject fid error (observe (InvokeThrew (gn_id graphNode)) r)
      | _ => r
      end
  | None => r
  end.

(** The [catch] handler of [_spawnFiber]. *)
Definition on_catch (fid : nat) (error : string) (r : State) : State :=
  goto fid Handled
    (signal_cancel (Some error)
       (set_status Failed (observe (FiberError fid error) r))).

(** The [finally] handler of [_spawnFiber]. *)
Definition on_finally (fid : nat) (r : State) : State :=
  let r := set_fibers (fiber_remove fid (_fibers r)) r in
  match _fibers r with
  | [] =>
      let state := if cancelled (_signal r) then Cancelled
                   else if decide (_status r = Failed) then Failed
                   else Completed in
      _finish state r
  | _ :: _ => r
  end.

(** One turn of fiber [fid], when it can take one. *)
Definition advance (fid : nat) (r : State) : State :=
  match fiber_lookup fid (_fibers r) with
  | None => r
  | Some f =>
      match pc f with
      | AtLoop => loop_head f r
      | AwaitInvoke _ _ _ => r
      | AwaitWait graphNode result promises =>
          if forallb (fun p => bool_decide (p ∈ resolvedPromises r)) promises then
            if cancelled (_signal r)
            then goto fid Resolved (_markNodeCompleted (gn_id graphNode) r)
            else after_wait f graphNode result r
          else r
      | AwaitRoute graphNode children =>
          if forallb (fun c => negb (is_live c r)) children
          then goto fid AtLoop (_markNodeCompleted (gn_id graphNode) r)
          else r
      | Unwinding graphNode e =>
          reject fid e (_markNodeCompleted (gn_id graphNode) r)
      | Rejected e => on_catch fid e r
      | Resolved | Handled => on_finally fid r
      end
  end.

(** *** Runs *)

(** What happens to a runner: calls on the runner or its handle, turns
    of its fibers, and what the code of the nodes does meanwhile: a call
    returns a result or throws, and a node may cancel the signal, request
    fast-forward and write the blackboard through its context at any time.
    The context also hands out the scope: a node may call [ctx.scope.set],
    and the runner that a Run Subgraph node starts on [ctx.scope] (its
    [shareScope] is true unless set otherwise) applies the outputs of its
    own nodes to it.  Either is a call of [VisScope.set], the only
    method that writes a scope. *)
Inductive Event : Type :=
| CallRun
| CallCancel (why : option string)
| CallFastForwardNode (nodeId : string)
| CallFastForwardWhere (rule : string -> string -> bool)
| Advance (fid : nat)
| NodeReturns (fid : nat) (result : VisNodeExecutionResult)
| NodeThrows (fid : nat) (error : string)
| NodeCancels (why : option string)
| NodeRequestsFastForward (why : option string)
| NodeSetsVariable (key : string) (v : value)
| NodeClearsVariable (key : string)
| NodeWritesScope (nodeId pinId : string) (v : value).

(** [ctx.scope.set(nodeId, pinId, value)], by a node or by a runner that
    shares the scope. *)
Definition scope_write (nodeId pinId : string) (v : value) (r : State) : State :=
  observe (ScopeSet nodeId pinId v)
    (set_scope (scope_set nodeId pinId v (_scope r)) r).

Definition step (r : State) (e : Event) : State :=
  match e with
  | CallRun => (run r).2
  | CallCancel why => cancel why r
  | CallFastForwardNode nodeId => fastForwardNode nodeId r
  | CallFastForwardWhere rule => fastForwardWhere rule r
  | Advance fid => advance fid r
  | NodeReturns fid result => node_returns fid result r
  | NodeThrows fid error => node_throws fid error r
  | NodeCancels why => signal_cancel why r
  | NodeRequestsFastForward why => signal_requestFastForward why r
  | NodeSetsVariable key v => set_blackboard (bb_set key v (_blackboard r)) r
  | NodeClearsVariable key => set_blackboard (bb_delete key (_blackboard r)) r
  | NodeWritesScope nodeId pinId v => scope_write nodeId pinId v r
  end.

Definition exec (r : State) (es : list Event) : State := foldl step r es.

(** What the synchronous code of a node does to the state that the run
    shares, short of cancelling the signal. *)
Definition is_effect (e : Event) : bool :=
  match e with
  | NodeRequestsFastForward _ | NodeSetsVariable _ _ | NodeClearsVariable _
  | NodeWritesScope _ _ _ => true
  | _ => false
  end.

(** The stretch that the code runs inside [_spawnFiber], for the fibers
    numbered from [S c] on: each fiber takes its first turn, which ends at
    the call of its node, and the synchronous code of that node has its
    effects, before the next fiber is spawned.  A first turn and these
    effects leave the later fibers alone, so that the stretch is the same
    when it follows the spawning of all the fibers. *)
Fixpoint first_turns (c : nat) (effects : list (list Event)) : list Event :=
  match effects with
  | [] => []
  | es :: rest => (Advance (S c) :: es ++ first_turns (S c) rest)%list
  end.

(** *** What a run is measured by *)

Definition is_invocation_of (n : string) (o : Obs) : bool :=
  match o with Invoked m _ => bool_decide (m = n) | _ => false end.

Definition is_throw_of (n : string) (o : Obs) : bool :=
  match o with InvokeThrew m => bool_decide (m = n) | _ => false end.

Definition is_body_throw (o : Obs) : bool :=
  match o with BodyThrew _ _ => true | _ => false end.

Definition is_fiber_error (o : Obs) : bool :=
  match o with FiberError _ _ => true | _ => false end.

(** How many fiber bodies threw. *)
Definition body_throws (r : State) : nat :=
  length (List.filter is_body_throw (history r)).

(** How many errors the [catch] handler of [_spawnFiber] received. *)
Definition fiber_errors (r : State) : nat :=
  length (List.filter is_fiber_error (history r)).

(** How often node [n] was invoked ([execute] or [onFastForward]). *)
Definition invocations (n : string) (r : State) : nat :=
  length (List.filter (is_invocation_of n) (history r)).

(** How many of these invocations threw. *)
Definition thrown_invocations (n : string) (r : State) : nat :=
  length (List.filter (is_throw_of n) (history r)).

(** The node a fiber is processing: invoked, and [_markNodeCompleted]
    not yet reached. *)
Definition processing (p : Pc) : option string :=
  match p with
  | AwaitInvoke node _ _ | AwaitWait node _ _
  | AwaitRoute node _ | Unwinding node _ => Some (gn_id node)
  | AtLoop | Resolved | Rejected _ | Handled => None
  end.

(** The fibers of [fs] whose body stands at a point that satisfies [P]. *)
Definition count_pc (P : Pc -> bool) (fs : list VisFiber) : nat :=
  length (List.filter (fun f => P (pc f)) fs).

Definition is_processing (n : string) (p : Pc) : bool :=
  bool_decide (processing p = Some n).

Definition in_flight (n : string) (r : State) : nat :=
  count_pc (is_processing n) (_fibers r).

Definition is_rejected (p : Pc) : bool :=
  match p with Rejected _ => true | _ => false end.



(** All calls of [scope.set], oldest first, by the node id they were made
    for: the outputs the runner applied and the writes from elsewhere. *)
Definition scope_log_of (h : list Obs) : list (string * list (string * value)) :=
  rev (omap (fun o => match o with
                      | Applied n outs => Some (n, outs)
                      | ScopeSet n p v => Some (n, [(p, v)])
                      | _ => None
                      end) h).







End Runner.

(* ===================================================================== *)
(** ** runtime/nodes/control.ts: Branch, Set Variable, Parallel *)
(* ===================================================================== *)

Module ControlFlow.
Import Js Context Node.

(** [toBoolean(value, fallback)]: a boolean is itself, a number is
    [value !== 0], a string is [value.length > 0], anything else is the
    fallback. *)
Definition toBoolean (v : value) (fallback : bool) : bool :=
  match v with
  | VBool b => b
  | VNum x => negb (PrimFloat.eqb x 0%float)
  | VStr s => Nat.ltb 0 (String.length s)
  | VUndefined | VNull | VObj _ => fallback
  end.

(** *** VisBranchNode *)

Record VisBranchNode : Type := {
  branch_id : string;
  defaultCondition : bool
}.

Definition branch_onExecute (n : VisBranchNode) : Behaviour :=
  fun ctx st =>
    let decision :=
      toBoolean (getInput ctx "condition" (VBool (defaultCondition n)))
                (defaultCondition n) in
    let pin := if decision then "true" else "false" in
    (Returned (success None (Some [on_pin_with pin sequential])), st).

Definition VisBranchNode_instance (n : VisBranchNode) : VisRuntimeNode :=
  {| id := branch_id n;
     _onExecute := branch_onExecute n;
     onFastForward := base_onFastForward |}.

(** *** VisSetVariableNode *)

Record VisSetVariableNode : Type := {
  setvar_id : string;
  setvar_key : string;
  valueInput : value
}.

Definition setvar_onExecute (n : VisSetVariableNode) : Behaviour :=
  fun ctx st =>
    if decide (setvar_key n = "") then
      (Returned (failure (Some "Set Variable node requires a key")), st)
    else
      let v := getInput ctx "value" (valueInput n) in
      let st' := setVariable (setvar_key n) v st in
      (Returned (success (Some [("value", v)])
                         (Some [on_pin_with "next" sequential])), st').

Definition VisSetVariableNode_instance (n : VisSetVariableNode) : VisRuntimeNode :=
  {| id := setvar_id n;
     _onExecute := setvar_onExecute n;
     onFastForward := base_onFastForward |}.

(** *** VisParallelNode *)

Record VisParallelNode : Type := {
  parallel_id : string;
  parallel_awaitCompletion : bool
}.

(** The four transitions; the [filter] on [transition.pinId] keeps them
    all, the pin ids being non-empty strings. *)
Definition parallel_onExecute (n : VisParallelNode) : Behaviour :=
  fun _ st =>
    let transitions :=
      (fun pin => {| pinId := pin; strategy := Some parallel;
                     awaitCompletion := Some (parallel_awaitCompletion n);
                     groupId := None |})
        <$> ["branchA"; "branchB"; "branchC"; "branchD"] in
    (Returned (success None (Some transitions)), st).

Definition VisParallelNode_instance (n : VisParallelNode) : VisRuntimeNode :=
  {| id := parallel_id n;
     _onExecute := parallel_onExecute n;
     onFastForward := base_onFastForward |}.

End ControlFlow.

(* ===================================================================== *)
(** ** core/registry.ts: VisNodeRegistry *)
(* ===================================================================== *)

Module Registry.
Import Js Node Graph.

(** [register(ctor, options, pins, parameters)], with [options.type] and
    [options.defaultOutput] of the options; [normalizeNodeDefinition]
    copies the two arrays. *)
Definition register (c : string -> gmap string value -> VisRuntimeNode)
    (type : string) (out : option string) (ps : list VisPinMetadata)
    (params : list VisParameterMetadata) (reg : gmap string VisNodeDefinition)
    : Except (gmap string VisNodeDefinition) :=
  match reg !! type with
  | Some _ => Throw ("VisNode type '" +:+ type +:+ "' already registered.")
  | None =>
      Ok (<[type := {| def_type := type; defaultOutput := out; ctor := c;
                       pins := ps; parameters := params |}]> reg)
  end.

Definition getDefinition (reg : gmap string VisNodeDefinition) (type : string)
    : option VisNodeDefinition :=
  reg !! type.

End Registry.

(* ===================================================================== *)
(** ** runtime/library.ts: VisGraphLibrary *)
(* ===================================================================== *)

Module Library.
Import Js Node Graph.

(** [_assets]. *)
Definition VisGraphLibrary : Type := gmap string VisGraphAsset.

Definition register (asset : VisGraphAsset) (lib : gmap string VisGraphAsset)
    : gmap string VisGraphAsset :=
  <[asset_id asset := asset]> lib.

Definition registerMany (assets : list VisGraphAsset)
    (lib : gmap string VisGraphAsset) : gmap string VisGraphAsset :=
  foldl (fun l a => register a l) lib assets.

Definition has (lib : gmap string VisGraphAsset) (id : string) : bool :=
  bool_decide (is_Some (lib !! id)).

Definition getAsset (lib : gmap string VisGraphAsset) (id : string)
    : Except VisGraphAsset :=
  match lib !! id with
  | Some asset => Ok asset
  | None => Throw ("VisGraphLibrary: graph '" +:+ id +:+ "' is not registered.")
  end.

(** [instantiate(id)], on the node registry [reg]. *)
Definition instantiate (reg : VisNodeRegistry) (lib : gmap string VisGraphAsset)
    (id : string) : Except VisGraph :=
  asset ← getAsset lib id;
  fromAsset reg asset.

End Library.

(* ===================================================================== *)
(** * Definitions for the statements: examples, measures, invariant *)
(* ===================================================================== *)

Import Js Context Node Control Graph Runner.

Definition ctx_with (ins : gmap string value) : VisNodeExecutionContext :=
  {| entityId := "entity"; inputs := ins |}.


Definition no_coercions : Coercions :=
  {| StringToNumber := fun _ => PrimFloat.nan;
     ObjectToNumber := fun _ => PrimFloat.nan;
     ObjectToPrimitive := fun _ => VStr "[object Object]" |}.

Definition empty_store : Store :=
  {| scope := ∅; blackboard := ∅; signal := signal_new |}.








(** Whether some connection of the asset, of either kind, ends at [id]. *)
Definition has_inbound (cs : list VisSerializedConnection) (id : string) : bool :=
  existsb (fun c => bool_decide (nodeId (to c) = id)) cs.

Definition asset_AB_data : VisGraphAsset :=
  {| asset_id := "g"; asset_name := "g"; root := None;
     nodes := [ {| sn_id := "A"; sn_type := "t"; sn_params := None;
                   sn_inputs := None; sn_entityId := None |};
                {| sn_id := "B"; sn_type := "t"; sn_params := None;
                   sn_inputs := None; sn_entityId := None |} ];
     connections :=
       Some [ {| kind := data;
                 from := {| nodeId := "A"; pinId := "v" |};
                 to := {| nodeId := "B"; pinId := "x" |} |} ] |}.

(** A registry with the Get Variable node, and a small asset: [B] reads
    pin [x] from [A] and then from [C], and has literals for [x] and [y]. *)
Definition getVar_definition : VisNodeDefinition :=
  {| def_type := "vis.control.getVar";
     defaultOutput := Some "next";
     ctor := fun id props =>
               VisGetVariableNode_instance
                 {| getvar_id := id;
                    getvar_key := match props !! "key" with
                                  | Some (VStr k) => k
                                  | _ => ""
                                  end;
                    defaultValue := prop props "defaultValue" |};
     pins := [ {| pin_id := "next"; direction := dir_out;
                  pin_signal := sig_flow; pin_strategy := Some sequential |};
               {| pin_id := "value"; direction := dir_out;
                  pin_signal := sig_data; pin_strategy := Some sequential |} ];
     parameters := [ {| param_id := "key"; propertyKey := "key";
                        param_defaultValue := VUndefined |};
                     {| param_id := "defaultValue"; propertyKey := "defaultValue";
                        param_defaultValue := VUndefined |} ] |}.

Definition demo_registry : VisNodeRegistry :=
  {[ "vis.control.getVar" := getVar_definition ]}.

Definition getVar_node (id key : string) (ins : option (gmap string value))
    : VisSerializedNode :=
  {| sn_id := id; sn_type := "vis.control.getVar";
     sn_params := Some {[ "key" := VStr key ]};
     sn_inputs := ins; sn_entityId := None |}.

Definition data_edge (a p b q : string) : VisSerializedConnection :=
  {| kind := data; from := {| nodeId := a; pinId := p |};
     to := {| nodeId := b; pinId := q |} |}.

Definition flow_edge (a p b : string) : VisSerializedConnection :=
  {| kind := flow; from := {| nodeId := a; pinId := p |};
     to := {| nodeId := b; pinId := "flow" |} |}.

Definition demo_asset : VisGraphAsset :=
  {| asset_id := "demo"; asset_name := "demo"; root := None;
     nodes := [ getVar_node "A" "a" None;
                getVar_node "B" "b"
                  (Some {[ "x" := VNum 1%float; "y" := VNum 2%float ]});
                getVar_node "C" "c" None ];
     connections := Some [ data_edge "A" "value" "B" "x";
                           flow_edge "A" "next" "B";
                           data_edge "C" "value" "B" "x" ] |}.

Definition empty_graph : VisGraph :=
  {| graph_id := ""; graph_name := ""; roots := [];
     _nodes := ∅; _flowMap := ∅; _dataMap := ∅ |}.

Definition hydrated (reg : VisNodeRegistry) (asset : VisGraphAsset) : VisGraph :=
  match fromAsset reg asset with
  | Ok g => g
  | Throw _ => empty_graph
  end.

Definition demo_scope : gmap string value :=
  {[ "A:value" := VStr "a"; "C:value" := VUndefined ]}.

Definition one_node_asset : VisGraphAsset :=
  {| asset_id := "one"; asset_name := "one"; root := None;
     nodes := [ getVar_node "A" "a" None ]; connections := None |}.




(** A fresh runner on the one-node graph, and the same one after [run()]. *)
Definition fresh_runner : State :=
  new (hydrated demo_registry one_node_asset) "entity" ∅ ∅.

Definition started_runner : State := step fresh_runner CallRun.

(** The scope that a list of applied outputs leaves, from scope [sc0]. *)
Definition replay (log : list (string * list (string * value)))
    (sc0 : gmap string value) : gmap string value :=
  foldl (fun s entry => foldl (fun s e => scope_set entry.1 e.1 e.2 s) s entry.2)
        sc0 log.

Definition count_obs (P : Obs -> bool) (h : list Obs) : nat :=
  length (List.filter P h).

(** The invariant, on the fields of the state it reads: the fibers and
    their counter, the history, the completion counts, the status, the
    signal, the completion promise and its resolver, and the scope. *)
Record InvC (sc0 : gmap string value) (fs : list VisFiber) (c : nat)
    (h : list Obs) (cc : gmap string nat) (st : RunnerStatus)
    (sg : VisExecutionSignal) (cp : option bool) (rc : bool)
    (sc : gmap string value) : Prop := {
  inv_nodup : NoDup (fiber_id <$> fs);
  inv_ids : Forall (fun f => 1 <= fiber_id f <= c) fs;
  inv_counts : forall n,
    default 0 (cc !! n) + count_pc (is_processing n) fs
      + count_obs (is_throw_of n) h
    = count_obs (is_invocation_of n) h;
  inv_rejected :
    count_obs is_body_throw h = count_obs is_fiber_error h + count_pc is_rejected fs;
  inv_failed :
    0 < count_obs is_fiber_error h -> st = Failed /\ cancelled sg = true;
  inv_idle : st = Idle -> c = 0;
  inv_resolver : 0 < c -> cp = Some true \/ rc = true;
  inv_settled : 0 < c -> fs = [] -> cp = Some true;
  inv_scope : sc = replay (scope_log_of h) sc0;
  inv_spawned : 0 < count_obs is_body_throw h -> 0 < c
}.

Definition Inv (sc0 : gmap string value) (r : State) : Prop :=
  InvC sc0 (_fibers r) (_fiberCounter r) (history r) (_completionCounts r)
       (_status r) (_signal r) (_completionPromise r) (_resolveCompletion r)
       (_scope r).

(** The fields the invariant reads. *)
Definition core (r : State) :=
  (_fibers r, _fiberCounter r, history r, _completionCounts r, _status r,
   _signal r, _completionPromise r, _resolveCompletion r, _scope r).

(** The invariant holds and fiber [fid] stands at [p]. *)
Definition Ready (sc0 : gmap string value) (fid : nat) (p : Pc) (r : State) : Prop :=
  Inv sc0 r /\ exists f, fiber_lookup fid (_fibers r) = Some f /\ pc f = p.

Definition Spawned (r r' : State) : Prop :=
  exists new,
    r' = set_fibers (_fibers r ++ new)%list
           (set_fiberCounter (_fiberCounter r + length new) r)
    /\ fiber_id <$> new = seq (S (_fiberCounter r)) (length new)
    /\ Forall (fun f => pc f = AtLoop) new.

(** A run of the one-node graph whose node throws: [run()], the first turn
    of the fiber (which invokes [A]), the rejection of the call, the
    [catch] handler and the [finally] handler. *)
Definition throwing_run : State :=
  exec fresh_runner
    [CallRun; Advance 1; NodeThrows 1 "boom"; Advance 1; Advance 1].





(** The last serialized node of the asset with id [n]. *)
Definition last_node (ns : list VisSerializedNode) (n : string)
    : option VisSerializedNode :=
  last (List.filter (fun sn => bool_decide (sn_id sn = n)) ns).

(** Whether the type of a serialized node is missing from the registry. *)
Definition unregistered (reg : VisNodeRegistry) (sn : VisSerializedNode) : bool :=
  bool_decide (reg !! sn_type sn = None).

(** The targets of output pin [pin] of node [n]: the [to] nodes of the
    flow connections out of it, in the order of the asset. *)
Definition targets_of (cs : list VisSerializedConnection) (n pin : string)
    : list string :=
  (fun c => nodeId (to c)) <$> List.filter
    (fun c => match kind c with
              | flow => bool_decide (nodeId (from c) = n)
                        && bool_decide (pinId (from c) = pin)
              | data => false
              end) cs.

(** The value hydration binds to a parameter: [values[id] ?? defaultValue]. *)
Definition bound_value (values : gmap string value) (meta : VisParameterMetadata)
    : value :=
  coalesce (prop values (param_id meta)) (param_defaultValue meta).

(** The decorators of a module register its node definitions one after
    the other; the first error stops them. *)
Fixpoint register_all (ds : list VisNodeDefinition)
    (reg : gmap string VisNodeDefinition)
    : Except (gmap string VisNodeDefinition) :=
  match ds with
  | [] => Ok reg
  | d :: rest =>
      reg' ← Registry.register (ctor d) (def_type d) (defaultOutput d)
                               (pins d) (parameters d) reg;
      register_all rest reg'
  end.

(** The Branch node's reading of its input, on the raw input value. *)
Definition branch_reads (input : value) (fallback : bool) : bool :=
  match input with
  | VBool b => b
  | VNum x => negb (PrimFloat.eqb x 0%float)
  | VStr "" => false
  | VStr _ => true
  | VUndefined | VNull | VObj _ => fallback
  end.

(** The character [:] that [makeScopeKey] puts between node and pin. *)
Definition colon : Ascii.ascii :=
  Ascii.Ascii false true false true true true false false.

(** Whether a string has no colon. *)
Fixpoint no_colon (s : string) : bool :=
  match s with
  | EmptyString => true
  | String a rest => negb (bool_decide (a = colon)) && no_colon rest
  end.

(** The definition the decorators of [VisLoopNode] register. *)
Definition loop_definition `{Coercions} : VisNodeDefinition :=
  {| def_type := "vis.control.loop";
     defaultOutput := Some "body";
     ctor := fun id props =>
               VisLoopNode_instance
                 {| loop_id := id;
                    count := match props !! "count" with
                             | Some (VNum x) => x
                             | _ => 1%float
                             end;
                    loopKey := match props !! "loopKey" with
                               | Some (VStr k) => k
                               | _ => "loop"
                               end |};
     pins := [ {| pin_id := "flow"; direction := dir_in;
                  pin_signal := sig_flow; pin_strategy := None |};
               {| pin_id := "count"; direction := dir_in;
                  pin_signal := sig_data; pin_strategy := None |};
               {| pin_id := "body"; direction := dir_out;
                  pin_signal := sig_flow; pin_strategy := Some sequential |};
               {| pin_id := "complete"; direction := dir_out;
                  pin_signal := sig_flow; pin_strategy := Some sequential |};
               {| pin_id := "index"; direction := dir_out;
                  pin_signal := sig_data; pin_strategy := Some sequential |} ];
     parameters := [ {| param_id := "count"; propertyKey := "count";
                        param_defaultValue := VNum 1%float |};
                     {| param_id := "loopKey"; propertyKey := "loopKey";
                        param_defaultValue := VStr "loop" |} ] |}.

Definition loop_graph_node : VisGraphNode :=
  {| gn_id := "L"; gn_type := "vis.control.loop"; gn_entityId := None;
     instance := ctor (loop_definition (H := no_coercions)) "L" ∅;
     definition := loop_definition (H := no_coercions);
     literalInputs := ∅ |}.

Definition fast_forward_store : Store :=
  {| scope := ∅; blackboard := ∅;
     signal := {| cancelled := false; fastForward := true; reason := None |} |}.

(** The fields that make the lifecycle of a runner and its fast-forward
    marks. *)
Definition ctl (r : State) :=
  (_status r, _signal r, _completionPromise r, _resolveCompletion r,
   _fastForwardSet r, _fastForwardRules r).

(** The invocations of a history, in order. *)
Definition is_call (o : Obs) : bool :=
  match o with Invoked _ _ => true | _ => false end.

Definition calls (r : State) : list Obs := List.filter is_call (history r).

(** How often [execute] was called on node [n]: its invocations that did
    not go to [onFastForward]. *)
Definition is_execution_of (n : string) (o : Obs) : bool :=
  match o with Invoked m false => bool_decide (m = n) | _ => false end.

Definition executions (n : string) (r : State) : nat :=
  length (List.filter (is_execution_of n) (history r)).

(** The runner fast-forwards node [n], whatever its type. *)
Definition marked (n : string) (r : State) : Prop :=
  forall t, _shouldFastForward n t r = true.

(** [r'] differs from [r] neither in these fields nor in the invocations. *)
Definition Quiet (r r' : State) : Prop :=
  ctl r' = ctl r /\ calls r' = calls r.

(** What no operation of the runner undoes: the cancellation of the
    signal and the fast-forward marks; under cancellation no node is
    invoked, and [execute] is not called on a marked node. *)
Definition Keeps (r r' : State) : Prop :=
  (cancelled (_signal r) = true -> cancelled (_signal r') = true)
  /\ (forall n t, _shouldFastForward n t r = true ->
                  _shouldFastForward n t r' = true)
  /\ (cancelled (_signal r) = true ->
      forall n, invocations n r' = invocations n r)
  /\ (forall n, marked n r -> executions n r' = executions n r).

(** The lifecycle invariant: what the status says about the fibers, the
    completion promise, its resolver and the signal. *)
Record Life (r : State) : Prop := {
  life_idle : _status r = Idle ->
    _fibers r = [] /\ _completionPromise r = None /\ _resolveCompletion r = false;
  life_running : _status r = Running ->
    _completionPromise r = Some false /\ _resolveCompletion r = true;
  life_done : _status r = Completed \/ _status r = Cancelled ->
    _fibers r = [] /\ _resolveCompletion r = false;
  life_completed : _status r = Completed -> _completionPromise r = Some true;
  life_cancelled : _status r = Cancelled \/ _status r = Failed ->
    cancelled (_signal r) = true;
  life_pending : _completionPromise r = Some false -> _resolveCompletion r = true
}.

(** The entity a scheduled target runs for: the one of its node, else the
    fallback ([_resolveEntityId], when the node exists). *)
Definition entity_for (g : VisGraph) (fallback target : string) : string :=
  match _nodes g !! target with
  | Some node => default fallback (gn_entityId node)
  | None => fallback
  end.

Definition scheduled_for (g : VisGraph) (fallback target : string)
    : VisScheduledNode :=
  {| sch_nodeId := target; sch_entityId := entity_for g fallback target |}.

(** The fibers that spawning [targets] one after the other adds, the fiber
    counter standing at [c]. *)
Fixpoint fresh_fibers (g : VisGraph) (fallback : string) (c : nat)
    (targets : list string) : list VisFiber :=
  match targets with
  | [] => []
  | t :: rest =>
      {| fiber_id := S c;
         queue := [scheduled_for g fallback t];
         fiber_entityId := entity_for g fallback t;
         pc := AtLoop |} :: fresh_fibers g fallback (S c) rest
  end.

Definition is_parallel (t : VisFlowTransition) : bool :=
  match strategy t with Some parallel => true | _ => false end.

Definition is_awaited (t : VisFlowTransition) : bool :=
  match awaitCompletion t with Some false => false | _ => true end.

(** The targets of the transitions [ts] of [node], in the order of the
    transitions and, for one pin, of the connections. *)
Definition targeted (g : VisGraph) (node : VisGraphNode)
    (ts : list VisFlowTransition) : list string :=
  ts ≫= (fun t => getNext g (gn_id node) (Node.pinId t)).

Definition sequential_targets (g : VisGraph) (node : VisGraphNode)
    (ts : list VisFlowTransition) : list string :=
  targeted g node (List.filter (fun t => negb (is_parallel t)) ts).

(** The targets of the parallel transitions, each with whether its
    transition is awaited. *)
Definition parallel_targets (g : VisGraph) (node : VisGraphNode)
    (ts : list VisFlowTransition) : list (string * bool) :=
  List.filter is_parallel ts
    ≫= (fun t => (fun x => (x, is_awaited t)) <$> getNext g (gn_id node) (Node.pinId t)).

(** The ids of the awaited ones among the fibers spawned for [par]. *)
Fixpoint awaited_ids (c : nat) (par : list (string * bool)) : list nat :=
  match par with
  | [] => []
  | (_, a) :: rest => (if a then [S c] else []) ++ awaited_ids (S c) rest
  end.

(** The runner with the fibers [new] spawned. *)
Definition grow (new : list VisFiber) (r : State) : State :=
  set_fibers (_fibers r ++ new)%list
    (set_fiberCounter (_fiberCounter r + length new) r).

(** Node [A] of the demo graph, and the runner on that graph after
    [run()]. *)
Definition demo_node_A : VisGraphNode :=
  {| gn_id := "A"; gn_type := "vis.control.getVar"; gn_entityId := None;
     instance := ctor getVar_definition "A" {[ "key" := VStr "a" ]};
     definition := getVar_definition;
     literalInputs := ∅ |}.

Definition demo_runner : State :=
  step (new (hydrated demo_registry demo_asset) "entity" ∅ ∅) CallRun.

Definition first_fiber : VisFiber :=
  {| fiber_id := 1; queue := []; fiber_entityId := "entity"; pc := AtLoop |}.

(** A node that the graph holds under its own id, as the nodes of a
    hydrated graph are. *)
Definition stored (g : VisGraph) (t : string) : Prop :=
  exists node, _nodes g !! t = Some node /\ gn_id node = t.

(** Fiber [f] is fiber [fid], spawned for [t], past its first turn: its
    queue is empty and it awaits the call of [t], made for the entity of
    [t] and through [onFastForward] exactly when [t] is marked. *)
Definition started_fiber (r : State) (fallback : string) (fid : nat) (t : string)
    (f : VisFiber) : Prop :=
  fiber_id f = fid /\ queue f = []
  /\ fiber_entityId f = entity_for (_graph r) fallback t
  /\ exists node ctx,
       _nodes (_graph r) !! t = Some node
       /\ entityId ctx = entity_for (_graph r) fallback t
       /\ pc f = AwaitInvoke node ctx (_shouldFastForward t (gn_type node) r).

(** The fibers [fs] are those spawned for [targets], in this order and
    numbered from [S c] on, each past its first turn. *)
Fixpoint started (r : State) (fallback : string) (c : nat)
    (targets : list string) (fs : list VisFiber) : Prop :=
  match targets, fs with
  | [], [] => True
  | t :: targets', f :: fs' =>
      started_fiber r fallback (S c) t f /\ started r fallback (S c) targets' fs'
  | _, _ => False
  end.

(** The invocation of [t] that the runner records. *)
Definition invocation_of (r : State) (t : string) : Obs :=
  Invoked t match _nodes (_graph r) !! t with
            | Some node => _shouldFastForward t (gn_type node) r
            | None => false
            end.

(** What the first turns of fibers and the effects of nodes leave alone. *)
Definition kept (r : State) :=
  (_graph r, _options_entityId r, _fiberCounter r, _status r,
   _completionPromise r, _resolveCompletion r, cancelled (_signal r),
   _fastForwardSet r, _fastForwardRules r).

Definition marks (r : State) :=
  (_graph r, _fastForwardSet r, _fastForwardRules r).

(** An asset whose second root names a node that it does not have. *)
Definition half_asset : VisGraphAsset :=
  {| asset_id := "half"; asset_name := "half"; root := Some (RootList ["A"; "X"]);
     nodes := [ getVar_node "A" "a" None ]; connections := None |}.

Definition half_runner : State :=
  new (hydrated demo_registry half_asset) "entity" ∅ ∅.

(** Effects of the synchronous code of one node, and of two. *)
Definition one_effect : list (list Event) :=
  [[NodeSetsVariable "k" (VNum 1%float)]].

Definition two_effects : list (list Event) :=
  [[NodeSetsVariable "k" (VNum 1%float)]; [NodeWritesScope "B" "out" VNull]].

(** The fields of the wait mechanism. *)
Definition wt (r : State) :=
  (_waiters r, promiseCounter r, resolvedPromises r, _completionCounts r).

(** Promise [p] has a waiter recorded for node [n], due at the next
    completion of [n]. *)
Definition waits_for (r : State) (p : nat) (n : string) : Prop :=
  exists ws w, _waiters r !! n = Some ws /\ w ∈ ws /\ resolve w = p
               /\ targetCount w = completed_of r n + 1.

(** Every promise that [_waitForNode] has created is resolved or has its
    waiter. *)
Definition Waited (r : State) : Prop :=
  forall p, p < promiseCounter r ->
    p ∈ resolvedPromises r \/ exists n, waits_for r p n.

(** A result that makes its fiber wait for the next completion of [A]. *)
Definition waiting_result : VisNodeExecutionResult :=
  {| status := st_success; outputs := None; transitions := None;
     waitFor := Some ["A"]; waitForNext := Some true |}.

(** The runner is cancelled while its node runs, and the node then
    returns a result that waits for the next completion of [A]. *)
Definition late_wait : State :=
  exec fresh_runner
    [CallRun; Advance 1; CallCancel None; NodeReturns 1 waiting_result].

(** Node [A] fans out to [B] and [C]. *)
Definition fan_asset : VisGraphAsset :=
  {| asset_id := "fan"; asset_name := "fan"; root := None;
     nodes := [ getVar_node "A" "a" None; getVar_node "B" "b" None;
                getVar_node "C" "c" None ];
     connections := Some [ flow_edge "A" "branchA" "B";
                           flow_edge "A" "branchB" "C" ] |}.

Definition fan_runner : State :=
  step (new (hydrated demo_registry fan_asset) "entity" ∅ ∅) CallRun.

(* ===================================================================== *)
(** * Theorems *)
(* ===================================================================== *)

(** ** The execution context *)






(** ** The node protocol *)

(** C8.  [execute(ctx)] returns the result [{ status: "skipped" }], with no
    transitions and the shared state untouched, when the signal is
    cancelled, whatever the hook [_onExecute] is; otherwise, under
    fast-forward, it is exactly [onFastForward(ctx)]; otherwise it is
    [_onExecute(ctx)].  The base [onFastForward] returns [skipped] with no
    transitions. *)
Theorem execute_dispatch (n : VisRuntimeNode)
    (ctx : VisNodeExecutionContext) (st : Store) :
  let skip := {| status := st_skipped; outputs := None; transitions := None;
                 waitFor := None; waitForNext := None |} in
  execute n ctx st =
    (if cancelled (signal st) then (Returned skip, st)
     else if fastForward (signal st) then onFastForward n ctx st
     else _onExecute n ctx st)
  /\ (forall hook : Behaviour,
        execute {| id := id n; _onExecute := hook;
                   onFastForward := onFastForward n |} ctx st =
        if cancelled (signal st) then (Returned skip, st)
        else if fastForward (signal st) then onFastForward n ctx st
        else hook ctx st)
  /\ base_onFastForward ctx st = (Returned skip, st).
Proof.
  intros skip. unfold execute, base_onFastForward, skipped, result_cancelled; simpl.
  repeat split.
Qed.

(** ** The Loop node *)



(** *** Numbers that are integers *)

Section Integers.
Local Open Scope Z_scope.









Lemma of_integer_zero : Prim2SF (of_uint63 (Uint63.of_Z 0)) = S754_zero false.
Proof. reflexivity. Qed.

















End Integers.





(** ** Roots of a hydrated graph *)

Lemma elem_of_incoming_from (cs : list VisSerializedConnection)
    (acc : gset string) (id : string) :
  id ∈ foldl (fun (acc : gset string) c => {[ nodeId (to c) ]} ∪ acc) acc cs
  <-> id ∈ acc \/ has_inbound cs id = true.
Proof.
  revert acc. induction cs as [| c cs IH]; intros acc; simpl.
  - split; [auto | intros [? | ?]; [assumption | discriminate]].
  - rewrite IH, elem_of_union, elem_of_singleton, orb_true_iff, bool_decide_eq_true.
    split; intros Hin.
    + destruct Hin as [[-> | ?] | ?]; auto.
    + destruct Hin as [? | [<- | ?]]; auto.
Qed.

Lemma incoming_of_spec (cs : list VisSerializedConnection) (id : string) :
  bool_decide (id ∉ incoming_of cs) = negb (has_inbound cs id).
Proof.
  unfold incoming_of.
  destruct (has_inbound cs id) eqn:Hin; simpl.
  - apply bool_decide_eq_false. intros Hn. apply Hn.
    apply elem_of_incoming_from. right. exact Hin.
  - apply bool_decide_eq_true. intros Hn.
    apply elem_of_incoming_from in Hn as [Hn | Hn]; [| congruence].
    revert Hn. apply not_elem_of_empty.
Qed.

Lemma filter_as_bool {A : Type} (P : A -> Prop) `{forall x, Decision (P x)}
    (l : list A) :
  filter P l = List.filter (fun x => bool_decide (P x)) l.
Proof.
  induction l as [| x l IH]; [reflexivity |]. simpl.
  destruct (decide (P x)) as [Hp | Hp].
  - rewrite filter_cons_True, bool_decide_eq_true_2 by assumption. now rewrite IH.
  - rewrite filter_cons_False, bool_decide_eq_false_2 by assumption. exact IH.
Qed.

Lemma filter_ext_bool {A : Type} (f g : A -> bool) (l : list A) :
  (forall x, f x = g x) -> List.filter f l = List.filter g l.
Proof.
  intros Hfg. induction l as [| x l IH]; [reflexivity |].
  simpl. rewrite Hfg, IH. reflexivity.
Qed.

(** On an asset whose connections are all flow connections, an inbound
    connection is an inbound flow connection. *)
Lemma has_inbound_flow_only (cs : list VisSerializedConnection) (id : string) :
  forallb (fun c => match kind c with flow => true | data => false end) cs = true ->
  has_inbound_flow cs id = has_inbound cs id.
Proof.
  induction cs as [| c cs IH]; [reflexivity |]. simpl.
  intros [Hc Hcs]%andb_true_iff. rewrite (IH Hcs).
  destruct (kind c); [reflexivity | discriminate].
Qed.

(** C2, as stated, fails: node [B] of [asset_AB_data] has an inbound data
    connection and no inbound flow connection; the specification counts it
    as a root, [_resolveRoots] does not. *)
Lemma resolveRoots_data_edge_counterexample :
  _resolveRoots asset_AB_data = ["A"]
  /\ spec_roots asset_AB_data = ["A"; "B"]
  /\ _resolveRoots asset_AB_data <> spec_roots asset_AB_data.
Proof.
  assert (H1 : _resolveRoots asset_AB_data = ["A"]) by (vm_compute; reflexivity).
  assert (H2 : spec_roots asset_AB_data = ["A"; "B"]) by (vm_compute; reflexivity).
  split; [exact H1 | split; [exact H2 |]].
  rewrite H1, H2. discriminate.
Qed.

(** C2, amended.  When the asset specifies no root, the roots are the ids
    of the asset's nodes, in asset order, at which no connection of the
    asset ends, flow or data alike; if there is none, the roots are the
    first node alone (none for an asset without nodes).  Where every
    connection is a flow connection these are the nodes with no inbound
    flow connection. *)
Theorem resolveRoots_unspecified (i nm : string)
    (ns : list VisSerializedNode) (cs : option (list VisSerializedConnection)) :
  let asset := {| asset_id := i; asset_name := nm; root := None;
                  nodes := ns; connections := cs |} in
  let free := List.filter (fun id => negb (has_inbound (default [] cs) id))
                          (sn_id <$> ns) in
  _resolveRoots asset =
    match free with
    | _ :: _ => free
    | [] => match ns with
            | first :: _ => [sn_id first]
            | [] => []
            end
    end
  /\ (forallb (fun c => match kind c with flow => true | data => false end)
              (default [] cs) = true ->
      _resolveRoots asset = spec_roots asset).
Proof.
  intros asset free.
  assert (Hcode : filter (fun id => id ∉ incoming_of (default [] cs)) (sn_id <$> ns) = free).
  { rewrite filter_as_bool. apply filter_ext_bool. intros id. apply incoming_of_spec. }
  assert (Hroots : _resolveRoots asset =
                   match free with
                   | _ :: _ => free
                   | [] => match ns with first :: _ => [sn_id first] | [] => [] end
                   end).
  { unfold _resolveRoots, asset; simpl. rewrite Hcode. reflexivity. }
  split; [exact Hroots |].
  intros Hflow. rewrite Hroots. unfold spec_roots, asset; simpl.
  replace (List.filter (fun id => negb (has_inbound_flow (default [] cs) id)) (sn_id <$> ns))
    with free; [reflexivity |].
  apply filter_ext_bool. intros id. now rewrite has_inbound_flow_only.
Qed.

(** ** Insertion-ordered maps *)






(** ** buildInputs *)











Example buildInputs_demo :
  buildInputs (hydrated demo_registry demo_asset) "B" demo_scope
  = Ok {[ "x" := VStr "a"; "y" := VNum 2%float ]}.
Proof. vm_compute. reflexivity. Qed.

(** ** The runner: run() *)

(** C6.  [run()] on a runner whose status is not [idle] returns a handle
    and leaves the runner as it is: no fiber is spawned, and the status,
    scope, blackboard, completion counts, waiters and completion promise
    (every field of the state) are unchanged; the handle it returns reads
    the status and the scope of that same run. *)
Theorem run_when_not_idle (r : State) :
  _status r <> Idle ->
  run r = (Ok HandleOfRunner, r)
  /\ step r CallRun = r
  /\ handle_status HandleOfRunner (run r).2 = _status r
  /\ handle_scope HandleOfRunner (run r).2 = scope_snapshot (_scope r).
Proof.
  intros Hs.
  assert (Hrun : run r = (Ok HandleOfRunner, r)).
  { unfold run. rewrite bool_decide_eq_false_2 by exact Hs. reflexivity. }
  unfold step. rewrite Hrun. repeat split.
Qed.

Lemma run_when_not_idle_witness :
  _status started_runner = Running
  /\ run started_runner = (Ok HandleOfRunner, started_runner)
  /\ step started_runner CallRun = started_runner
  /\ handle_status HandleOfRunner (run started_runner).2 = _status started_runner
  /\ handle_scope HandleOfRunner (run started_runner).2
     = scope_snapshot (_scope started_runner).
Proof.
  split; [vm_compute; reflexivity |].
  apply (run_when_not_idle started_runner).
  vm_compute. discriminate.
Defined.

(** ** The wait primitive *)

Lemma completed_of_mark_eq (n : string) (r : State) :
  completed_of (_markNodeCompleted n r) n = completed_of r n + 1.
Proof.
  unfold _markNodeCompleted, completed_of. destruct r; simpl.
  repeat case_match; simpl; now rewrite lookup_insert_eq.
Qed.

Lemma completed_of_mark_ne (n m : string) (r : State) :
  n <> m -> completed_of (_markNodeCompleted n r) m = completed_of r m.
Proof.
  intros Hne. unfold _markNodeCompleted, completed_of. destruct r; simpl.
  repeat case_match; simpl; now rewrite lookup_insert_ne.
Qed.

(** [_markNodeCompleted] wakes the waiters of the node that are due. *)
Lemma mark_wakes (n : string) (r : State) (ws : list NodeWaiter) (w : NodeWaiter) :
  _waiters r !! n = Some ws -> w ∈ ws ->
  targetCount w <= completed_of r n + 1 ->
  resolve w ∈ resolvedPromises (_markNodeCompleted n r).
Proof.
  intros Hws Hw Hdue. unfold _markNodeCompleted.
  set (next := completed_of r n + 1) in *.
  assert (Hin : resolve w ∈ resolve <$> List.filter (is_due next) ws).
  { apply list_elem_of_fmap. exists w. split; [reflexivity |].
    apply list_elem_of_In, filter_In. split; [now apply list_elem_of_In |].
    unfold is_due. now apply bool_decide_eq_true_2. }
  destruct r; simpl in *. rewrite Hws.
  destruct ws as [| w0 ws']; [now apply elem_of_nil in Hw |].
  case_match; simpl; apply elem_of_union_l, elem_of_list_to_set, Hin.
Qed.

(** It keeps the others, and leaves the waiters of other nodes alone. *)
Lemma mark_keeps (n : string) (r : State) :
  _waiters (_markNodeCompleted n r) !! n =
    match _waiters r !! n with
    | None => None
    | Some [] => Some []
    | Some ws =>
        match List.filter (fun w => negb (is_due (completed_of r n + 1) w)) ws with
        | [] => None
        | kept => Some kept
        end
    end.
Proof.
  unfold _markNodeCompleted. destruct r; simpl.
  destruct (_waiters0 !! n) as [[| w ws] |] eqn:Hws; simpl; try assumption.
  case_match; simpl.
  - apply lookup_delete_eq.
  - apply lookup_insert_eq.
Qed.

Lemma mark_other_waiters (n m : string) (r : State) :
  n <> m -> _waiters (_markNodeCompleted n r) !! m = _waiters r !! m.
Proof.
  intros Hne. unfold _markNodeCompleted. destruct r; simpl.
  repeat case_match; simpl; try reflexivity.
  - now apply lookup_delete_ne.
  - now apply lookup_insert_ne.
Qed.

Lemma waitForNode_records (n : string) (next : bool) (r : State) (target : nat) :
  let p := promiseCounter r in
  let w := {| targetCount := target; resolve := p |} in
  _waiters (add_waiter n w (set_promiseCounter (S p) r)) !! n
  = Some (default [] (_waiters r !! n) ++ [w])%list.
Proof. intros p w. unfold add_waiter. destruct r; simpl. apply lookup_insert_eq. Qed.


(** ** Fibers of a runner: counting by program point *)

Lemma filter_length_cons {A : Type} (f : A -> bool) (x : A) (l : list A) :
  length (List.filter f (x :: l)) = Nat.b2n (f x) + length (List.filter f l).
Proof. simpl. now destruct (f x). Qed.

Lemma count_pc_cons (P : Pc -> bool) (f : VisFiber) (fs : list VisFiber) :
  count_pc P (f :: fs) = Nat.b2n (P (pc f)) + count_pc P fs.
Proof. unfold count_pc. apply (filter_length_cons (fun g => P (pc g))). Qed.

Lemma count_pc_app (P : Pc -> bool) (fs gs : list VisFiber) :
  count_pc P (fs ++ gs) = count_pc P fs + count_pc P gs.
Proof. unfold count_pc. now rewrite List.filter_app, length_app. Qed.

Lemma count_pc_fresh (P : Pc -> bool) (new : list VisFiber) :
  P AtLoop = false -> Forall (fun f => pc f = AtLoop) new -> count_pc P new = 0.
Proof.
  intros HP Hnew. induction Hnew as [| f new Hf _ IH]; [reflexivity |].
  now rewrite count_pc_cons, Hf, HP, IH.
Qed.

Lemma fiber_update_ids (fid : nat) (upd : VisFiber -> VisFiber) (fs : list VisFiber) :
  (forall f, fiber_id (upd f) = fiber_id f) ->
  fiber_id <$> fiber_update fid upd fs = fiber_id <$> fs.
Proof.
  intros Hid. unfold fiber_update. induction fs as [| f fs IH]; [reflexivity |].
  rewrite !fmap_cons, IH. f_equal. destruct (decide (fiber_id f = fid)); [apply Hid | reflexivity].
Qed.

Lemma fiber_update_absent (fid : nat) (upd : VisFiber -> VisFiber) (fs : list VisFiber) :
  fid ∉ (fiber_id <$> fs) -> fiber_update fid upd fs = fs.
Proof.
  unfold fiber_update. induction fs as [| f fs IH]; [reflexivity |].
  rewrite fmap_cons. intros [Hne Hfs]%not_elem_of_cons.
  rewrite !fmap_cons, (IH Hfs). now rewrite decide_False by congruence.
Qed.

Lemma fiber_remove_absent (fid : nat) (fs : list VisFiber) :
  fid ∉ (fiber_id <$> fs) -> fiber_remove fid fs = fs.
Proof.
  unfold fiber_remove. induction fs as [| f fs IH]; [reflexivity |].
  rewrite fmap_cons. intros [Hne Hfs]%not_elem_of_cons. simpl.
  rewrite bool_decide_eq_false_2 by congruence. simpl. now rewrite (IH Hfs).
Qed.

Lemma fiber_lookup_Some (fid : nat) (fs : list VisFiber) (f : VisFiber) :
  fiber_lookup fid fs = Some f -> f ∈ fs /\ fiber_id f = fid.
Proof.
  unfold fiber_lookup. intros [Hin Hid]%find_some.
  split; [now apply list_elem_of_In | now apply bool_decide_eq_true in Hid].
Qed.

Lemma fiber_lookup_cons (fid : nat) (g : VisFiber) (fs : list VisFiber) :
  fiber_lookup fid (g :: fs) =
    if decide (fiber_id g = fid) then Some g else fiber_lookup fid fs.
Proof.
  unfold fiber_lookup. simpl.
  destruct (decide (fiber_id g = fid)).
  - now rewrite bool_decide_eq_true_2.
  - now rewrite bool_decide_eq_false_2.
Qed.

(** Moving one fiber to another program point changes a count by that
    fiber alone. *)
Lemma count_pc_goto (P : Pc -> bool) (fid : nat) (p : Pc)
    (fs : list VisFiber) (f : VisFiber) :
  NoDup (fiber_id <$> fs) -> fiber_lookup fid fs = Some f ->
  count_pc P (fiber_update fid (with_pc p) fs) + Nat.b2n (P (pc f))
  = count_pc P fs + Nat.b2n (P p).
Proof.
  induction fs as [| g fs IH]; [discriminate |].
  rewrite fmap_cons, fiber_lookup_cons.
  intros [Hg Hnd]%NoDup_cons Hlook.
  destruct (decide (fiber_id g = fid)) as [Hid | Hid].
  - injection Hlook as <-. subst fid.
    unfold fiber_update. rewrite fmap_cons, decide_True by reflexivity.
    fold (fiber_update (fiber_id g) (with_pc p) fs).
    rewrite (fiber_update_absent _ _ _ Hg), !count_pc_cons. simpl. lia.
  - unfold fiber_update. rewrite fmap_cons, decide_False by exact Hid.
    fold (fiber_update fid (with_pc p) fs).
    rewrite !count_pc_cons. specialize (IH Hnd Hlook). lia.
Qed.

Lemma count_pc_remove (P : Pc -> bool) (fid : nat)
    (fs : list VisFiber) (f : VisFiber) :
  NoDup (fiber_id <$> fs) -> fiber_lookup fid fs = Some f ->
  count_pc P (fiber_remove fid fs) + Nat.b2n (P (pc f)) = count_pc P fs.
Proof.
  induction fs as [| g fs IH]; [discriminate |].
  rewrite fmap_cons, fiber_lookup_cons.
  intros [Hg Hnd]%NoDup_cons Hlook.
  destruct (decide (fiber_id g = fid)) as [Hid | Hid].
  - injection Hlook as <-. subst fid.
    unfold fiber_remove. simpl. rewrite bool_decide_eq_true_2 by reflexivity. simpl.
    fold (fiber_remove (fiber_id g) fs).
    rewrite (fiber_remove_absent _ _ Hg), count_pc_cons. lia.
  - unfold fiber_remove. simpl. rewrite bool_decide_eq_false_2 by exact Hid. simpl.
    fold (fiber_remove fid fs).
    rewrite !count_pc_cons. specialize (IH Hnd Hlook). lia.
Qed.

Lemma count_pc_requeue (P : Pc -> bool) (fid : nat) (upd : VisFiber -> VisFiber)
    (fs : list VisFiber) :
  (forall f, pc (upd f) = pc f) ->
  count_pc P (fiber_update fid upd fs) = count_pc P fs.
Proof.
  intros Hpc. unfold fiber_update. induction fs as [| g fs IH]; [reflexivity |].
  rewrite fmap_cons, !count_pc_cons, IH.
  destruct (decide (fiber_id g = fid)); [now rewrite Hpc | reflexivity].
Qed.

Lemma fiber_remove_elem (fid : nat) (fs : list VisFiber) (g : VisFiber) :
  g ∈ fiber_remove fid fs -> g ∈ fs.
Proof.
  unfold fiber_remove. rewrite !list_elem_of_In, filter_In. tauto.
Qed.

Lemma fiber_remove_NoDup (fid : nat) (fs : list VisFiber) :
  NoDup (fiber_id <$> fs) -> NoDup (fiber_id <$> fiber_remove fid fs).
Proof.
  induction fs as [| g fs IH]; [trivial |].
  rewrite fmap_cons. intros [Hg Hnd]%NoDup_cons.
  unfold fiber_remove. simpl. fold (fiber_remove fid fs).
  destruct (negb _); [| exact (IH Hnd)].
  rewrite fmap_cons. apply NoDup_cons. split; [| exact (IH Hnd)].
  intros (g' & Hid & Hin)%list_elem_of_fmap. apply Hg.
  apply list_elem_of_fmap. exists g'. split; [exact Hid |].
  exact (fiber_remove_elem _ _ _ Hin).
Qed.

Lemma fiber_lookup_requeue (fid fid' : nat) (upd : VisFiber -> VisFiber)
    (fs : list VisFiber) :
  (forall f, fiber_id (upd f) = fiber_id f) ->
  fiber_lookup fid (fiber_update fid' upd fs)
  = (fun f => if decide (fiber_id f = fid') then upd f else f) <$> fiber_lookup fid fs.
Proof.
  intros Hid. unfold fiber_update. induction fs as [| g fs IH]; [reflexivity |].
  rewrite fmap_cons, !fiber_lookup_cons.
  destruct (decide (fiber_id g = fid')) as [Hg | Hg].
  - rewrite Hid. destruct (decide (fiber_id g = fid)); [| exact IH].
    simpl. now rewrite decide_True.
  - destruct (decide (fiber_id g = fid)); [| exact IH].
    simpl. now rewrite decide_False.
Qed.

Lemma fiber_lookup_app_l (fid : nat) (fs new : list VisFiber) (f : VisFiber) :
  fiber_lookup fid fs = Some f -> fiber_lookup fid (fs ++ new) = Some f.
Proof.
  induction fs as [| g fs IH]; [discriminate |].
  rewrite <- app_comm_cons, !fiber_lookup_cons.
  destruct (decide (fiber_id g = fid)); [trivial | exact IH].
Qed.

(** ** What every run maintains *)

Lemma count_obs_cons (P : Obs -> bool) (o : Obs) (h : list Obs) :
  count_obs P (o :: h) = Nat.b2n (P o) + count_obs P h.
Proof. apply filter_length_cons. Qed.

Lemma fiber_exists_counter (fs : list VisFiber) (c fid : nat) (f : VisFiber) :
  Forall (fun f => 1 <= fiber_id f <= c) fs ->
  fiber_lookup fid fs = Some f -> 0 < c.
Proof.
  intros Hids [Hin _]%fiber_lookup_Some.
  rewrite Forall_forall in Hids. specialize (Hids f Hin). lia.
Qed.

Lemma scope_log_of_Applied (n : string) (outs : list (string * value)) (h : list Obs) :
  scope_log_of (Applied n outs :: h) = (scope_log_of h ++ [(n, outs)])%list.
Proof. reflexivity. Qed.

Lemma scope_log_of_ScopeSet (n p : string) (v : value) (h : list Obs) :
  scope_log_of (ScopeSet n p v :: h) = (scope_log_of h ++ [(n, [(p, v)])])%list.
Proof. reflexivity. Qed.

Lemma replay_snoc (log : list (string * list (string * value)))
    (entry : string * list (string * value)) (sc0 : gmap string value) :
  replay (log ++ [entry]) sc0 =
    foldl (fun s e => scope_set entry.1 e.1 e.2 s) (replay log sc0) entry.2.
Proof. unfold replay. now rewrite foldl_app. Qed.

Section Moves.
Variable sc0 : gmap string value.
Variables (fs : list VisFiber) (c : nat) (h : list Obs) (cc : gmap string nat).
Variables (st : RunnerStatus) (sg : VisExecutionSignal).
Variables (cp : option bool) (rc : bool) (sc : gmap string value).
Hypothesis HI : InvC sc0 fs c h cc st sg cp rc sc.

(** One fiber moves to program point [p]; history, counts, status,
    signal, promise and resolver may change with it. *)
Lemma InvC_move (fid : nat) (f : VisFiber) (p : Pc)
    (h' : list Obs) (cc' : gmap string nat) (st' : RunnerStatus)
    (sg' : VisExecutionSignal) (cp' : option bool) (rc' : bool) :
  fiber_lookup fid fs = Some f ->
  (forall n,
     default 0 (cc' !! n) + Nat.b2n (is_processing n p)
       + count_obs (is_throw_of n) h' + count_obs (is_invocation_of n) h
     = default 0 (cc !! n) + Nat.b2n (is_processing n (pc f))
       + count_obs (is_throw_of n) h + count_obs (is_invocation_of n) h') ->
  count_obs is_body_throw h' + count_obs is_fiber_error h
    + Nat.b2n (is_rejected (pc f))
  = count_obs is_body_throw h + count_obs is_fiber_error h'
    + Nat.b2n (is_rejected p) ->
  (0 < count_obs is_fiber_error h' -> st' = Failed /\ cancelled sg' = true) ->
  st' <> Idle ->
  (cp' = Some true \/ rc' = true) ->
  scope_log_of h' = scope_log_of h ->
  InvC sc0 (fiber_update fid (with_pc p) fs) c h' cc' st' sg' cp' rc' sc.
Proof.
  intros Hlook Hcounts Hrej Hfail Hidle Hres Happ.
  destruct HI as [Hnd Hids Hc Hr Hf Hi Hrs Hst Hsc Hts].
  split.
  - now rewrite fiber_update_ids.
  - unfold fiber_update. apply Forall_fmap. eapply Forall_impl; [exact Hids |].
    intros g Hg. simpl. now destruct (decide (fiber_id g = fid)).
  - intros n. specialize (Hcounts n). specialize (Hc n).
    pose proof (count_pc_goto (is_processing n) fid p fs f Hnd Hlook). lia.
  - pose proof (count_pc_goto is_rejected fid p fs f Hnd Hlook). lia.
  - exact Hfail.
  - intros Hst'. contradiction.
  - intros _. exact Hres.
  - intros _ Hnil. apply fiber_lookup_Some in Hlook as [Hin _].
    unfold fiber_update in Hnil. apply fmap_nil_inv in Hnil. subst fs.
    now apply elem_of_nil in Hin.
  - now rewrite Happ.
  - intros _. exact (fiber_exists_counter _ _ _ _ Hids Hlook).
Qed.

(** A fiber's queue changes. *)
Lemma InvC_requeue (fid : nat) (upd : VisFiber -> VisFiber) :
  (forall f, fiber_id (upd f) = fiber_id f) ->
  (forall f, pc (upd f) = pc f) ->
  InvC sc0 (fiber_update fid upd fs) c h cc st sg cp rc sc.
Proof.
  intros Hid Hpc.
  destruct HI as [Hnd Hids Hc Hr Hf Hi Hrs Hst Hsc Hts].
  split; try assumption.
  - now rewrite fiber_update_ids.
  - unfold fiber_update. apply Forall_fmap. eapply Forall_impl; [exact Hids |].
    intros g Hg. simpl. destruct (decide (fiber_id g = fid)); [now rewrite Hid | exact Hg].
  - intros n. rewrite count_pc_requeue by exact Hpc. apply Hc.
  - rewrite count_pc_requeue by exact Hpc. exact Hr.
  - intros Hc0 Hnil. apply Hst; [exact Hc0 |].
    unfold fiber_update in Hnil. now apply fmap_nil_inv in Hnil.
Qed.

(** New fibers join, numbered from the counter on. *)
Lemma InvC_spawn (new : list VisFiber) :
  fiber_id <$> new = seq (S c) (length new) ->
  Forall (fun f => pc f = AtLoop) new ->
  (new <> [] -> st <> Idle /\ (cp = Some true \/ rc = true)) ->
  InvC sc0 (fs ++ new) (c + length new) h cc st sg cp rc sc.
Proof.
  intros Hids' Hpcs Hguard.
  destruct HI as [Hnd Hids Hc Hr Hf Hi Hrs Hst Hsc Hts].
  split; try assumption.
  - rewrite fmap_app. apply NoDup_app. split; [exact Hnd | split].
    + intros i Hi1 Hi2. rewrite Hids' in Hi2.
      apply elem_of_seq in Hi2.
      apply list_elem_of_fmap in Hi1 as (g & -> & Hg).
      rewrite Forall_forall in Hids. specialize (Hids g Hg). lia.
    + rewrite Hids'. apply NoDup_seq.
  - apply Forall_app. split.
    + eapply Forall_impl; [exact Hids |]. intros g Hg. simpl in *. lia.
    + apply Forall_forall. intros g Hg.
      assert (Hin : fiber_id g ∈ (fiber_id <$> new))
        by (apply list_elem_of_fmap; eauto).
      rewrite Hids' in Hin. apply elem_of_seq in Hin. lia.
  - intros n. rewrite count_pc_app, (count_pc_fresh _ new); [| reflexivity | exact Hpcs].
    rewrite Nat.add_0_r. apply Hc.
  - rewrite count_pc_app, (count_pc_fresh _ new); [| reflexivity | exact Hpcs].
    now rewrite Nat.add_0_r.
  - intros Hst'. destruct new as [| g new']; [simpl; rewrite Nat.add_0_r; auto |].
    now destruct Hguard as [Hne _].
  - intros Hc'. destruct new as [| g new'].
    + simpl in Hc'. rewrite Nat.add_0_r in Hc'. auto.
    + now destruct Hguard as [_ Hok].
  - intros Hc' Hnil. apply app_eq_nil in Hnil as [-> ->].
    simpl in Hc'. rewrite Nat.add_0_r in Hc'. now apply Hst.
  - intros Hb. specialize (Hts Hb). lia.
Qed.

(** The outputs of a node are applied. *)
Lemma InvC_apply (n : string) (outs : list (string * value)) :
  InvC sc0 fs c (Applied n outs :: h) cc st sg cp rc
    (foldl (fun s e => scope_set n e.1 e.2 s) sc outs).
Proof.
  destruct HI as [Hnd Hids Hc Hr Hf Hi Hrs Hst Hsc Hts].
  split; [exact Hnd | exact Hids | exact Hc | exact Hr | exact Hf
         | exact Hi | exact Hrs | exact Hst | | exact Hts].
  rewrite scope_log_of_Applied, replay_snoc, <- Hsc. reflexivity.
Qed.

(** The scope is written from outside the runner. *)
Lemma InvC_write (n p : string) (v : value) :
  InvC sc0 fs c (ScopeSet n p v :: h) cc st sg cp rc (scope_set n p v sc).
Proof.
  destruct HI as [Hnd Hids Hc Hr Hf Hi Hrs Hst Hsc Hts].
  split; [exact Hnd | exact Hids | exact Hc | exact Hr | exact Hf
         | exact Hi | exact Hrs | exact Hst | | exact Hts].
  rewrite scope_log_of_ScopeSet, replay_snoc, <- Hsc. reflexivity.
Qed.

(** Status, signal, promise and resolver change. *)
Lemma InvC_control (st' : RunnerStatus) (sg' : VisExecutionSignal)
    (cp' : option bool) (rc' : bool) :
  (0 < count_obs is_fiber_error h -> st' = Failed /\ cancelled sg' = true) ->
  (st' = Idle -> c = 0) ->
  (0 < c -> cp' = Some true \/ rc' = true) ->
  (0 < c -> fs = [] -> cp' = Some true) ->
  InvC sc0 fs c h cc st' sg' cp' rc' sc.
Proof.
  intros H1 H2 H3 H4.
  destruct HI as [Hnd Hids Hc Hr Hf Hi Hrs Hst Hsc Hts].
  split; assumption.
Qed.

End Moves.

#[local] Arguments count_obs : simpl never.
#[local] Arguments count_pc : simpl never.
#[local] Arguments fiber_update : simpl never.
#[local] Arguments fiber_lookup : simpl never.
#[local] Arguments fiber_remove : simpl never.
#[local] Arguments scope_log_of : simpl never.
#[local] Arguments replay : simpl never.
#[local] Arguments _spawnFiber : simpl never.
#[local] Arguments _resolveEntityId : simpl never.

Lemma Inv_core (sc0 : gmap string value) (r r' : State) :
  core r' = core r -> Inv sc0 r -> Inv sc0 r'.
Proof. unfold core, Inv. intros [= -> -> -> -> -> -> -> -> ->]. trivial. Qed.

Lemma core_fibers (r r' : State) : core r' = core r -> _fibers r' = _fibers r.
Proof. unfold core. now intros [= -> _]. Qed.

Lemma Ready_core (sc0 : gmap string value) (fid : nat) (p : Pc) (r r' : State) :
  core r' = core r -> Ready sc0 fid p r -> Ready sc0 fid p r'.
Proof.
  intros Hc [HI Hf]. split; [exact (Inv_core _ _ _ Hc HI) |].
  now rewrite (core_fibers _ _ Hc).
Qed.

Lemma Ready_guard (sc0 : gmap string value) (fid : nat) (p : Pc) (r : State) :
  Ready sc0 fid p r ->
  _status r <> Idle /\ (_completionPromise r = Some true \/ _resolveCompletion r = true).
Proof.
  intros [HI (f & Hf & _)].
  pose proof (fiber_exists_counter _ _ _ _ (inv_ids _ _ _ _ _ _ _ _ _ _ HI) Hf) as Hc.
  split.
  - intros Hidle. apply (inv_idle _ _ _ _ _ _ _ _ _ _ HI) in Hidle. lia.
  - exact (inv_resolver _ _ _ _ _ _ _ _ _ _ HI Hc).
Qed.

(** *** Waiting leaves these fields alone *)

Lemma waitForNode_core (n : string) (next : bool) (r : State) :
  core (_waitForNode n next r).2 = core r.
Proof.
  unfold _waitForNode. repeat case_match; simpl; try reflexivity;
    unfold add_waiter; now destruct r.
Qed.

Lemma waitForNodes_core (ids : list string) (next : bool) (ps : list nat) (r : State) :
  core (_waitForNodes ids next ps r).2 = core r.
Proof.
  revert ps r. induction ids as [| id ids IH]; intros ps r; simpl; [reflexivity |].
  destruct (getNode (_graph r) id); [| reflexivity].
  pose proof (waitForNode_core id next r) as Hw.
  destruct (_waitForNode id next r) as [[p |] r']; simpl in Hw; now rewrite IH.
Qed.

Lemma resolveAllWaiters_core (r : State) : core (_resolveAllWaiters r) = core r.
Proof. unfold _resolveAllWaiters. now destruct r. Qed.

(** *** Spawning *)

Lemma Spawned_refl (r : State) : Spawned r r.
Proof.
  exists []. split; [| split; [reflexivity | constructor]].
  destruct r; simpl. now rewrite app_nil_r, Nat.add_0_r.
Qed.

Lemma Spawned_trans (r1 r2 r3 : State) :
  Spawned r1 r2 -> Spawned r2 r3 -> Spawned r1 r3.
Proof.
  intros (n1 & -> & Hid1 & Hpc1) (n2 & -> & Hid2 & Hpc2).
  exists (n1 ++ n2)%list. destruct r1; simpl in *.
  split; [| split].
  - now rewrite length_app, <- app_assoc, Nat.add_assoc.
  - rewrite fmap_app, length_app, seq_app, Hid1, Hid2. reflexivity.
  - now apply Forall_app.
Qed.

Lemma spawnFiber_Spawned (n e : string) (r : State) :
  Spawned r (_spawnFiber n e r).2.
Proof.
  unfold _spawnFiber. destruct r; simpl. eexists [_]. split; [| split].
  - simpl. now rewrite Nat.add_1_r.
  - reflexivity.
  - now constructor.
Qed.

Lemma spawn_targets_cons (t : string) (ts : list string) (e : string)
    (awaited : bool) (ps : list nat) (r : State) :
  spawn_targets (t :: ts) e awaited ps r =
    match _resolveEntityId t e r with
    | Throw err => (Throw err, r)
    | Ok entityId =>
        spawn_targets ts e awaited
          (if awaited then (ps ++ [(_spawnFiber t entityId r).1])%list else ps)
          (_spawnFiber t entityId r).2
    end.
Proof. reflexivity. Qed.

Lemma spawn_targets_Spawned (targets : list string) (e : string) (awaited : bool)
    (ps : list nat) (r : State) :
  Spawned r (spawn_targets targets e awaited ps r).2.
Proof.
  revert ps r. induction targets as [| t ts IH]; intros ps r.
  - apply Spawned_refl.
  - rewrite spawn_targets_cons.
    destruct (_resolveEntityId t e r); [| apply Spawned_refl].
    eapply Spawned_trans; [apply spawnFiber_Spawned | apply IH].
Qed.

Lemma route_each_Spawned (ts : list VisFlowTransition) (node : VisGraphNode)
    (e : string) (pending : list VisScheduledNode) (ps : list nat) (r : State) :
  Spawned r (route_each ts node e pending ps r).2.
Proof.
  revert pending ps r. induction ts as [| t ts IH]; intros pending ps r; simpl.
  - apply Spawned_refl.
  - destruct (strategy t) as [[|] |].
    + destruct (enqueue_targets _ _ _ _); simpl; [apply IH | apply Spawned_refl].
    + pose proof (spawn_targets_Spawned
                    (getNext (_graph r) (gn_id node) (Node.pinId t)) e
                    (match awaitCompletion t with Some false => false | _ => true end)
                    ps r) as Hs.
      destruct (spawn_targets _ _ _ _ _) as [[ps' | err] r']; simpl in *.
      * eapply Spawned_trans; [exact Hs | apply IH].
      * exact Hs.
    + destruct (enqueue_targets _ _ _ _); simpl; [apply IH | apply Spawned_refl].
Qed.

Lemma spawn_roots_Spawned (rs : list string) (r : State) :
  Spawned r (spawn_roots rs r).2.
Proof.
  revert r. induction rs as [| root rs IH]; intros r; simpl.
  - apply Spawned_refl.
  - destruct (_resolveEntityId root _ r); simpl; [| apply Spawned_refl].
    eapply Spawned_trans; [apply spawnFiber_Spawned | apply IH].
Qed.

Lemma Inv_Spawned (sc0 : gmap string value) (r r' : State) :
  Inv sc0 r ->
  _status r <> Idle /\ (_completionPromise r = Some true \/ _resolveCompletion r = true) ->
  Spawned r r' -> Inv sc0 r'.
Proof.
  intros HI Hguard (new & -> & Hids & Hpcs).
  unfold Inv in *. destruct r; simpl in *.
  apply InvC_spawn; auto.
Qed.

Lemma Ready_Spawned (sc0 : gmap string value) (fid : nat) (p : Pc) (r r' : State) :
  Ready sc0 fid p r -> Spawned r r' -> Ready sc0 fid p r'.
Proof.
  intros HR Hs. pose proof (Ready_guard _ _ _ _ HR) as Hguard.
  destruct HR as [HI (f & Hf & Hp)].
  split; [exact (Inv_Spawned _ _ _ HI Hguard Hs) |].
  destruct Hs as (new & -> & _). exists f. split; [| exact Hp].
  destruct r; simpl in *. now apply fiber_lookup_app_l.
Qed.

Lemma Ready_requeue (sc0 : gmap string value) (fid fid' : nat) (p : Pc)
    (upd : VisFiber -> VisFiber) (r : State) :
  (forall f, fiber_id (upd f) = fiber_id f) ->
  (forall f, pc (upd f) = pc f) ->
  Ready sc0 fid p r ->
  Ready sc0 fid p (set_fibers (fiber_update fid' upd (_fibers r)) r).
Proof.
  intros Hid Hpc [HI (f & Hf & Hp)]. split.
  - unfold Inv in *. destruct r; simpl in *. now apply InvC_requeue.
  - destruct r; simpl in *. rewrite fiber_lookup_requeue, Hf by exact Hid. simpl.
    eexists. split; [reflexivity |]. destruct (decide _); [now rewrite Hpc | exact Hp].
Qed.

Lemma Ready_apply (sc0 : gmap string value) (fid : nat) (p : Pc)
    (n : string) (outs : option (list (string * value))) (r : State) :
  Ready sc0 fid p r -> Ready sc0 fid p (_applyOutputs n outs r).
Proof.
  intros [HI Hf]. destruct outs as [entries |]; [| now split].
  split.
  - unfold Inv in *. destruct r; simpl in *. now apply InvC_apply.
  - now destruct r.
Qed.

Lemma routeTransitions_Ready (sc0 : gmap string value) (p : Pc) (f : VisFiber)
    (node : VisGraphNode) (ts : option (list VisFlowTransition)) (r : State) :
  Ready sc0 (fiber_id f) p r ->
  Ready sc0 (fiber_id f) p (_routeTransitions f node ts r).2.
Proof.
  intros HR. unfold _routeTransitions.
  pose proof (route_each_Spawned (_normalizeTransitions node ts) node
                (fiber_entityId f) [] [] r) as Hs.
  destruct (route_each _ _ _ _ _ _) as [[[pending ps] | err] r']; simpl in *.
  - apply Ready_requeue; [reflexivity | reflexivity |].
    exact (Ready_Spawned _ _ _ _ _ HR Hs).
  - exact (Ready_Spawned _ _ _ _ _ HR Hs).
Qed.

(** *** The turns of a fiber *)

Ltac count_side :=
  intros; rewrite ?count_obs_cons; unfold is_processing; simpl;
  rewrite ?lookup_insert;
  repeat case_bool_decide; repeat case_decide; simplify_eq; simpl; try lia.

Lemma Inv_goto_neutral (sc0 : gmap string value) (fid : nat) (p q : Pc) (r : State) :
  Ready sc0 fid p r ->
  processing q = processing p -> is_rejected q = is_rejected p ->
  Inv sc0 (goto fid q r).
Proof.
  intros HR Hproc Hrej. destruct (Ready_guard _ _ _ _ HR) as [Hidle Hres].
  destruct HR as [HI (f & Hf & <-)]. unfold Inv, goto in *.
  destruct r; simpl in *.
  eapply InvC_move; try eassumption; try reflexivity.
  - intros n. unfold is_processing. rewrite Hproc. lia.
  - rewrite Hrej. lia.
  - exact (inv_failed _ _ _ _ _ _ _ _ _ _ HI).
Qed.

Lemma Inv_invoke (sc0 : gmap string value) (fid : nat) (node : VisGraphNode)
    (ctx : VisNodeExecutionContext) (ff : bool) (r : State) :
  Ready sc0 fid AtLoop r ->
  Inv sc0 (goto fid (AwaitInvoke node ctx ff) (observe (Invoked (gn_id node) ff) r)).
Proof.
  intros HR. destruct (Ready_guard _ _ _ _ HR) as [Hidle Hres].
  destruct HR as [HI (f & Hf & Hp)]. unfold Inv, goto in *.
  destruct r; simpl in *.
  eapply InvC_move; try eassumption; try reflexivity.
  - rewrite Hp. count_side.
  - rewrite Hp. count_side.
  - rewrite count_obs_cons. simpl. exact (inv_failed _ _ _ _ _ _ _ _ _ _ HI).
Qed.

Lemma Inv_reject_loop (sc0 : gmap string value) (fid : nat) (e : string) (r : State) :
  Ready sc0 fid AtLoop r -> Inv sc0 (reject fid e r).
Proof.
  intros HR. destruct (Ready_guard _ _ _ _ HR) as [Hidle Hres].
  destruct HR as [HI (f & Hf & Hp)]. unfold Inv, reject, goto in *.
  destruct r; simpl in *.
  eapply InvC_move; try eassumption; try reflexivity.
  - rewrite Hp. count_side.
  - rewrite Hp. count_side.
  - rewrite count_obs_cons. simpl. exact (inv_failed _ _ _ _ _ _ _ _ _ _ HI).
Qed.

Lemma Inv_reject_invoke (sc0 : gmap string value) (fid : nat) (node : VisGraphNode)
    (ctx : VisNodeExecutionContext) (ff : bool) (e : string) (r : State) :
  Ready sc0 fid (AwaitInvoke node ctx ff) r ->
  Inv sc0 (reject fid e (observe (InvokeThrew (gn_id node)) r)).
Proof.
  intros HR. destruct (Ready_guard _ _ _ _ HR) as [Hidle Hres].
  destruct HR as [HI (f & Hf & Hp)]. unfold Inv, reject, goto in *.
  destruct r; simpl in *.
  eapply InvC_move; try eassumption; try reflexivity.
  - rewrite Hp. count_side.
  - rewrite Hp. count_side.
  - rewrite !count_obs_cons. simpl. exact (inv_failed _ _ _ _ _ _ _ _ _ _ HI).
Qed.

Lemma mark_frame (n : string) (r : State) :
  exists ws rp,
    _markNodeCompleted n r =
      set_waiters ws (set_resolvedPromises rp
        (set_completionCounts (<[n := completed_of r n + 1]> (_completionCounts r)) r)).
Proof.
  unfold _markNodeCompleted, completed_of. destruct r; simpl.
  repeat case_match; simpl; eexists _, _; reflexivity.
Qed.

Lemma Inv_mark_goto (sc0 : gmap string value) (fid : nat) (p q : Pc)
    (n : string) (r : State) :
  Ready sc0 fid p r ->
  processing p = Some n -> processing q = None -> is_rejected q = false ->
  Inv sc0 (goto fid q (_markNodeCompleted n r)).
Proof.
  intros HR Hp Hq Hrej. destruct (Ready_guard _ _ _ _ HR) as [Hidle Hres].
  destruct HR as [HI (f & Hf & <-)].
  destruct (mark_frame n r) as (ws & rp & ->).
  unfold Inv, goto, completed_of in *. destruct r; simpl in *.
  eapply InvC_move; try eassumption; try reflexivity.
  - intros m. unfold is_processing. rewrite Hp, Hq. count_side.
  - rewrite Hrej. destruct (pc f); simpl in *; try discriminate; lia.
  - exact (inv_failed _ _ _ _ _ _ _ _ _ _ HI).
Qed.

Lemma Inv_mark_reject (sc0 : gmap string value) (fid : nat) (p : Pc)
    (n e : string) (r : State) :
  Ready sc0 fid p r -> processing p = Some n ->
  Inv sc0 (reject fid e (_markNodeCompleted n r)).
Proof.
  intros HR Hp. destruct (Ready_guard _ _ _ _ HR) as [Hidle Hres].
  destruct HR as [HI (f & Hf & <-)].
  destruct (mark_frame n r) as (ws & rp & ->).
  unfold Inv, reject, goto, completed_of in *. destruct r; simpl in *.
  eapply InvC_move; try eassumption; try reflexivity.
  - intros m. unfold is_processing. rewrite Hp. count_side.
  - rewrite !count_obs_cons. destruct (pc f); simpl in *; try discriminate; lia.
  - rewrite count_obs_cons. simpl. exact (inv_failed _ _ _ _ _ _ _ _ _ _ HI).
Qed.

Lemma Inv_catch (sc0 : gmap string value) (fid : nat) (e : string) (r : State) :
  Ready sc0 fid (Rejected e) r -> Inv sc0 (on_catch fid e r).
Proof.
  intros HR. destruct (Ready_guard _ _ _ _ HR) as [Hidle Hres].
  destruct HR as [HI (f & Hf & Hp)].
  unfold Inv, on_catch, goto, signal_cancel, _resolveAllWaiters in *.
  destruct r; simpl in *.
  destruct (cancelled _signal0) eqn:Hc; simpl;
    (eapply InvC_move; try eassumption; try reflexivity;
      [ rewrite Hp; count_side | rewrite Hp; count_side | auto | discriminate ]).
Qed.

Section Removal.
Variable sc0 : gmap string value.
Variables (fs : list VisFiber) (c : nat) (h : list Obs) (cc : gmap string nat).
Variables (st : RunnerStatus) (sg : VisExecutionSignal).
Variables (cp : option bool) (rc : bool) (sc : gmap string value).
Hypothesis HI : InvC sc0 fs c h cc st sg cp rc sc.

(** A settled fiber leaves the set. *)
Lemma InvC_remove (fid : nat) (f : VisFiber)
    (st' : RunnerStatus) (cp' : option bool) (rc' : bool) :
  fiber_lookup fid fs = Some f ->
  processing (pc f) = None -> is_rejected (pc f) = false ->
  (0 < count_obs is_fiber_error h -> st' = Failed) ->
  st' <> Idle ->
  (cp' = Some true \/ rc' = true) ->
  (fiber_remove fid fs = [] -> cp' = Some true) ->
  InvC sc0 (fiber_remove fid fs) c h cc st' sg cp' rc' sc.
Proof.
  intros Hlook Hproc Hrej Hfail Hidle Hres Hset.
  destruct HI as [Hnd Hids Hc Hr Hf Hi Hrs Hst Hsc Hts].
  split.
  - now apply fiber_remove_NoDup.
  - apply Forall_forall. intros g Hg%fiber_remove_elem.
    rewrite Forall_forall in Hids. exact (Hids g Hg).
  - intros n. specialize (Hc n).
    pose proof (count_pc_remove (is_processing n) fid fs f Hnd Hlook) as Hcount.
    unfold is_processing in Hcount at 2. rewrite Hproc in Hcount.
    rewrite bool_decide_eq_false_2 in Hcount by discriminate. simpl in Hcount. lia.
  - pose proof (count_pc_remove is_rejected fid fs f Hnd Hlook) as Hcount.
    rewrite Hrej in Hcount. simpl in Hcount. lia.
  - intros Herr. split; [exact (Hfail Herr) | exact (proj2 (Hf Herr))].
  - intros Hst'. contradiction.
  - intros _. exact Hres.
  - intros _. exact Hset.
  - exact Hsc.
  - exact Hts.
Qed.
End Removal.

(** *** Lifecycle operations *)

Lemma Inv_finish (sc0 : gmap string value) (state : RunnerStatus) (r : State) :
  Inv sc0 r -> state <> Idle -> Inv sc0 (_finish state r).
Proof.
  intros HI Hstate. unfold Inv, _finish, resolve_completion in *.
  pose proof (inv_failed _ _ _ _ _ _ _ _ _ _ HI) as Hf.
  pose proof (inv_idle _ _ _ _ _ _ _ _ _ _ HI) as Hi.
  pose proof (inv_resolver _ _ _ _ _ _ _ _ _ _ HI) as Hrs.
  pose proof (inv_settled _ _ _ _ _ _ _ _ _ _ HI) as Hst.
  destruct r; simpl in *.
  destruct (is_terminal _status0) eqn:Hterm; destruct _resolveCompletion0; simpl;
    (eapply InvC_control; [exact HI | | | |]); simpl;
    first [ exact Hf | exact Hi | exact Hrs | exact Hst
          | (intros Herr; destruct (Hf Herr) as [-> ?]; discriminate)
          | (intros Hs; contradiction)
          | (intros; left; reflexivity)
          | (intros; reflexivity) ].
Qed.

Lemma Inv_finally (sc0 : gmap string value) (fid : nat) (p : Pc) (r : State) :
  Ready sc0 fid p r -> p = Resolved \/ p = Handled ->
  Inv sc0 (on_finally fid r).
Proof.
  intros HR Hp. destruct (Ready_guard _ _ _ _ HR) as [Hidle Hres].
  destruct HR as [HI (f & Hf & Hpc)].
  assert (Hproc : processing (pc f) = None) by (rewrite Hpc; now destruct Hp as [-> | ->]).
  assert (Hrej : is_rejected (pc f) = false) by (rewrite Hpc; now destruct Hp as [-> | ->]).
  pose proof (inv_failed _ _ _ _ _ _ _ _ _ _ HI) as Hfail.
  unfold Inv, on_finally, _finish, resolve_completion in *.
  destruct r; simpl in *.
  destruct (fiber_remove fid _fibers0) as [| g gs] eqn:Hrem; simpl.
  - destruct (is_terminal _status0) eqn:Hterm; destruct _resolveCompletion0; simpl;
      rewrite <- Hrem;
      (eapply InvC_remove; [exact HI | exact Hf | exact Hproc | exact Hrej | | | |]);
      first [ exact Hidle
            | exact Hres
            | (left; reflexivity)
            | (intros _; reflexivity)
            | (intros _; destruct Hres as [Hres | Hres]; [exact Hres | discriminate Hres])
            | (intros Herr; destruct (Hfail Herr) as [Hst _]; rewrite Hst in *;
               first [reflexivity | discriminate])
            | (repeat case_match; discriminate) ].
  - rewrite <- Hrem.
    eapply InvC_remove; [exact HI | exact Hf | exact Hproc | exact Hrej | | | |];
      auto.
    + intros Herr. now destruct (Hfail Herr).
    + rewrite Hrem. discriminate.
Qed.

Lemma Inv_signal_cancel (sc0 : gmap string value) (why : option string) (r : State) :
  Inv sc0 r -> Inv sc0 (signal_cancel why r).
Proof.
  intros HI. unfold signal_cancel. destruct (cancelled (_signal r)) eqn:Hc; [exact HI |].
  apply (Inv_core _ _ _ (resolveAllWaiters_core _)).
  unfold Inv in *. destruct r; simpl in *.
  eapply InvC_control; [exact HI | | | |]; simpl.
  - intros Herr. now destruct (inv_failed _ _ _ _ _ _ _ _ _ _ HI Herr).
  - exact (inv_idle _ _ _ _ _ _ _ _ _ _ HI).
  - exact (inv_resolver _ _ _ _ _ _ _ _ _ _ HI).
  - exact (inv_settled _ _ _ _ _ _ _ _ _ _ HI).
Qed.

Lemma Inv_signal_requestFastForward (sc0 : gmap string value)
    (why : option string) (r : State) :
  Inv sc0 r -> Inv sc0 (signal_requestFastForward why r).
Proof.
  intros HI. unfold signal_requestFastForward.
  destruct (fastForward (_signal r)); [exact HI |].
  unfold Inv in *. destruct r; simpl in *.
  eapply InvC_control; [exact HI | | | |]; simpl.
  - exact (inv_failed _ _ _ _ _ _ _ _ _ _ HI).
  - exact (inv_idle _ _ _ _ _ _ _ _ _ _ HI).
  - exact (inv_resolver _ _ _ _ _ _ _ _ _ _ HI).
  - exact (inv_settled _ _ _ _ _ _ _ _ _ _ HI).
Qed.

Lemma Inv_cancel (sc0 : gmap string value) (why : option string) (r : State) :
  Inv sc0 r -> Inv sc0 (cancel why r).
Proof.
  intros HI. unfold cancel. destruct (decide (_status r = Cancelled)); [exact HI |].
  pose proof (Inv_signal_cancel _ why _ HI) as HI'.
  destruct (_fibers (signal_cancel why r)); [| exact HI'].
  now apply Inv_finish.
Qed.

Lemma Inv_run (sc0 : gmap string value) (r : State) :
  Inv sc0 r -> Inv sc0 (run r).2.
Proof.
  intros HI. unfold run.
  destruct (bool_decide (_status r = Idle)) eqn:Hidle; simpl; [| exact HI].
  apply bool_decide_eq_true in Hidle.
  set (r1 := set_resolveCompletion true
               (set_completionPromise (Some false) (set_status Running r))).
  assert (HI1 : Inv sc0 r1).
  { pose proof (inv_idle _ _ _ _ _ _ _ _ _ _ HI Hidle) as Hc.
    pose proof (inv_failed _ _ _ _ _ _ _ _ _ _ HI) as Hf.
    unfold Inv, r1 in *. destruct r; simpl in *.
    eapply InvC_control; [exact HI | | | |]; simpl.
    - intros Herr. destruct (Hf Herr) as [Hst _]. congruence.
    - discriminate.
    - auto.
    - lia. }
  assert (Hguard : _status r1 <> Idle
                   /\ (_completionPromise r1 = Some true \/ _resolveCompletion r1 = true)).
  { unfold r1. destruct r; simpl. split; [discriminate | auto]. }
  pose proof (spawn_roots_Spawned (roots (_graph r1)) r1) as Hs.
  pose proof (Inv_Spawned _ _ _ HI1 Hguard Hs) as HI2.
  destruct (spawn_roots (roots (_graph r1)) r1) as [[u | err] r2]; simpl in *;
    [| exact HI2].
  destruct (_fibers r2); simpl; [| exact HI2].
  now apply Inv_finish.
Qed.

(** *** The turns, assembled *)

Lemma Inv_after_wait (sc0 : gmap string value) (f : VisFiber) (p : Pc)
    (node : VisGraphNode) (result : VisNodeExecutionResult) (r : State) :
  Ready sc0 (fiber_id f) p r -> processing p = Some (gn_id node) ->
  Inv sc0 (after_wait f node result r).
Proof.
  intros HR Hp. unfold after_wait.
  pose proof (routeTransitions_Ready _ _ f node (transitions result) _
                (Ready_apply _ _ _ (gn_id node) (outputs result) _ HR)) as HR'.
  destruct (_routeTransitions f node (transitions result) _) as [[children | e] r'];
    simpl in HR'; (eapply Inv_goto_neutral; [exact HR' | | ]);
    destruct p; simpl in *; try discriminate; congruence.
Qed.

Lemma Inv_node_returns (sc0 : gmap string value) (fid : nat)
    (result : VisNodeExecutionResult) (r : State) :
  Inv sc0 r -> Inv sc0 (node_returns fid result r).
Proof.
  intros HI. unfold node_returns.
  destruct (fiber_lookup fid (_fibers r)) as [f |] eqn:Hf; [| exact HI].
  destruct (pc f) as [| node ctx ff | | | | | |] eqn:Hp; try exact HI.
  assert (HR : Ready sc0 fid (AwaitInvoke node ctx ff) r) by (split; eauto).
  assert (Hid : fiber_id f = fid) by (now apply fiber_lookup_Some in Hf).
  destruct (waitFor result) as [[| t ts] |].
  - subst fid. eapply Inv_after_wait; [exact HR | reflexivity].
  - pose proof (waitForNodes_core (t :: ts) (default false (waitForNext result)) [] r) as Hc.
    destruct (_waitForNodes (t :: ts) _ [] r) as [[ps | e] r']; simpl in Hc;
      (eapply Inv_goto_neutral; [exact (Ready_core _ _ _ _ _ Hc HR) | reflexivity | reflexivity]).
  - subst fid. eapply Inv_after_wait; [exact HR | reflexivity].
Qed.

Lemma Inv_node_throws (sc0 : gmap string value) (fid : nat) (e : string) (r : State) :
  Inv sc0 r -> Inv sc0 (node_throws fid e r).
Proof.
  intros HI. unfold node_throws.
  destruct (fiber_lookup fid (_fibers r)) as [f |] eqn:Hf; [| exact HI].
  destruct (pc f) as [| node ctx ff | | | | | |] eqn:Hp; try exact HI.
  eapply Inv_reject_invoke. split; eauto.
Qed.

Lemma Inv_loop_head (sc0 : gmap string value) (f : VisFiber) (r : State) :
  Ready sc0 (fiber_id f) AtLoop r -> Inv sc0 (loop_head f r).
Proof.
  intros HR. unfold loop_head.
  destruct (cancelled (_signal r)).
  { eapply Inv_goto_neutral; [exact HR | reflexivity | reflexivity]. }
  destruct (queue f) as [| scheduled rest].
  { eapply Inv_goto_neutral; [exact HR | reflexivity | reflexivity]. }
  pose proof (Ready_requeue _ _ (fiber_id f) _ (with_queue rest) r
                (fun _ => eq_refl) (fun _ => eq_refl) HR) as HR'.
  set (r' := set_fibers _ r) in *.
  destruct (getNode (_graph r') (sch_nodeId scheduled)) as [node | e];
    [| now apply Inv_reject_loop].
  destruct (buildInputs (_graph r') (gn_id node) (_scope r')) as [ins | e];
    [| now apply Inv_reject_loop].
  now apply Inv_invoke.
Qed.

Lemma Inv_advance (sc0 : gmap string value) (fid : nat) (r : State) :
  Inv sc0 r -> Inv sc0 (advance fid r).
Proof.
  intros HI. unfold advance.
  destruct (fiber_lookup fid (_fibers r)) as [f |] eqn:Hf; [| exact HI].
  assert (Hid : fiber_id f = fid) by (now apply fiber_lookup_Some in Hf).
  assert (HR : Ready sc0 fid (pc f) r) by (split; eauto).
  destruct (pc f) as [| node ctx ff | node result ps | node children | node e | | e |] eqn:Hp.
  - subst fid. now apply Inv_loop_head.
  - exact HI.
  - destruct (forallb _ ps); [| exact HI].
    destruct (cancelled (_signal r)).
    + eapply Inv_mark_goto; [exact HR | reflexivity | reflexivity | reflexivity].
    + subst fid. eapply Inv_after_wait; [exact HR | reflexivity].
  - destruct (forallb _ children); [| exact HI].
    eapply Inv_mark_goto; [exact HR | reflexivity | reflexivity | reflexivity].
  - eapply Inv_mark_reject; [exact HR | reflexivity].
  - eapply Inv_finally; [exact HR | auto].
  - now apply Inv_catch.
  - eapply Inv_finally; [exact HR | auto].
Qed.

Lemma Inv_step (sc0 : gmap string value) (r : State) (e : Event) :
  Inv sc0 r -> Inv sc0 (step r e).
Proof.
  intros HI. destruct e; simpl.
  - now apply Inv_run.
  - now apply Inv_cancel.
  - eapply Inv_core; [| exact HI]. now destruct r.
  - eapply Inv_core; [| exact HI]. now destruct r.
  - now apply Inv_advance.
  - now apply Inv_node_returns.
  - now apply Inv_node_throws.
  - now apply Inv_signal_cancel.
  - now apply Inv_signal_requestFastForward.
  - eapply Inv_core; [| exact HI]. now destruct r.
  - eapply Inv_core; [| exact HI]. now destruct r.
  - unfold Inv, scope_write in *. destruct r; simpl in *. now apply InvC_write.
Qed.

Lemma Inv_new (g : VisGraph) (e : string) (sc0 bb0 : gmap string value) :
  Inv sc0 (new g e sc0 bb0).
Proof.
  unfold Inv, new; simpl. split; simpl; try (intros; lia); try reflexivity.
  - constructor.
  - constructor.
  - unfold count_obs. simpl. intros Herr. lia.
  - unfold count_obs. simpl. intros Herr. lia.
Qed.

Lemma Inv_exec (sc0 : gmap string value) (r : State) (es : list Event) :
  Inv sc0 r -> Inv sc0 (exec r es).
Proof.
  revert r. induction es as [| e es IH]; intros r HI; [exact HI |].
  simpl. apply IH. now apply Inv_step.
Qed.

(** ** Completion counts *)

Lemma node_throws_counts (fid : nat) (err : string) (r : State) :
  _completionCounts (node_throws fid err r) = _completionCounts r.
Proof.
  unfold node_throws, reject, goto.
  destruct (fiber_lookup fid (_fibers r)) as [f |]; [| reflexivity].
  destruct (pc f); try reflexivity. now destruct r.
Qed.

(** C1, as stated, fails: in the run [throwing_run] node [A] was invoked
    once, the run is over, and the completion count of [A] is 0. *)
Lemma completion_count_throw_counterexample :
  _fibers throwing_run = []
  /\ invocations "A" throwing_run = 1
  /\ completed_of throwing_run "A" = 0
  /\ completed_of throwing_run "A" <> invocations "A" throwing_run.
Proof.
  assert (H1 : invocations "A" throwing_run = 1) by (vm_compute; reflexivity).
  assert (H2 : completed_of throwing_run "A" = 0) by (vm_compute; reflexivity).
  split; [vm_compute; reflexivity |].
  split; [exact H1 |]. split; [exact H2 |].
  rewrite H1, H2. discriminate.
Qed.

(** C1, amended.  In every run and for every node [n], the completion
    count of [n], plus the fibers that are processing [n] (invoked, and
    [_markNodeCompleted] not yet reached), plus the invocations of [n] that
    threw, is the number of invocations of [n], fast-forward ones included:
    once no fiber is processing [n], its completion count is the number of
    its invocations that returned a result.  A call of a node that throws
    changes no completion count.  [_markNodeCompleted] increments the count
    of its node by one, leaves the other counts, and resolves every waiter
    of the node whose target count is at most the new count. *)
Theorem completion_count_invocations (g : VisGraph) (e : string)
    (sc0 bb0 : gmap string value) (es : list Event) (n : string) :
  let r := exec (new g e sc0 bb0) es in
  completed_of r n + in_flight n r + thrown_invocations n r = invocations n r
  /\ (in_flight n r = 0 ->
      completed_of r n = invocations n r - thrown_invocations n r)
  /\ (forall (r' : State) (fid : nat) (err : string),
        _completionCounts (node_throws fid err r') = _completionCounts r')
  /\ (forall r' : State,
        completed_of (_markNodeCompleted n r') n = completed_of r' n + 1
        /\ (forall m, n <> m ->
              completed_of (_markNodeCompleted n r') m = completed_of r' m)
        /\ (forall ws w,
              _waiters r' !! n = Some ws -> w ∈ ws ->
              targetCount w <= completed_of r' n + 1 ->
              resolve w ∈ resolvedPromises (_markNodeCompleted n r'))).
Proof.
  intros r.
  pose proof (Inv_exec sc0 _ es (Inv_new g e sc0 bb0)) as HI. fold r in HI.
  pose proof (inv_counts _ _ _ _ _ _ _ _ _ _ HI n) as Hc.
  assert (Hcount : completed_of r n + in_flight n r + thrown_invocations n r
                   = invocations n r) by exact Hc.
  split; [exact Hcount |]. split; [lia |].
  split; [intros r' fid err; apply node_throws_counts |].
  intros r'. split; [apply completed_of_mark_eq |].
  split; [intros m Hm; now apply completed_of_mark_ne |].
  intros ws w. apply mark_wakes.
Qed.

(** ** Failure of a run *)

(** C3.  If the body of some fiber threw during a run then, once the last
    fiber has settled, the status of the runner is [failed], although the
    signal is cancelled, and the completion promise is resolved. *)
Theorem failed_run_is_failed (g : VisGraph) (e : string)
    (sc0 bb0 : gmap string value) (es : list Event) :
  let r := exec (new g e sc0 bb0) es in
  0 < body_throws r -> _fibers r = [] ->
  _status r = Failed
  /\ handle_status HandleOfRunner r <> Cancelled
  /\ cancelled (_signal r) = true
  /\ _completionPromise r = Some true.
Proof.
  intros r Hthrow Hnil.
  pose proof (Inv_exec sc0 _ es (Inv_new g e sc0 bb0)) as HI. fold r in HI.
  pose proof (inv_rejected _ _ _ _ _ _ _ _ _ _ HI) as Hrej.
  rewrite Hnil in Hrej. change (count_pc is_rejected []) with 0 in Hrej.
  assert (Herr : 0 < count_obs is_fiber_error (history r)).
  { unfold body_throws in Hthrow. fold (count_obs is_body_throw (history r)) in Hthrow. lia. }
  destruct (inv_failed _ _ _ _ _ _ _ _ _ _ HI Herr) as [Hst Hcancel].
  assert (Hc : 0 < _fiberCounter r) by exact (inv_spawned _ _ _ _ _ _ _ _ _ _ HI Hthrow).
  split; [exact Hst |].
  split; [unfold handle_status; rewrite Hst; discriminate |].
  split; [exact Hcancel |].
  exact (inv_settled _ _ _ _ _ _ _ _ _ _ HI Hc Hnil).
Qed.

Lemma failed_run_is_failed_witness :
  _status throwing_run = Failed
  /\ handle_status HandleOfRunner throwing_run <> Cancelled
  /\ cancelled (_signal throwing_run) = true
  /\ _completionPromise throwing_run = Some true.
Proof.
  apply (failed_run_is_failed (hydrated demo_registry one_node_asset) "entity" ∅ ∅
           [CallRun; Advance 1; NodeThrows 1 "boom"; Advance 1; Advance 1]).
  - vm_compute. lia.
  - vm_compute. reflexivity.
Defined.

(** ** The scope snapshot *)






(** *** Writes from outside come with their events only *)
























(* ===================================================================== *)
(** * Further properties of the code *)
(* ===================================================================== *)

(** ** Folds that insert by key *)

Lemma last_filter_cons {A : Type} (P : A -> bool) (x : A) (l : list A) :
  last (List.filter P (x :: l)) =
    match last (List.filter P l) with
    | Some y => Some y
    | None => if P x then Some x else None
    end.
Proof.
  simpl. destruct (P x).
  - destruct (List.filter P l) as [| y k]; [reflexivity |].
    rewrite last_cons. now destruct (last (y :: k)).
  - now destruct (last _).
Qed.

(** A fold that inserts the kept elements under their key leaves, under
    each key, the last kept element with that key. *)
Lemma foldl_insert_lookup {A V : Type} (key : A -> string) (val : A -> V)
    (keep : A -> bool) (l : list A) (m : gmap string V) (k : string) :
  foldl (fun m a => if keep a then <[key a := val a]> m else m) m l !! k =
    match last (List.filter (fun a => keep a && bool_decide (key a = k)) l) with
    | Some a => Some (val a)
    | None => m !! k
    end.
Proof.
  revert m. induction l as [| a l IH]; intros m; [reflexivity |].
  cbn [foldl]. rewrite IH, last_filter_cons.
  destruct (last (List.filter _ l)); [reflexivity |].
  destruct (keep a); simpl; [| reflexivity].
  destruct (decide (key a = k)) as [Hk | Hk].
  - rewrite bool_decide_eq_true_2 by exact Hk. rewrite <- Hk. apply lookup_insert_eq.
  - rewrite bool_decide_eq_false_2 by exact Hk. now apply lookup_insert_ne.
Qed.

(** ** Hydration *)

Lemma hydrateNodes_lookup (reg : VisNodeRegistry) (ns : list VisSerializedNode)
    (acc m : gmap string VisGraphNode) (n : string) :
  _hydrateNodes reg ns acc = Ok m ->
  match last_node ns n with
  | Some sn => exists gn, hydrateNode reg sn = Ok gn /\ m !! n = Some gn
  | None => m !! n = acc !! n
  end.
Proof.
  unfold last_node. revert acc.
  induction ns as [| sn ns IH]; intros acc; cbn [_hydrateNodes].
  - now intros [= <-].
  - destruct (hydrateNode reg sn) as [gn |] eqn:Hgn; cbn [mbind Except_bind];
      [| discriminate].
    intros Hm. specialize (IH _ Hm). rewrite last_filter_cons.
    destruct (last (List.filter _ ns)) as [sn' |]; [exact IH |].
    destruct (decide (sn_id sn = n)) as [Hn | Hn].
    + rewrite bool_decide_eq_true_2 by exact Hn. exists gn. split; [exact Hgn |].
      rewrite IH, <- Hn. apply lookup_insert_eq.
    + rewrite bool_decide_eq_false_2 by exact Hn. rewrite IH.
      now apply lookup_insert_ne.
Qed.

(** X1.  On a hydrated graph [getNode(id)] returns the node hydrated from
    the last serialized node of the asset with that id (with its id, type,
    entity and literal inputs), and throws "Missing node" exactly for the
    ids the asset does not contain. *)
Theorem getNode_after_hydration (reg : VisNodeRegistry) (asset : VisGraphAsset)
    (g : VisGraph) (n : string) :
  fromAsset reg asset = Ok g ->
  match last_node (nodes asset) n with
  | Some sn =>
      exists node,
        getNode g n = Ok node /\ hydrateNode reg sn = Ok node
        /\ gn_id node = n /\ gn_type node = sn_type sn
        /\ gn_entityId node = sn_entityId sn
        /\ literalInputs node = default ∅ (sn_inputs sn)
  | None => getNode g n = Throw ("Missing node '" +:+ n +:+ "' in graph.")
  end.
Proof.
  intros Hg. unfold fromAsset in Hg.
  destruct (_hydrateNodes reg (nodes asset) ∅) as [m |] eqn:Hm; simpl in Hg; [| discriminate].
  assert (Hnodes : _nodes g = m) by now injection Hg as <-.
  pose proof (hydrateNodes_lookup _ _ _ _ n Hm) as Hlook.
  destruct (last_node (nodes asset) n) as [sn |] eqn:Hlast.
  - destruct Hlook as (gn & Hgn & Hmn). exists gn.
    unfold getNode. rewrite Hnodes, Hmn.
    assert (Hid : sn_id sn = n).
    { unfold last_node in Hlast. apply last_Some_elem_of in Hlast.
      apply list_elem_of_In, filter_In in Hlast as [_ Hid].
      now apply bool_decide_eq_true in Hid. }
    split; [reflexivity |]. split; [exact Hgn |].
    unfold hydrateNode in Hgn. destruct (reg !! sn_type sn); [| discriminate].
    injection Hgn as <-. simpl. split; [exact Hid |]. repeat split.
  - unfold getNode. rewrite Hnodes, Hlook, lookup_empty. reflexivity.
Qed.

Lemma getNode_after_hydration_witness :
  exists node,
    getNode (hydrated demo_registry demo_asset) "B" = Ok node
    /\ hydrateNode demo_registry
         (getVar_node "B" "b" (Some {[ "x" := VNum 1%float; "y" := VNum 2%float ]}))
       = Ok node
    /\ gn_id node = "B" /\ gn_type node = "vis.control.getVar"
    /\ gn_entityId node = None
    /\ literalInputs node = {[ "x" := VNum 1%float; "y" := VNum 2%float ]}.
Proof.
  apply (getNode_after_hydration demo_registry demo_asset
           (hydrated demo_registry demo_asset) "B").
  vm_compute. reflexivity.
Defined.

Lemma hydrateNodes_outcome (reg : VisNodeRegistry) (ns : list VisSerializedNode)
    (acc : gmap string VisGraphNode) :
  match List.find (unregistered reg) ns with
  | Some sn =>
      _hydrateNodes reg ns acc
      = Throw ("Node type '" +:+ sn_type sn +:+ "' is not registered.")
  | None =>
      exists m, _hydrateNodes reg ns acc = Ok m
                /\ dom m = dom acc ∪ list_to_set (sn_id <$> ns)
  end.
Proof.
  revert acc. induction ns as [| sn ns IH]; intros acc.
  - simpl. exists acc. split; [reflexivity |]. now rewrite union_empty_r_L.
  - cbn [List.find _hydrateNodes]. unfold unregistered at 1, hydrateNode.
    destruct (reg !! sn_type sn) as [def |] eqn:Hdef.
    + rewrite bool_decide_eq_false_2 by discriminate. simpl.
      specialize (IH (<[sn_id sn := {|
        gn_id := sn_id sn; gn_type := sn_type sn; gn_entityId := sn_entityId sn;
        instance := ctor def (sn_id sn)
                      (_applyParameters (parameters def) (default ∅ (sn_params sn)));
        definition := def; literalInputs := default ∅ (sn_inputs sn) |}]> acc)).
      destruct (List.find (unregistered reg) ns); [exact IH |].
      destruct IH as (m & Hm & Hdom). exists m. split; [exact Hm |].
      rewrite Hdom, dom_insert_L. simpl.
      apply set_eq. intros x. rewrite !elem_of_union. tauto.
    + rewrite bool_decide_eq_true_2 by reflexivity. reflexivity.
Qed.

(** X2.  Hydration fails exactly when some node of the asset has a type
    that is not registered, with the error naming the type of the first
    such node; otherwise it returns a graph whose roots are those of
    [_resolveRoots] and whose node ids are the ids of the asset. *)
Theorem fromAsset_outcome (reg : VisNodeRegistry) (asset : VisGraphAsset) :
  match List.find (unregistered reg) (nodes asset) with
  | Some sn =>
      fromAsset reg asset
      = Throw ("Node type '" +:+ sn_type sn +:+ "' is not registered.")
  | None =>
      exists g, fromAsset reg asset = Ok g
                /\ roots g = _resolveRoots asset
                /\ dom (_nodes g) = list_to_set (sn_id <$> nodes asset)
  end.
Proof.
  pose proof (hydrateNodes_outcome reg (nodes asset) ∅) as H.
  unfold fromAsset.
  destruct (List.find (unregistered reg) (nodes asset)) as [sn |].
  - now rewrite H.
  - destruct H as (m & -> & Hdom). simpl. eexists. split; [reflexivity |].
    simpl. split; [reflexivity |].
    now rewrite Hdom, dom_empty_L, union_empty_l_L.
Qed.

Lemma targets_of_snoc (cs : list VisSerializedConnection)
    (c : VisSerializedConnection) (n pin : string) :
  targets_of (cs ++ [c]) n pin =
    (targets_of cs n pin ++
     match kind c with
     | flow => if decide (nodeId (from c) = n /\ pinId (from c) = pin)
               then [nodeId (to c)] else []
     | data => []
     end)%list.
Proof.
  unfold targets_of. rewrite List.filter_app, fmap_app. f_equal. simpl.
  destruct (kind c); [| reflexivity].
  destruct (decide (nodeId (from c) = n /\ pinId (from c) = pin)) as [[Hn Hp] | Hne].
  - now rewrite !bool_decide_eq_true_2.
  - destruct (decide (nodeId (from c) = n)) as [Hn | Hn];
      [| now rewrite (bool_decide_eq_false_2 _ Hn)].
    rewrite (bool_decide_eq_true_2 _ Hn).
    rewrite bool_decide_eq_false_2; [reflexivity |]. intros Hp. now apply Hne.
Qed.

Lemma flowMap_of_connections (cs : list VisSerializedConnection) (n pin : string) :
  default [] (default ∅ (flowMap_of cs !! n) !! pin) = targets_of cs n pin.
Proof.
  revert n pin. induction cs as [| c cs IH] using rev_ind; intros n pin.
  - unfold flowMap_of. simpl. now rewrite lookup_empty.
  - unfold flowMap_of. rewrite foldl_app. simpl. fold (flowMap_of cs).
    rewrite targets_of_snoc.
    destruct (kind c) eqn:Hk.
    + unfold _addFlowConnection.
      destruct (decide (nodeId (from c) = n)) as [Hn | Hn].
      * subst n. rewrite lookup_insert_eq. simpl.
        destruct (decide (pinId (from c) = pin)) as [Hp | Hp].
        -- subst pin. rewrite lookup_insert_eq. simpl.
           rewrite decide_True by (split; reflexivity). now rewrite IH.
        -- rewrite lookup_insert_ne by exact Hp.
           rewrite decide_False by (intros [_ ?]; congruence).
           rewrite app_nil_r. apply IH.
      * rewrite lookup_insert_ne by exact Hn.
        rewrite decide_False by (intros [? _]; congruence).
        rewrite app_nil_r. apply IH.
    + rewrite app_nil_r. apply IH.
Qed.

(** X3.  On a hydrated graph [getNext(id, pin)] is the list of the targets
    of the flow connections out of that pin, in the order of the asset
    (empty when there is none); data connections play no part, and the
    targets are not checked to be nodes of the graph. *)
Theorem getNext_after_hydration (reg : VisNodeRegistry) (asset : VisGraphAsset)
    (g : VisGraph) (n pin : string) :
  fromAsset reg asset = Ok g ->
  getNext g n pin = targets_of (default [] (connections asset)) n pin.
Proof.
  intros Hg. unfold fromAsset in Hg.
  destruct (_hydrateNodes reg (nodes asset) ∅) as [m |]; simpl in Hg; [| discriminate].
  injection Hg as <-. unfold getNext. simpl.
  rewrite <- flowMap_of_connections.
  now destruct (flowMap_of (default [] (connections asset)) !! n).
Qed.

Lemma getNext_after_hydration_witness :
  getNext (hydrated demo_registry demo_asset) "A" "next" = ["B"]
  /\ getNext (hydrated demo_registry demo_asset) "A" "value" = [].
Proof.
  split.
  - apply (getNext_after_hydration demo_registry demo_asset). vm_compute. reflexivity.
  - apply (getNext_after_hydration demo_registry demo_asset). vm_compute. reflexivity.
Defined.

(** X4.  When the asset specifies no root, every computed root is the id
    of a node of the asset, node ids without repetition give roots without
    repetition, and the graph has no root only if the asset has no node. *)
Theorem resolveRoots_are_nodes (i nm : string)
    (ns : list VisSerializedNode) (cs : option (list VisSerializedConnection)) :
  let rs := _resolveRoots {| asset_id := i; asset_name := nm; root := None;
                             nodes := ns; connections := cs |} in
  Forall (fun r => r ∈ (sn_id <$> ns)) rs
  /\ (NoDup (sn_id <$> ns) -> NoDup rs)
  /\ (rs = [] <-> ns = []).
Proof.
  intros rs. unfold _resolveRoots in rs. simpl in rs.
  set (free := filter (fun id => id ∉ incoming_of (default [] cs)) (sn_id <$> ns)) in *.
  assert (Hsub : Forall (fun r => r ∈ (sn_id <$> ns)) free).
  { apply Forall_forall. intros r Hr. unfold free in Hr.
    now apply list_elem_of_filter in Hr as [_ Hr]. }
  assert (Hnd : NoDup (sn_id <$> ns) -> NoDup free).
  { intros H. unfold free. now apply NoDup_filter. }
  destruct free as [| r0 free'] eqn:Hfree.
  - subst rs. destruct ns as [| first rest]; simpl.
    + repeat split; auto; constructor.
    + split; [| split].
      * constructor; [| constructor]. apply list_elem_of_here.
      * intros _. apply NoDup_singleton.
      * split; discriminate.
  - subst rs. split; [exact Hsub | split; [exact Hnd |]].
    split; [discriminate |]. intros ->. simpl in Hfree.
    unfold free in Hfree. discriminate.
Qed.

(** X5.  [_applyParameters] assigns to a property the value
    [values[id] ?? defaultValue] of the last parameter declared for that
    property for which this value is not undefined, and leaves the
    property alone when there is none: a parameter given as null falls
    back to its default, and a null default is assigned. *)
Theorem applyParameters_binding (parameters : list VisParameterMetadata)
    (values : gmap string value) (property : string) :
  _applyParameters parameters values !! property =
    bound_value values <$>
      last (List.filter
              (fun meta => negb (isUndefined (bound_value values meta))
                           && bool_decide (propertyKey meta = property))
              parameters).
Proof.
  unfold _applyParameters.
  transitivity
    (foldl (fun (m : gmap string value) meta =>
              if negb (isUndefined (bound_value values meta))
              then <[propertyKey meta := bound_value values meta]> m else m)
           ∅ parameters !! property).
  - f_equal. generalize (∅ : gmap string value).
    induction parameters as [| meta ps IH]; intros props; [reflexivity |].
    cbn [foldl]. rewrite <- IH. f_equal. unfold bound_value.
    now destruct (isUndefined _).
  - rewrite foldl_insert_lookup, lookup_empty. now destruct (last _).
Qed.

(** ** The graph library and the node registry *)

(** X6.  [getAsset] after [registerMany] returns the last registered asset
    with the id asked for, else what the library held before; [has] tells
    whether [getAsset] returns; and [instantiate] of an unknown id throws
    the error of the library, before any hydration. *)
Theorem library_last_registration_wins (reg : VisNodeRegistry)
    (assets : list VisGraphAsset) (lib : gmap string VisGraphAsset) (id : string) :
  Library.getAsset (Library.registerMany assets lib) id =
    match last (List.filter (fun a => bool_decide (asset_id a = id)) assets) with
    | Some a => Ok a
    | None => Library.getAsset lib id
    end
  /\ Library.has lib id =
       match Library.getAsset lib id with Ok _ => true | Throw _ => false end
  /\ (Library.has lib id = false ->
      Library.instantiate reg lib id
      = Throw ("VisGraphLibrary: graph '" +:+ id +:+ "' is not registered.")).
Proof.
  split; [| split].
  - pose proof (foldl_insert_lookup asset_id (fun a => a) (fun _ => true)
                  assets lib id) as H.
    unfold Library.getAsset, Library.registerMany, Library.register.
    simpl in H. rewrite H. now destruct (last _).
  - unfold Library.has, Library.getAsset.
    destruct (lib !! id) as [a |] eqn:Ha; case_bool_decide as Hs;
      try reflexivity.
    + destruct Hs. eauto.
    + now destruct Hs.
  - unfold Library.has, Library.instantiate, Library.getAsset.
    intros Hhas. apply bool_decide_eq_false_1 in Hhas.
    destruct (lib !! id) as [a |]; [| reflexivity].
    destruct Hhas. eauto.
Qed.

Lemma register_all_frame (ds : list VisNodeDefinition)
    (reg reg' : gmap string VisNodeDefinition) :
  register_all ds reg = Ok reg' ->
  NoDup (def_type <$> ds)
  /\ (forall d, d ∈ ds -> reg !! def_type d = None /\ reg' !! def_type d = Some d)
  /\ (forall t, t ∉ (def_type <$> ds) -> reg' !! t = reg !! t).
Proof.
  revert reg. induction ds as [| d ds IH]; intros reg; cbn [register_all].
  - intros [= <-]. split; [constructor |]. split; [| reflexivity].
    intros d Hd. now apply elem_of_nil in Hd.
  - unfold Registry.register. destruct (reg !! def_type d) eqn:Hd;
      cbn [mbind Except_bind]; intros Hall; [discriminate Hall |].
    destruct (IH _ Hall) as (Hnd & Hin & Hout).
    assert (Hfresh : def_type d ∉ (def_type <$> ds)).
    { intros (d' & Ht & Hd')%list_elem_of_fmap.
      destruct (Hin d' Hd') as [Hnone _]. rewrite <- Ht in Hnone.
      now rewrite lookup_insert_eq in Hnone. }
    split; [| split].
    + rewrite fmap_cons. now apply NoDup_cons.
    + intros d' [-> | Hd']%elem_of_cons.
      * split; [exact Hd |]. rewrite (Hout _ Hfresh), lookup_insert_eq. now destruct d.
      * destruct (Hin d' Hd') as [Hnone Hsome]. split; [| exact Hsome].
        destruct (decide (def_type d = def_type d')) as [Heq | Hne].
        -- rewrite <- Heq in Hnone. now rewrite lookup_insert_eq in Hnone.
        -- now rewrite lookup_insert_ne in Hnone.
    + intros t [Hne Ht]%not_elem_of_cons. rewrite (Hout t Ht).
      apply lookup_insert_ne. congruence.
Qed.

Lemma register_all_succeeds (ds : list VisNodeDefinition)
    (reg : gmap string VisNodeDefinition) :
  NoDup (def_type <$> ds) ->
  (forall d, d ∈ ds -> reg !! def_type d = None) ->
  exists reg', register_all ds reg = Ok reg'.
Proof.
  revert reg. induction ds as [| d ds IH]; intros reg; cbn [register_all].
  - eauto.
  - rewrite fmap_cons. intros [Hd Hnd]%NoDup_cons Hfree.
    unfold Registry.register. rewrite (Hfree d (list_elem_of_here _ _)).
    cbn [mbind Except_bind]. apply IH; [exact Hnd |].
    intros d' Hd'. rewrite lookup_insert_ne.
    + apply Hfree. now apply list_elem_of_further.
    + intros Heq. apply Hd. apply list_elem_of_fmap. eauto.
Qed.

(** X7.  Registering a list of node definitions one after the other
    succeeds exactly when their types are pairwise distinct and none is
    registered already; then [getDefinition] returns each definition under
    its type and is unchanged for the other types.  [register] never
    replaces a definition: it throws "already registered" instead. *)
Theorem registry_registrations (ds : list VisNodeDefinition)
    (reg : gmap string VisNodeDefinition) :
  match register_all ds reg with
  | Ok reg' =>
      NoDup (def_type <$> ds)
      /\ (forall d, d ∈ ds ->
            Registry.getDefinition reg (def_type d) = None
            /\ Registry.getDefinition reg' (def_type d) = Some d)
      /\ (forall t, t ∉ (def_type <$> ds) ->
            Registry.getDefinition reg' t = Registry.getDefinition reg t)
  | Throw _ =>
      ~ (NoDup (def_type <$> ds)
         /\ forall d, d ∈ ds -> Registry.getDefinition reg (def_type d) = None)
  end
  /\ (forall c type out ps params d,
        Registry.getDefinition reg type = Some d ->
        Registry.register c type out ps params reg
        = Throw ("VisNode type '" +:+ type +:+ "' already registered.")).
Proof.
  split.
  - destruct (register_all ds reg) as [reg' | err] eqn:Hall.
    + exact (register_all_frame _ _ _ Hall).
    + intros [Hnd Hfree].
      destruct (register_all_succeeds ds reg Hnd Hfree) as [reg' Hok]. congruence.
  - intros c type out ps params d Hd. unfold Registry.register, Registry.getDefinition in *.
    now rewrite Hd.
Qed.

(** ** Control nodes *)

Import ControlFlow.

(** X8.  The Branch node leaves the shared state alone and returns
    [success] with exactly one sequential transition, on pin [true] or
    [false]: a boolean input decides by itself, a number routes to [true]
    unless it equals 0 (so NaN routes to [true], -0 to [false]), a string
    routes to [true] unless empty, and an input that is absent, null,
    undefined or an object leaves the decision to [defaultCondition]. *)
Theorem branch_decision (n : VisBranchNode) (ctx : VisNodeExecutionContext)
    (st : Store) :
  let decision := branch_reads (prop (inputs ctx) "condition") (defaultCondition n) in
  branch_onExecute n ctx st =
    (Returned {| status := st_success; outputs := None;
                 transitions :=
                   Some [on_pin_with (if decision then "true" else "false")
                                     sequential];
                 waitFor := None; waitForNext := None |}, st)
  /\ branch_reads (VNum PrimFloat.nan) false = true
  /\ branch_reads (VNum (-0)%float) true = false
  /\ branch_reads VNull true = true
  /\ branch_reads VNull false = false.
Proof.
  intros decision. split; [| repeat split].
  unfold branch_onExecute, decision, getInput, coalesce.
  destruct (prop (inputs ctx) "condition") as [| | b | x | s | o]; simpl;
    try reflexivity.
  now destruct s.
Qed.

(** X9.  A Set Variable node with a non-empty key stores the value of its
    input [value] (or its own [valueInput]) under the key, touching neither
    the scope nor the signal, and emits it; a Get Variable node with the
    same key then emits that value, unless it is null or undefined, in
    which case it emits its own default. *)
Theorem set_then_get_variable (key ids idg : string) (vin dflt : value)
    (ctx ctx' : VisNodeExecutionContext) (st : Store) :
  key <> "" ->
  let v := getInput ctx "value" vin in
  let st' := {| scope := scope st;
                blackboard := <[key := v]> (blackboard st);
                signal := signal st |} in
  setvar_onExecute {| setvar_id := ids; setvar_key := key; valueInput := vin |} ctx st
  = (Returned (success (Some [("value", v)])
                       (Some [on_pin_with "next" sequential])), st')
  /\ getvar_onExecute {| getvar_id := idg; getvar_key := key;
                          defaultValue := dflt |} ctx' st'
     = (Returned (success (Some [("value", if isNullish v then dflt else v)])
                          (Some [on_pin_with "next" sequential])), st').
Proof.
  intros Hkey v st'. split.
  - unfold setvar_onExecute. simpl. now rewrite decide_False.
  - unfold getvar_onExecute. simpl. rewrite decide_False by exact Hkey.
    unfold getVariable, bb_get, st'. simpl. rewrite lookup_insert_eq. reflexivity.
Qed.

Lemma set_then_get_variable_witness :
  let v := getInput (ctx_with {[ "value" := VNull ]}) "value" (VNum 1%float) in
  let st' := {| scope := ∅; blackboard := <["k" := v]> ∅; signal := signal_new |} in
  setvar_onExecute {| setvar_id := "S"; setvar_key := "k";
                      valueInput := VNum 1%float |}
    (ctx_with {[ "value" := VNull ]}) empty_store
  = (Returned (success (Some [("value", v)])
                       (Some [on_pin_with "next" sequential])), st')
  /\ getvar_onExecute {| getvar_id := "G"; getvar_key := "k";
                          defaultValue := VStr "d" |} (ctx_with ∅) st'
     = (Returned (success (Some [("value", if isNullish v then VStr "d" else v)])
                          (Some [on_pin_with "next" sequential])), st').
Proof.
  apply (set_then_get_variable "k" "S" "G" (VNum 1%float) (VStr "d")
           (ctx_with {[ "value" := VNull ]}) (ctx_with ∅) empty_store).
  discriminate.
Defined.

(** X10.  Under fast-forward a Loop node returns [skipped] without
    transitions and leaves the blackboard alone, so that its index never
    advances: when the runner calls [onFastForward] itself, whatever the
    signal says, and when the runner calls [execute] while the signal has
    its fast-forward flag set and is not cancelled.  The runner then
    routes the result through the default output of the definition, pin
    [body], sequentially. *)
Theorem loop_under_fastForward `{Coercions} (n : VisLoopNode)
    (node : VisGraphNode) (ctx : VisNodeExecutionContext) (st : Store) :
  instance node = VisLoopNode_instance n ->
  defaultOutput (definition node) = Some "body" ->
  entry_point node true ctx st = (Returned (skipped None), st)
  /\ (cancelled (signal st) = false -> fastForward (signal st) = true ->
      entry_point node false ctx st = (Returned (skipped None), st))
  /\ _normalizeTransitions node (transitions (skipped None))
     = [on_pin_with "body" sequential].
Proof.
  intros Hinst Hout. unfold entry_point, execute. rewrite Hinst.
  split; [reflexivity |]. split.
  - intros Hc Hff. rewrite Hc, Hff. reflexivity.
  - unfold _normalizeTransitions, _defaultTransitions. rewrite Hout. reflexivity.
Qed.

Lemma loop_under_fastForward_witness :
  entry_point loop_graph_node true (ctx_with ∅) empty_store
  = (Returned (skipped None), empty_store)
  /\ (cancelled (signal fast_forward_store) = false ->
      fastForward (signal fast_forward_store) = true ->
      entry_point loop_graph_node false (ctx_with ∅) fast_forward_store
      = (Returned (skipped None), fast_forward_store))
  /\ _normalizeTransitions loop_graph_node (transitions (skipped None))
     = [on_pin_with "body" sequential].
Proof.
  split; [| split].
  - apply (loop_under_fastForward (H := no_coercions)
             {| loop_id := "L"; count := 1%float; loopKey := "loop" |}
             loop_graph_node (ctx_with ∅) empty_store); reflexivity.
  - apply (loop_under_fastForward (H := no_coercions)
             {| loop_id := "L"; count := 1%float; loopKey := "loop" |}
             loop_graph_node (ctx_with ∅) fast_forward_store); reflexivity.
  - apply (loop_under_fastForward (H := no_coercions)
             {| loop_id := "L"; count := 1%float; loopKey := "loop" |}
             loop_graph_node (ctx_with ∅) empty_store); reflexivity.
Defined.

(** ** The scope *)

Lemma app_String (a : Ascii.ascii) (s t : string) :
  String a s +:+ t = String a (s +:+ t).
Proof. reflexivity. Qed.

Lemma app_empty (t : string) : "" +:+ t = t.
Proof. reflexivity. Qed.

Lemma makeScopeKey_inj (n n' p p' : string) :
  no_colon n = true -> no_colon n' = true ->
  makeScopeKey n p = makeScopeKey n' p' -> n = n' /\ p = p'.
Proof.
  unfold makeScopeKey. revert n'.
  induction n as [| a n IH]; intros [| b n']; cbn [no_colon];
    rewrite ?app_String, ?app_empty; intros Hn Hn' Heq.
  - injection Heq as Heq. now subst.
  - injection Heq as Hb _. apply andb_true_iff in Hn' as [Hb' _].
    subst b. now rewrite bool_decide_eq_true_2 in Hb'.
  - injection Heq as Ha _. apply andb_true_iff in Hn as [Ha' _].
    subst a. now rewrite bool_decide_eq_true_2 in Ha'.
  - injection Heq as Hab Heq. subst b.
    apply andb_true_iff in Hn as [_ Hn]. apply andb_true_iff in Hn' as [_ Hn'].
    destruct (IH n' Hn Hn' Heq) as [Hnn Hpp]. now subst.
Qed.

(** X11.  [scope.get] returns what [scope.set] wrote under the same node
    and pin, whatever the ids are; when the two node ids contain no colon,
    a write under a different node or pin does not change what [get]
    returns.  With a colon in a node id two different pairs can share a
    key: a write to pin [c] of node [a:b] is read back from pin [b:c] of
    node [a]. *)
Theorem scope_set_get (s : gmap string value) (n p n' p' : string) (v : value) :
  scope_get (scope_set n p v s) n p = v
  /\ (no_colon n = true -> no_colon n' = true -> (n, p) <> (n', p') ->
      scope_get (scope_set n p v s) n' p' = scope_get s n' p')
  /\ scope_get (scope_set "a:b" "c" v s) "a" "b:c" = v.
Proof.
  unfold scope_get, scope_set. split; [| split].
  - now rewrite lookup_insert_eq.
  - intros Hn Hn' Hne. rewrite lookup_insert_ne; [reflexivity |].
    intros Heq. apply Hne.
    destruct (makeScopeKey_inj _ _ _ _ Hn Hn' Heq) as [-> ->]. reflexivity.
  - change (makeScopeKey "a" "b:c") with (makeScopeKey "a:b" "c").
    now rewrite lookup_insert_eq.
Qed.


(** ** The lifecycle of a runner *)

(** *** What the turns of a fiber leave alone *)

Lemma Quiet_refl (r : State) : Quiet r r.
Proof. now split. Qed.

Lemma Quiet_trans (r1 r2 r3 : State) : Quiet r1 r2 -> Quiet r2 r3 -> Quiet r1 r3.
Proof. intros [Hc1 Hi1] [Hc2 Hi2]. split; congruence. Qed.

Lemma filter_through {A : Type} (P Q : A -> bool) (l : list A) :
  (forall x, P x = true -> Q x = true) ->
  List.filter P l = List.filter P (List.filter Q l).
Proof.
  intros HPQ. induction l as [| x l IH]; [reflexivity |]. cbn [List.filter].
  destruct (P x) eqn:HP.
  - rewrite (HPQ x HP). cbn [List.filter]. now rewrite HP, IH.
  - destruct (Q x); [cbn [List.filter]; now rewrite HP |]; exact IH.
Qed.

Lemma invocations_calls (n : string) (r : State) :
  invocations n r = length (List.filter (is_invocation_of n) (calls r)).
Proof.
  unfold invocations, calls. f_equal. apply filter_through.
  now intros [].
Qed.

Lemma executions_calls (n : string) (r : State) :
  executions n r = length (List.filter (is_execution_of n) (calls r)).
Proof.
  unfold executions, calls. f_equal. apply filter_through.
  now intros [].
Qed.

Lemma Quiet_requeue (fs : list VisFiber) (r : State) : Quiet r (set_fibers fs r).
Proof. destruct r; split; reflexivity. Qed.

Lemma Quiet_goto (fid : nat) (p : Pc) (r : State) : Quiet r (goto fid p r).
Proof. apply Quiet_requeue. Qed.

Lemma Quiet_reject (fid : nat) (e : string) (r : State) : Quiet r (reject fid e r).
Proof. unfold reject, goto. destruct r; split; reflexivity. Qed.

Lemma Quiet_mark (n : string) (r : State) : Quiet r (_markNodeCompleted n r).
Proof. destruct (mark_frame n r) as (ws & rp & ->). destruct r; split; reflexivity. Qed.

Lemma Quiet_apply (n : string) (outs : option (list (string * value))) (r : State) :
  Quiet r (_applyOutputs n outs r).
Proof. destruct outs; destruct r; split; reflexivity. Qed.

Lemma Quiet_Spawned (r r' : State) : Spawned r r' -> Quiet r r'.
Proof. intros (new & -> & _). destruct r; split; reflexivity. Qed.

Lemma waitForNode_frame (n : string) (next : bool) (r : State) :
  exists ws pn, (_waitForNode n next r).2 = set_waiters ws (set_promiseCounter pn r).
Proof.
  unfold _waitForNode, add_waiter.
  repeat case_match; destruct r; simpl; eexists _, _; reflexivity.
Qed.

Lemma Quiet_waitForNode (n : string) (next : bool) (r : State) :
  Quiet r (_waitForNode n next r).2.
Proof.
  destruct (waitForNode_frame n next r) as (ws & pn & ->).
  destruct r; split; reflexivity.
Qed.

Lemma Quiet_waitForNodes (ids : list string) (next : bool) (ps : list nat) (r : State) :
  Quiet r (_waitForNodes ids next ps r).2.
Proof.
  revert ps r. induction ids as [| id ids IH]; intros ps r; simpl;
    [apply Quiet_refl |].
  destruct (getNode (_graph r) id); [| apply Quiet_refl].
  pose proof (Quiet_waitForNode id next r) as Hw.
  destruct (_waitForNode id next r) as [[p |] r']; simpl in Hw;
    (eapply Quiet_trans; [exact Hw | apply IH]).
Qed.

Lemma Quiet_route (f : VisFiber) (node : VisGraphNode)
    (ts : option (list VisFlowTransition)) (r : State) :
  Quiet r (_routeTransitions f node ts r).2.
Proof.
  unfold _routeTransitions.
  pose proof (Quiet_Spawned _ _
                (route_each_Spawned (_normalizeTransitions node ts) node
                   (fiber_entityId f) [] [] r)) as Hs.
  destruct (route_each _ _ _ _ _ _) as [[[pending ps] | err] r']; simpl in *.
  - eapply Quiet_trans; [exact Hs | apply Quiet_requeue].
  - exact Hs.
Qed.

Lemma Quiet_after_wait (f : VisFiber) (node : VisGraphNode)
    (result : VisNodeExecutionResult) (r : State) :
  Quiet r (after_wait f node result r).
Proof.
  unfold after_wait.
  pose proof (Quiet_apply (gn_id node) (outputs result) r) as H1.
  pose proof (Quiet_route f node (transitions result)
                (_applyOutputs (gn_id node) (outputs result) r)) as H2.
  destruct (_routeTransitions f node (transitions result) _) as [[children | e] r'];
    simpl in H2;
    (eapply Quiet_trans; [exact H1 |]; eapply Quiet_trans; [exact H2 |];
     apply Quiet_goto).
Qed.

Lemma Quiet_node_returns (fid : nat) (result : VisNodeExecutionResult) (r : State) :
  Quiet r (node_returns fid result r).
Proof.
  unfold node_returns.
  destruct (fiber_lookup fid (_fibers r)) as [f |]; [| apply Quiet_refl].
  destruct (pc f) as [| node ctx ff | | | | | |]; try apply Quiet_refl.
  destruct (waitFor result) as [[| t ts] |]; try apply Quiet_after_wait.
  pose proof (Quiet_waitForNodes (t :: ts) (default false (waitForNext result)) [] r)
    as Hw.
  destruct (_waitForNodes (t :: ts) _ [] r) as [[ps | e] r']; simpl in Hw;
    (eapply Quiet_trans; [exact Hw | apply Quiet_goto]).
Qed.

Lemma Quiet_node_throws (fid : nat) (e : string) (r : State) :
  Quiet r (node_throws fid e r).
Proof.
  unfold node_throws.
  destruct (fiber_lookup fid (_fibers r)) as [f |]; [| apply Quiet_refl].
  destruct (pc f); try apply Quiet_refl.
  unfold reject, goto. destruct r; split; reflexivity.
Qed.

Lemma ctl_loop_head (f : VisFiber) (r : State) : ctl (loop_head f r) = ctl r.
Proof.
  unfold loop_head, reject, goto.
  repeat case_match; destruct r; reflexivity.
Qed.

Lemma Quiet_loop_head (f : VisFiber) (r : State) :
  cancelled (_signal r) = true -> Quiet r (loop_head f r).
Proof. intros Hc. unfold loop_head. rewrite Hc. apply Quiet_goto. Qed.

Lemma executions_loop_head (f : VisFiber) (r : State) (n : string) :
  marked n r -> executions n (loop_head f r) = executions n r.
Proof.
  intros Hn. unfold loop_head.
  destruct (cancelled (_signal r)); [unfold goto; now destruct r |].
  destruct (queue f) as [| scheduled rest]; [unfold goto; now destruct r |].
  set (r' := set_fibers _ r).
  assert (Hh : executions n r' = executions n r) by (unfold r'; now destruct r).
  assert (Hm : marked n r').
  { intros t. specialize (Hn t). unfold r', _shouldFastForward in *. now destruct r. }
  destruct (getNode (_graph r') (sch_nodeId scheduled)) as [node | e];
    [| rewrite <- Hh; unfold reject, goto; now destruct r'].
  destruct (buildInputs (_graph r') (gn_id node) (_scope r')) as [ins | e];
    [| rewrite <- Hh; unfold reject, goto; now destruct r'].
  rewrite <- Hh. unfold _invokeNode, goto, executions.
  destruct (decide (gn_id node = n)) as [Hid | Hid].
  - rewrite Hid, (Hm (gn_type node)). now destruct r'.
  - destruct r'; simpl. destruct (_shouldFastForward _ _ _); [reflexivity |].
    now rewrite bool_decide_eq_false_2.
Qed.

(** The turns of a fiber but those of the handlers [catch] and [finally]. *)
Lemma ctl_body_turn (fid : nat) (f : VisFiber) (r : State) :
  fiber_lookup fid (_fibers r) = Some f ->
  (forall e, pc f <> Rejected e) -> pc f <> Resolved -> pc f <> Handled ->
  ctl (advance fid r) = ctl r
  /\ (cancelled (_signal r) = true -> Quiet r (advance fid r))
  /\ (forall n, marked n r -> executions n (advance fid r) = executions n r).
Proof.
  intros Hf Hrej Hres Hhan. unfold advance. rewrite Hf.
  assert (Hq : forall r', Quiet r r' ->
            ctl r' = ctl r
            /\ (cancelled (_signal r) = true -> Quiet r r')
            /\ (forall n, marked n r -> executions n r' = executions n r)).
  { intros r' HQ. split; [exact (proj1 HQ) |]. split; [intros _; exact HQ |].
    intros n _. rewrite !executions_calls. now rewrite (proj2 HQ). }
  destruct (pc f) as [| node ctx ff | node result ps | node children | node e | | e |]
    eqn:Hp.
  - split; [apply ctl_loop_head |].
    split; [apply Quiet_loop_head | intros n; apply executions_loop_head].
  - apply Hq, Quiet_refl.
  - assert (HQ : Quiet r
             (if forallb (fun p => bool_decide (p ∈ resolvedPromises r)) ps
              then if cancelled (_signal r)
                   then goto fid Resolved (_markNodeCompleted (gn_id node) r)
                   else after_wait f node result r
              else r)).
    { destruct (forallb _ ps); [| apply Quiet_refl].
      destruct (cancelled (_signal r)); [| apply Quiet_after_wait].
      eapply Quiet_trans; [apply Quiet_mark | apply Quiet_goto]. }
    exact (Hq _ HQ).
  - assert (HQ : Quiet r
             (if forallb (fun c => negb (is_live c r)) children
              then goto fid AtLoop (_markNodeCompleted (gn_id node) r)
              else r)).
    { destruct (forallb _ children); [| apply Quiet_refl].
      eapply Quiet_trans; [apply Quiet_mark | apply Quiet_goto]. }
    exact (Hq _ HQ).
  - assert (HQ : Quiet r (reject fid e (_markNodeCompleted (gn_id node) r))).
    { eapply Quiet_trans; [apply Quiet_mark | apply Quiet_reject]. }
    exact (Hq _ HQ).
  - contradiction.
  - now destruct (Hrej e).
  - contradiction.
Qed.

(** *** The lifecycle invariant *)

Lemma fiber_lookup_nonempty (fid : nat) (fs : list VisFiber) (f : VisFiber) :
  fiber_lookup fid fs = Some f -> fs <> [].
Proof. intros Hf ->. unfold fiber_lookup in Hf. simpl in Hf. discriminate. Qed.

Lemma Life_ctl (r r' : State) :
  Life r -> _fibers r <> [] -> ctl r' = ctl r -> Life r'.
Proof.
  intros [H0 H1 H2 H3 H4 H5] Hne [= Hst Hsg Hcp Hrc _ _].
  split; rewrite ?Hst, ?Hsg, ?Hcp, ?Hrc; try assumption.
  - intros Hi. destruct (H0 Hi) as [Hf _]. contradiction.
  - intros Hd. destruct (H2 Hd) as [Hf _]. contradiction.
Qed.

Lemma Life_same (r r' : State) :
  Life r -> _fibers r' = _fibers r -> _status r' = _status r ->
  cancelled (_signal r') = cancelled (_signal r) ->
  _completionPromise r' = _completionPromise r ->
  _resolveCompletion r' = _resolveCompletion r ->
  Life r'.
Proof.
  intros [H0 H1 H2 H3 H4 H5] Hfs Hst Hsg Hcp Hrc.
  split; rewrite ?Hfs, ?Hst, ?Hsg, ?Hcp, ?Hrc; assumption.
Qed.

Lemma Life_running (r : State) :
  _status r = Running -> _completionPromise r = Some false ->
  _resolveCompletion r = true -> Life r.
Proof.
  intros Hst Hcp Hrc. split; rewrite ?Hst; try (intros; discriminate); auto.
  - intros [? | ?]; discriminate.
  - intros [? | ?]; discriminate.
Qed.

Lemma signal_cancel_cancelled (why : option string) (r : State) :
  cancelled (_signal (signal_cancel why r)) = true.
Proof.
  unfold signal_cancel, _resolveAllWaiters.
  destruct (cancelled (_signal r)) eqn:Hc; [exact Hc | now destruct r].
Qed.

Lemma signal_cancel_frame (why : option string) (r : State) :
  _fibers (signal_cancel why r) = _fibers r
  /\ _status (signal_cancel why r) = _status r
  /\ _completionPromise (signal_cancel why r) = _completionPromise r
  /\ _resolveCompletion (signal_cancel why r) = _resolveCompletion r.
Proof.
  unfold signal_cancel, _resolveAllWaiters.
  destruct (cancelled (_signal r)); [auto | now destruct r].
Qed.

Lemma Life_signal_cancel (why : option string) (r : State) :
  Life r -> Life (signal_cancel why r).
Proof.
  intros [H0 H1 H2 H3 H4 H5].
  destruct (signal_cancel_frame why r) as (Hfs & Hst & Hcp & Hrc).
  split; rewrite ?Hfs, ?Hst, ?Hcp, ?Hrc; try assumption.
  intros _. apply signal_cancel_cancelled.
Qed.

Lemma Life_finish (state : RunnerStatus) (r : State) :
  Life r -> _fibers r = [] ->
  state <> Idle -> state <> Running ->
  (state = Completed -> _status r <> Idle) ->
  (state = Cancelled -> cancelled (_signal r) = true) ->
  (state = Failed -> _status r = Failed) ->
  Life (_finish state r).
Proof.
  intros [H0 H1 H2 H3 H4 H5] Hfs Hi Hr Hc Hx Hf.
  unfold _finish, resolve_completion. destruct r; simpl in *.
  destruct _status0, _resolveCompletion0, state; simpl;
    try contradiction;
    split; simpl; intros; intuition (try discriminate; try congruence).
Qed.

Lemma Life_cancel (why : option string) (r : State) :
  Life r -> Life (cancel why r).
Proof.
  intros HL. unfold cancel. destruct (decide (_status r = Cancelled)); [exact HL |].
  pose proof (Life_signal_cancel why r HL) as HL'.
  destruct (_fibers (signal_cancel why r)) eqn:Hfs; [| exact HL'].
  apply Life_finish; try assumption; try discriminate.
  intros _. apply signal_cancel_cancelled.
Qed.

Lemma Life_run (r : State) : Life r -> Life (run r).2.
Proof.
  intros HL. unfold run.
  destruct (bool_decide (_status r = Idle)) eqn:Hidle; simpl; [| exact HL].
  set (r1 := set_resolveCompletion true
               (set_completionPromise (Some false) (set_status Running r))).
  pose proof (Quiet_Spawned _ _ (spawn_roots_Spawned (roots (_graph r1)) r1))
    as [Hctl _].
  assert (HL2 : Life (spawn_roots (roots (_graph r1)) r1).2).
  { injection Hctl as Hst _ Hcp Hrc _ _.
    apply Life_running; [rewrite Hst | rewrite Hcp | rewrite Hrc];
      unfold r1; now destruct r. }
  assert (Hst2 : _status (spawn_roots (roots (_graph r1)) r1).2 = Running).
  { injection Hctl as Hst _ _ _ _ _. rewrite Hst. unfold r1. now destruct r. }
  destruct (spawn_roots (roots (_graph r1)) r1) as [[u | err] r2]; simpl in *;
    [| exact HL2].
  destruct (_fibers r2) eqn:Hfs; simpl; [| exact HL2].
  apply Life_finish; try assumption; try discriminate.
  intros _. rewrite Hst2. discriminate.
Qed.

Lemma Life_on_catch (fid : nat) (e : string) (r : State) :
  Life r -> Life (on_catch fid e r).
Proof.
  intros [H0 H1 H2 H3 H4 H5].
  unfold on_catch, goto, signal_cancel, _resolveAllWaiters.
  destruct r; simpl in *.
  destruct (cancelled _signal0) eqn:Hc; simpl;
    split; simpl; intros; try discriminate; auto;
    match goal with H : _ \/ _ |- _ => destruct H; discriminate end.
Qed.

Lemma Life_live_status (r : State) :
  Life r -> _fibers r <> [] -> _status r = Running \/ _status r = Failed.
Proof.
  intros [H0 _ H2 _ _ _] Hne. destruct (_status r); auto.
  - destruct H0 as [Hf _]; [reflexivity | contradiction].
  - destruct H2 as [Hf _]; [auto | contradiction].
  - destruct H2 as [Hf _]; [auto | contradiction].
Qed.

Lemma Life_on_finally (fid : nat) (r : State) :
  Life r -> _fibers r <> [] -> Life (on_finally fid r).
Proof.
  intros HL Hne. unfold on_finally. cbv zeta.
  set (r1 := set_fibers (fiber_remove fid (_fibers r)) r).
  assert (HL1 : Life r1).
  { apply (Life_ctl r); [exact HL | exact Hne |]. unfold r1. now destruct r. }
  assert (Hst : _status r1 = _status r) by (unfold r1; now destruct r).
  assert (Hsg : _signal r1 = _signal r) by (unfold r1; now destruct r).
  destruct (_fibers r1) eqn:Hfs; [| exact HL1].
  destruct (Life_live_status r HL Hne) as [Hrun | Hfail].
  - apply Life_finish; try assumption; rewrite ?Hst, ?Hsg, ?Hrun;
      destruct (cancelled (_signal r)) eqn:Hc; simpl;
      try discriminate; try (intros; discriminate); auto.
  - apply Life_finish; try assumption; rewrite ?Hst, ?Hsg, ?Hfail;
      destruct (cancelled (_signal r)) eqn:Hc; simpl;
      try discriminate; try (intros; discriminate); auto.
Qed.

Lemma Life_advance (fid : nat) (r : State) : Life r -> Life (advance fid r).
Proof.
  intros HL.
  destruct (fiber_lookup fid (_fibers r)) as [f |] eqn:Hf;
    [| unfold advance; now rewrite Hf].
  pose proof (fiber_lookup_nonempty _ _ _ Hf) as Hne.
  destruct (pc f) as [| node ctx ff | node result ps | node children | node e | | e |]
    eqn:Hp;
    try (apply (Life_ctl r); [exact HL | exact Hne |];
         refine (proj1 (ctl_body_turn fid f r Hf _ _ _));
         rewrite Hp; intros; discriminate).
  - unfold advance. rewrite Hf, Hp. now apply Life_on_finally.
  - unfold advance. rewrite Hf, Hp. now apply Life_on_catch.
  - unfold advance. rewrite Hf, Hp. now apply Life_on_finally.
Qed.

Lemma Life_step (r : State) (e : Event) : Life r -> Life (step r e).
Proof.
  intros HL. destruct e; simpl.
  - now apply Life_run.
  - now apply Life_cancel.
  - apply (Life_same r); [exact HL | ..]; now destruct r.
  - apply (Life_same r); [exact HL | ..]; now destruct r.
  - now apply Life_advance.
  - destruct (fiber_lookup fid (_fibers r)) as [f |] eqn:Hf.
    + apply (Life_ctl r); [exact HL | exact (fiber_lookup_nonempty _ _ _ Hf) |].
      apply Quiet_node_returns.
    + unfold node_returns. now rewrite Hf.
  - destruct (fiber_lookup fid (_fibers r)) as [f |] eqn:Hf.
    + apply (Life_ctl r); [exact HL | exact (fiber_lookup_nonempty _ _ _ Hf) |].
      apply Quiet_node_throws.
    + unfold node_throws. now rewrite Hf.
  - now apply Life_signal_cancel.
  - unfold signal_requestFastForward. destruct (fastForward (_signal r)); [exact HL |].
    apply (Life_same r); [exact HL | ..]; now destruct r.
  - apply (Life_same r); [exact HL | ..]; now destruct r.
  - apply (Life_same r); [exact HL | ..]; now destruct r.
  - apply (Life_same r); [exact HL | ..]; unfold scope_write; now destruct r.
Qed.

Lemma Life_new (g : VisGraph) (e : string) (sc bb : gmap string value) :
  Life (new g e sc bb).
Proof.
  split; simpl; try (intros; discriminate); auto;
    intros [? | ?]; discriminate.
Qed.

Lemma Life_exec (r : State) (es : list Event) : Life r -> Life (exec r es).
Proof.
  revert r. induction es as [| e es IH]; intros r HL; [exact HL |].
  simpl. apply IH. now apply Life_step.
Qed.

(** X12.  In every run of a new runner: while the status is [idle] there
    is no fiber and no completion promise; while it is [running] the
    completion promise is pending; once it is [completed] or [cancelled] no
    fiber is left and the completion promise is not pending; [completed]
    comes with the promise resolved; and [cancelled] and [failed] come with
    the signal cancelled. *)
Theorem runner_lifecycle (g : VisGraph) (e : string) (sc bb : gmap string value)
    (es : list Event) :
  let r := exec (new g e sc bb) es in
  (_status r = Idle -> _fibers r = [] /\ _completionPromise r = None)
  /\ (_status r = Running -> _completionPromise r = Some false)
  /\ (_status r = Completed \/ _status r = Cancelled ->
      _fibers r = [] /\ _completionPromise r <> Some false)
  /\ (_status r = Completed -> _completionPromise r = Some true)
  /\ (_status r = Cancelled \/ _status r = Failed -> cancelled (_signal r) = true).
Proof.
  intros r.
  destruct (Life_exec _ es (Life_new g e sc bb)) as [H0 H1 H2 H3 H4 H5].
  fold r in H0, H1, H2, H3, H4, H5.
  split; [| split; [| split; [| split]]].
  - intros Hi. now destruct (H0 Hi) as (? & ? & _).
  - intros Hr. now destruct (H1 Hr).
  - intros Hd. destruct (H2 Hd) as [Hf Hrc]. split; [exact Hf |].
    intros Hp. apply H5 in Hp. congruence.
  - exact H3.
  - exact H4.
Qed.

(** *** A terminal status is final *)

Lemma status_finish (state : RunnerStatus) (r : State) :
  is_terminal (_status r) = true -> _status (_finish state r) = _status r.
Proof.
  intros Ht. unfold _finish, resolve_completion. rewrite Ht.
  destruct (_resolveCompletion r); now destruct r.
Qed.

Lemma ctl_status (r r' : State) : ctl r' = ctl r -> _status r' = _status r.
Proof. unfold ctl. now intros [= -> _]. Qed.

Lemma status_step (r : State) (e : Event) :
  Life r -> is_terminal (_status r) = true -> _status (step r e) = _status r.
Proof.
  intros HL Ht. destruct e; simpl.
  - unfold run. rewrite bool_decide_eq_false_2; [reflexivity |].
    intros Hi. rewrite Hi in Ht. discriminate.
  - unfold cancel. destruct (decide (_status r = Cancelled)); [reflexivity |].
    destruct (signal_cancel_frame why r) as (_ & Hst & _).
    destruct (_fibers (signal_cancel why r)); [| exact Hst].
    rewrite status_finish; [exact Hst | now rewrite Hst].
  - now destruct r.
  - now destruct r.
  - unfold advance.
    destruct (fiber_lookup fid (_fibers r)) as [f |] eqn:Hf; [| reflexivity].
    pose proof (fiber_lookup_nonempty _ _ _ Hf) as Hne.
    assert (Hfin : _status (on_finally fid r) = _status r).
    { unfold on_finally. cbv zeta.
      set (r1 := set_fibers (fiber_remove fid (_fibers r)) r).
      assert (Hst : _status r1 = _status r) by (unfold r1; now destruct r).
      destruct (_fibers r1); [| exact Hst].
      rewrite status_finish; [exact Hst | now rewrite Hst]. }
    destruct (pc f) as [| node ctx ff | node result ps | node children | node err | | err |]
      eqn:Hp;
      try exact Hfin;
      try (assert (Hc : ctl (advance fid r) = ctl r)
             by (refine (proj1 (ctl_body_turn fid f r Hf _ _ _));
                 rewrite Hp; intros; discriminate);
           unfold advance in Hc; rewrite Hf, Hp in Hc;
           exact (ctl_status _ _ Hc)).
    destruct (Life_live_status r HL Hne) as [Hs | Hs];
      [rewrite Hs in Ht; discriminate |].
    rewrite Hs. destruct (signal_cancel_frame (Some err)
                            (set_status Failed (observe (FiberError fid err) r)))
      as (_ & Hst & _).
    unfold on_catch, goto.
    transitivity (_status (signal_cancel (Some err)
                    (set_status Failed (observe (FiberError fid err) r))));
      [now destruct (signal_cancel _ _) | rewrite Hst; now destruct r].
  - exact (ctl_status _ _ (proj1 (Quiet_node_returns fid result r))).
  - exact (ctl_status _ _ (proj1 (Quiet_node_throws fid error r))).
  - now destruct (signal_cancel_frame why r) as (_ & -> & _).
  - unfold signal_requestFastForward. destruct (fastForward (_signal r)); now destruct r.
  - now destruct r.
  - now destruct r.
  - unfold scope_write. now destruct r.
Qed.

Lemma status_exec (r : State) (es : list Event) :
  Life r -> is_terminal (_status r) = true -> _status (exec r es) = _status r.
Proof.
  revert r. induction es as [| e es IH]; intros r HL Ht; [reflexivity |].
  simpl. rewrite IH.
  - now apply status_step.
  - now apply Life_step.
  - now rewrite status_step.
Qed.

(** X13.  A terminal status is final: once a run of a new runner has
    reached [completed], [failed] or [cancelled], nothing that happens
    afterwards changes the status; in particular [cancel()] does not turn
    [completed] or [failed] into [cancelled], and [run()] does not start the
    graph again. *)
Theorem terminal_status_is_final (g : VisGraph) (e : string)
    (sc bb : gmap string value) (es es' : list Event) :
  is_terminal (_status (exec (new g e sc bb) es)) = true ->
  _status (exec (new g e sc bb) (es ++ es')%list)
  = _status (exec (new g e sc bb) es).
Proof.
  intros Ht. unfold exec at 1. rewrite foldl_app.
  apply (status_exec _ es'); [| exact Ht].
  apply Life_exec, Life_new.
Qed.

Lemma terminal_status_is_final_witness :
  _status (exec fresh_runner
             ([CallRun; Advance 1; NodeThrows 1 "boom"; Advance 1; Advance 1]
              ++ [CallCancel None; CallRun; Advance 1])%list)
  = _status throwing_run.
Proof.
  apply (terminal_status_is_final (hydrated demo_registry one_node_asset)
           "entity" ∅ ∅
           [CallRun; Advance 1; NodeThrows 1 "boom"; Advance 1; Advance 1]
           [CallCancel None; CallRun; Advance 1]).
  vm_compute. reflexivity.
Defined.

(** *** What is never undone *)

Ltac keeps_by_cases r :=
  unfold Keeps, marked, _shouldFastForward, invocations, executions;
  repeat case_match; destruct r; simpl in *;
  (split; [| split; [| split]]); auto.

Lemma Keeps_refl (r : State) : Keeps r r.
Proof. unfold Keeps. auto. Qed.

Lemma Keeps_trans (r1 r2 r3 : State) : Keeps r1 r2 -> Keeps r2 r3 -> Keeps r1 r3.
Proof.
  intros (Hc1 & Hf1 & Hi1 & He1) (Hc2 & Hf2 & Hi2 & He2).
  split; [| split; [| split]]; auto.
  - intros Hc n. rewrite (Hi2 (Hc1 Hc)). now apply Hi1.
  - intros n Hn. rewrite He2; [now apply He1 |]. intros t. apply Hf1, Hn.
Qed.

Lemma Keeps_ctl (r r' : State) :
  ctl r' = ctl r ->
  (cancelled (_signal r) = true -> calls r' = calls r) ->
  (forall n, marked n r -> executions n r' = executions n r) ->
  Keeps r r'.
Proof.
  unfold ctl. intros [= Hst Hsg Hcp Hrc Hfs Hfr] Hinv Hex.
  split; [| split; [| split]].
  - now rewrite Hsg.
  - unfold _shouldFastForward. now rewrite Hfs, Hfr.
  - intros Hc n. rewrite !invocations_calls. now rewrite (Hinv Hc).
  - exact Hex.
Qed.

Lemma Keeps_Quiet (r r' : State) : Quiet r r' -> Keeps r r'.
Proof.
  intros [Hc Hi]. apply Keeps_ctl; auto.
  intros n _. rewrite !executions_calls. now rewrite Hi.
Qed.

Lemma Keeps_finish (state : RunnerStatus) (r : State) : Keeps r (_finish state r).
Proof. unfold _finish, resolve_completion. keeps_by_cases r. Qed.

Lemma Keeps_signal_cancel (why : option string) (r : State) :
  Keeps r (signal_cancel why r).
Proof. unfold signal_cancel, _resolveAllWaiters. keeps_by_cases r. Qed.

Lemma Keeps_requestFastForward (why : option string) (r : State) :
  Keeps r (signal_requestFastForward why r).
Proof. unfold signal_requestFastForward. keeps_by_cases r. Qed.

Lemma Keeps_cancel (why : option string) (r : State) : Keeps r (cancel why r).
Proof.
  unfold cancel. destruct (decide (_status r = Cancelled)); [apply Keeps_refl |].
  pose proof (Keeps_signal_cancel why r) as Hk.
  destruct (_fibers (signal_cancel why r)); [| exact Hk].
  eapply Keeps_trans; [exact Hk | apply Keeps_finish].
Qed.

Lemma Keeps_run (r : State) : Keeps r (run r).2.
Proof.
  unfold run.
  destruct (bool_decide (_status r = Idle)); simpl; [| apply Keeps_refl].
  set (r1 := set_resolveCompletion true
               (set_completionPromise (Some false) (set_status Running r))).
  assert (H1 : Keeps r r1) by (unfold r1; keeps_by_cases r).
  pose proof (Keeps_Quiet _ _
                (Quiet_Spawned _ _ (spawn_roots_Spawned (roots (_graph r1)) r1)))
    as H2.
  destruct (spawn_roots (roots (_graph r1)) r1) as [[u | err] r2]; simpl in *;
    [| exact (Keeps_trans _ _ _ H1 H2)].
  destruct (_fibers r2); simpl; [| exact (Keeps_trans _ _ _ H1 H2)].
  eapply Keeps_trans; [exact H1 |]. eapply Keeps_trans; [exact H2 |].
  apply Keeps_finish.
Qed.

Lemma Keeps_on_catch (fid : nat) (e : string) (r : State) :
  Keeps r (on_catch fid e r).
Proof. unfold on_catch, goto, signal_cancel, _resolveAllWaiters. keeps_by_cases r. Qed.

Lemma Keeps_on_finally (fid : nat) (r : State) : Keeps r (on_finally fid r).
Proof.
  unfold on_finally. cbv zeta.
  pose proof (Keeps_Quiet _ _ (Quiet_requeue (fiber_remove fid (_fibers r)) r)) as Hk.
  destruct (_fibers (set_fibers _ r)); [| exact Hk].
  eapply Keeps_trans; [exact Hk | apply Keeps_finish].
Qed.

Lemma Keeps_advance (fid : nat) (r : State) : Keeps r (advance fid r).
Proof.
  destruct (fiber_lookup fid (_fibers r)) as [f |] eqn:Hf;
    [| unfold advance; rewrite Hf; apply Keeps_refl].
  destruct (pc f) as [| node ctx ff | node result ps | node children | node e | | e |]
    eqn:Hp;
    try (assert (Hb : ctl (advance fid r) = ctl r
                      /\ (cancelled (_signal r) = true -> Quiet r (advance fid r))
                      /\ (forall n, marked n r ->
                            executions n (advance fid r) = executions n r))
           by (refine (ctl_body_turn fid f r Hf _ _ _);
               rewrite Hp; intros; discriminate);
         destruct Hb as (Hb1 & Hb2 & Hb3);
         apply Keeps_ctl; [exact Hb1 | | exact Hb3];
         intros Hc; exact (proj2 (Hb2 Hc))).
  - unfold advance. rewrite Hf, Hp. apply Keeps_on_finally.
  - unfold advance. rewrite Hf, Hp. apply Keeps_on_catch.
  - unfold advance. rewrite Hf, Hp. apply Keeps_on_finally.
Qed.

Lemma Keeps_fastForwardNode (nodeId : string) (r : State) :
  Keeps r (fastForwardNode nodeId r).
Proof.
  unfold Keeps, fastForwardNode, invocations, executions.
  split; [now destruct r |]. split; [| split; now destruct r].
  unfold _shouldFastForward. destruct r; simpl.
  intros n t [Hin | Hrule]%orb_true_iff; apply orb_true_iff; [left | now right].
  apply bool_decide_eq_true in Hin. apply bool_decide_eq_true_2.
  apply elem_of_union. now right.
Qed.

Lemma Keeps_fastForwardWhere (rule : string -> string -> bool) (r : State) :
  Keeps r (fastForwardWhere rule r).
Proof.
  unfold Keeps, fastForwardWhere, invocations, executions.
  split; [now destruct r |]. split; [| split; now destruct r].
  unfold _shouldFastForward. destruct r; simpl.
  intros n t [Hin | Hrule]%orb_true_iff; apply orb_true_iff; [now left | right].
  rewrite existsb_app, Hrule. reflexivity.
Qed.

Lemma Keeps_step (r : State) (e : Event) : Keeps r (step r e).
Proof.
  destruct e; simpl.
  - apply Keeps_run.
  - apply Keeps_cancel.
  - apply Keeps_fastForwardNode.
  - apply Keeps_fastForwardWhere.
  - apply Keeps_advance.
  - apply Keeps_Quiet, Quiet_node_returns.
  - apply Keeps_Quiet, Quiet_node_throws.
  - apply Keeps_signal_cancel.
  - apply Keeps_requestFastForward.
  - keeps_by_cases r.
  - keeps_by_cases r.
  - unfold scope_write. keeps_by_cases r.
Qed.

Lemma Keeps_exec (r : State) (es : list Event) : Keeps r (exec r es).
Proof.
  revert r. induction es as [| e es IH]; intros r; [apply Keeps_refl |].
  simpl. eapply Keeps_trans; [apply Keeps_step | apply IH].
Qed.

(** X14.  Cancellation is final and stops the invocations: once the
    signal is cancelled, whatever happens afterwards leaves it cancelled,
    and no node is invoked any more, neither through [execute] nor through
    [onFastForward]. *)
Theorem no_invocation_after_cancellation (r : State) (es : list Event) :
  cancelled (_signal r) = true ->
  cancelled (_signal (exec r es)) = true
  /\ forall n, invocations n (exec r es) = invocations n r.
Proof.
  intros Hc. destruct (Keeps_exec r es) as (Hk & _ & Hi & _). auto.
Qed.

Lemma no_invocation_after_cancellation_witness :
  cancelled (_signal (exec (cancel None started_runner) [Advance 1; CallRun])) = true
  /\ forall n, invocations n (exec (cancel None started_runner) [Advance 1; CallRun])
               = invocations n (cancel None started_runner).
Proof.
  apply (no_invocation_after_cancellation (cancel None started_runner)
           [Advance 1; CallRun]).
  vm_compute. reflexivity.
Defined.

(** X15.  Fast-forward marks are never withdrawn: a node that the runner
    would fast-forward stays so whatever happens afterwards;
    [fastForwardNode(id)] marks the node [id], and [fastForwardWhere(rule)]
    marks every node that the rule accepts. *)
Theorem fastForward_marks_persist (r : State) (es : list Event) :
  (forall n t, _shouldFastForward n t r = true ->
               _shouldFastForward n t (exec r es) = true)
  /\ (forall n t, _shouldFastForward n t (exec (fastForwardNode n r) es) = true)
  /\ (forall rule n t, rule n t = true ->
        _shouldFastForward n t (exec (fastForwardWhere rule r) es) = true).
Proof.
  split; [| split].
  - exact (proj1 (proj2 (Keeps_exec r es))).
  - intros n t. apply (proj1 (proj2 (Keeps_exec _ es))).
    unfold _shouldFastForward, fastForwardNode. destruct r; simpl.
    apply orb_true_iff. left. apply bool_decide_eq_true_2.
    apply elem_of_union. left. now apply elem_of_singleton.
  - intros rule n t Hrule. apply (proj1 (proj2 (Keeps_exec _ es))).
    unfold _shouldFastForward, fastForwardWhere. destruct r; simpl.
    apply orb_true_iff. right. rewrite existsb_app. simpl. rewrite Hrule.
    now rewrite orb_true_r.
Qed.

(** X22.  [execute] is never called on a node that the runner
    fast-forwards: while a node is marked, by [fastForwardNode] or by a
    rule that accepts it with any type, whatever happens, every invocation
    of it goes to [onFastForward]; so after [fastForwardNode(id)] the count
    of the calls of [execute] on [id] stays what it was. *)
Theorem marked_node_is_never_executed (r : State) (es : list Event) (n : string) :
  (marked n r -> executions n (exec r es) = executions n r)
  /\ executions n (exec (fastForwardNode n r) es) = executions n r
  /\ (forall rule, (forall t, rule n t = true) ->
        executions n (exec (fastForwardWhere rule r) es) = executions n r).
Proof.
  split; [| split].
  - exact (proj2 (proj2 (proj2 (Keeps_exec r es))) n).
  - transitivity (executions n (fastForwardNode n r));
      [| unfold fastForwardNode, executions; now destruct r].
    apply (proj2 (proj2 (proj2 (Keeps_exec _ es)))).
    intros t. unfold _shouldFastForward, fastForwardNode. destruct r; simpl.
    apply orb_true_iff. left. apply bool_decide_eq_true_2.
    apply elem_of_union. left. now apply elem_of_singleton.
  - intros rule Hrule.
    transitivity (executions n (fastForwardWhere rule r));
      [| unfold fastForwardWhere, executions; now destruct r].
    apply (proj2 (proj2 (proj2 (Keeps_exec _ es)))).
    intros t. unfold _shouldFastForward, fastForwardWhere. destruct r; simpl.
    apply orb_true_iff. right. rewrite existsb_app. simpl. rewrite Hrule.
    now rewrite orb_true_r.
Qed.

(** ** Routing and the roots *)

Lemma resolveEntityId_ok (t fallback : string) (r : State) :
  is_Some (_nodes (_graph r) !! t) ->
  _resolveEntityId t fallback r = Ok (entity_for (_graph r) fallback t).
Proof.
  intros [node Hn]. unfold _resolveEntityId, getNode, entity_for.
  now rewrite Hn.
Qed.

Lemma resolveEntityId_missing (t fallback : string) (r : State) :
  _nodes (_graph r) !! t = None ->
  _resolveEntityId t fallback r = Throw ("Missing node '" +:+ t +:+ "' in graph.").
Proof. intros Hn. unfold _resolveEntityId, getNode. now rewrite Hn. Qed.

Lemma fresh_fibers_app (g : VisGraph) (e : string) (c : nat) (l k : list string) :
  fresh_fibers g e c (l ++ k)
  = (fresh_fibers g e c l ++ fresh_fibers g e (c + length l) k)%list.
Proof.
  revert c. induction l as [| t l IH]; intros c; simpl.
  - now rewrite Nat.add_0_r.
  - now rewrite IH, Nat.add_succ_r.
Qed.

Lemma awaited_ids_app (c : nat) (l k : list (string * bool)) :
  awaited_ids c (l ++ k) = (awaited_ids c l ++ awaited_ids (c + length l) k)%list.
Proof.
  revert c. induction l as [| [t a] l IH]; intros c; simpl.
  - now rewrite Nat.add_0_r.
  - now rewrite IH, <- app_assoc, Nat.add_succ_r.
Qed.

Lemma fresh_fibers_length (g : VisGraph) (e : string) (c : nat) (l : list string) :
  length (fresh_fibers g e c l) = length l.
Proof. revert c. induction l as [| t l IH]; intros c; simpl; [| rewrite IH]; reflexivity. Qed.

Lemma grow_nil (r : State) : grow [] r = r.
Proof. unfold grow. destruct r; simpl. now rewrite app_nil_r, Nat.add_0_r. Qed.

Lemma grow_grow (l k : list VisFiber) (r : State) :
  grow k (grow l r) = grow (l ++ k)%list r.
Proof.
  unfold grow. destruct r; simpl.
  now rewrite length_app, <- app_assoc, Nat.add_assoc.
Qed.

Lemma grow_graph (l : list VisFiber) (r : State) : _graph (grow l r) = _graph r.
Proof. unfold grow. now destruct r. Qed.

Lemma grow_counter (l : list VisFiber) (r : State) :
  _fiberCounter (grow l r) = _fiberCounter r + length l.
Proof. unfold grow. now destruct r. Qed.

Lemma spawnFiber_grow (t entity : string) (r : State) :
  _spawnFiber t entity r =
    (S (_fiberCounter r),
     grow [{| fiber_id := S (_fiberCounter r);
              queue := [{| sch_nodeId := t; sch_entityId := entity |}];
              fiber_entityId := entity; pc := AtLoop |}] r).
Proof. unfold _spawnFiber, grow. destruct r; simpl. now rewrite Nat.add_1_r. Qed.

Lemma spawn_targets_spec (targets : list string) (e : string) (awaited : bool)
    (ps : list nat) (r : State) :
  Forall (fun x => is_Some (_nodes (_graph r) !! x)) targets ->
  spawn_targets targets e awaited ps r =
    (Ok (ps ++ awaited_ids (_fiberCounter r) ((fun x => (x, awaited)) <$> targets))%list,
     grow (fresh_fibers (_graph r) e (_fiberCounter r) targets) r).
Proof.
  revert ps r. induction targets as [| t ts IH]; intros ps r Hex.
  - simpl. now rewrite app_nil_r, grow_nil.
  - apply Forall_cons in Hex as [Ht Hts]. rewrite spawn_targets_cons.
    rewrite (resolveEntityId_ok _ _ _ Ht), spawnFiber_grow.
    cbn [fst snd]. rewrite IH by (now rewrite grow_graph).
    rewrite grow_graph, grow_counter, grow_grow. cbn [length].
    rewrite Nat.add_1_r. cbn [fresh_fibers awaited_ids fmap list_fmap app].
    destruct awaited; cbn [app]; now rewrite <- ?app_assoc.
Qed.

Lemma enqueue_targets_spec (targets : list string) (e : string)
    (pending : list VisScheduledNode) (r : State) :
  Forall (fun x => is_Some (_nodes (_graph r) !! x)) targets ->
  enqueue_targets targets e pending r
  = Ok (pending ++ (scheduled_for (_graph r) e <$> targets))%list.
Proof.
  revert pending. induction targets as [| t ts IH]; intros pending Hex; simpl.
  - now rewrite app_nil_r.
  - apply Forall_cons in Hex as [Ht Hts].
    rewrite (resolveEntityId_ok _ _ _ Ht). cbn [mbind Except_bind].
    rewrite IH by exact Hts. now rewrite <- app_assoc.
Qed.

Lemma targeted_cons (g : VisGraph) (node : VisGraphNode) (t : VisFlowTransition)
    (ts : list VisFlowTransition) :
  targeted g node (t :: ts)
  = (getNext g (gn_id node) (Node.pinId t) ++ targeted g node ts)%list.
Proof. reflexivity. Qed.

Lemma sequential_targets_cons (g : VisGraph) (node : VisGraphNode)
    (t : VisFlowTransition) (ts : list VisFlowTransition) :
  sequential_targets g node (t :: ts)
  = ((if is_parallel t then [] else getNext g (gn_id node) (Node.pinId t))
     ++ sequential_targets g node ts)%list.
Proof.
  unfold sequential_targets. cbn [List.filter].
  destruct (is_parallel t); reflexivity.
Qed.

Lemma parallel_targets_cons (g : VisGraph) (node : VisGraphNode)
    (t : VisFlowTransition) (ts : list VisFlowTransition) :
  parallel_targets g node (t :: ts)
  = ((if is_parallel t
      then (fun x => (x, is_awaited t)) <$> getNext g (gn_id node) (Node.pinId t)
      else [])
     ++ parallel_targets g node ts)%list.
Proof.
  unfold parallel_targets. cbn [List.filter].
  destruct (is_parallel t); reflexivity.
Qed.

Lemma fst_paired {A B : Type} (b : B) (l : list A) :
  ((fun x => (x, b)) <$> l).*1 = l.
Proof.
  induction l as [| x l IH]; [reflexivity |].
  rewrite !fmap_cons. cbn [fst]. now rewrite IH.
Qed.

Lemma route_each_spec (ts : list VisFlowTransition) (node : VisGraphNode)
    (e : string) (pending : list VisScheduledNode) (ps : list nat) (r : State) :
  Forall (fun x => is_Some (_nodes (_graph r) !! x)) (targeted (_graph r) node ts) ->
  route_each ts node e pending ps r =
    (Ok ((pending ++ (scheduled_for (_graph r) e
                        <$> sequential_targets (_graph r) node ts))%list,
         (ps ++ awaited_ids (_fiberCounter r) (parallel_targets (_graph r) node ts))%list),
     grow (fresh_fibers (_graph r) e (_fiberCounter r)
             (parallel_targets (_graph r) node ts).*1) r).
Proof.
  revert pending ps r. induction ts as [| t ts IH]; intros pending ps r Hex.
  - simpl. now rewrite !app_nil_r, grow_nil.
  - rewrite targeted_cons in Hex. apply Forall_app in Hex as [Ht Hts].
    rewrite sequential_targets_cons, parallel_targets_cons.
    cbn [route_each]. unfold is_parallel.
    destruct (strategy t) as [[|] |] eqn:Hs.
    + rewrite (enqueue_targets_spec _ _ _ _ Ht), IH by exact Hts.
      cbn [app]. now rewrite fmap_app, app_assoc.
    + fold (is_awaited t). cbn [app].
      rewrite (spawn_targets_spec _ _ _ _ _ Ht).
      rewrite IH by (now rewrite grow_graph).
      rewrite grow_graph, grow_counter, grow_grow, fresh_fibers_length.
      rewrite fmap_app, fst_paired, fresh_fibers_app, awaited_ids_app.
      rewrite length_fmap, <- app_assoc. reflexivity.
    + rewrite (enqueue_targets_spec _ _ _ _ Ht), IH by exact Hts.
      cbn [app]. now rewrite fmap_app, app_assoc.
Qed.

(** *** The first turns of new fibers *)

Lemma kept_marks (r r' : State) : kept r' = kept r -> marks r' = marks r.
Proof. unfold kept, marks. intros [= -> _ _ _ _ _ _ -> ->]. reflexivity. Qed.

Lemma started_marks (r r' : State) (fallback : string) (c : nat)
    (targets : list string) (fs : list VisFiber) :
  marks r' = marks r ->
  started r' fallback c targets fs -> started r fallback c targets fs.
Proof.
  intros Hk. revert c fs. induction targets as [| t ts IH]; intros c [| f fs];
    simpl; auto.
  intros [Hf Hfs]. split; [| now apply IH].
  unfold started_fiber, _shouldFastForward in *. unfold marks in Hk.
  injection Hk as Hg Hs Hr. now rewrite Hg, Hs, Hr in Hf.
Qed.

Lemma invocation_of_marks (r r' : State) (l : list string) :
  marks r' = marks r -> invocation_of r' <$> l = invocation_of r <$> l.
Proof.
  intros Hk. apply list_fmap_ext. intros _ x _.
  unfold invocation_of, _shouldFastForward. unfold marks in Hk.
  injection Hk as Hg Hs Hr. now rewrite Hg, Hs, Hr.
Qed.

Lemma buildInputs_stored (g : VisGraph) (id : string) (node : VisGraphNode)
    (sc : gmap string value) :
  _nodes g !! id = Some node -> exists ins, buildInputs g id sc = Ok ins.
Proof.
  intros Hn. unfold buildInputs, getNode. rewrite Hn. cbn [mbind Except_bind].
  destruct (_dataMap g !! id); eauto.
Qed.

Lemma fiber_lookup_middle (c : nat) (old rest : list VisFiber) (f : VisFiber) :
  Forall (fun f' => fiber_id f' <= c) old -> fiber_id f = S c ->
  fiber_lookup (S c) (old ++ f :: rest) = Some f.
Proof.
  intros Hold Hf. unfold fiber_lookup.
  induction Hold as [| g old Hg Hold IH]; simpl.
  - now rewrite bool_decide_eq_true_2.
  - rewrite bool_decide_eq_false_2 by lia. exact IH.
Qed.

Lemma fiber_update_middle (c : nat) (upd : VisFiber -> VisFiber)
    (old rest : list VisFiber) (f : VisFiber) :
  Forall (fun f' => fiber_id f' <= c) old -> fiber_id f = S c ->
  Forall (fun f' => S c < fiber_id f') rest ->
  fiber_update (S c) upd (old ++ f :: rest) = (old ++ upd f :: rest)%list.
Proof.
  intros Hold Hf Hrest. unfold fiber_update.
  rewrite fmap_app, fmap_cons. f_equal; [| f_equal].
  - induction Hold as [| g old Hg Hold IH]; [reflexivity |].
    rewrite fmap_cons, IH. now rewrite decide_False by lia.
  - now rewrite decide_True.
  - induction Hrest as [| g rest Hg Hrest IH]; [reflexivity |].
    rewrite fmap_cons, IH. now rewrite decide_False by lia.
Qed.

Lemma fresh_fibers_ids (g : VisGraph) (e : string) (c : nat) (ts : list string) :
  Forall (fun f' => c < fiber_id f') (fresh_fibers g e c ts).
Proof.
  revert c. induction ts as [| t ts IH]; intros c; simpl; constructor.
  - simpl. lia.
  - eapply Forall_impl; [apply IH |]. simpl. intros f Hf. lia.
Qed.

Lemma effect_kept (r : State) (e : Event) :
  is_effect e = true ->
  kept (step r e) = kept r /\ _fibers (step r e) = _fibers r
  /\ calls (step r e) = calls r.
Proof.
  destruct e; try discriminate; intros _; simpl.
  - unfold signal_requestFastForward. destruct (fastForward (_signal r));
      now destruct r.
  - now destruct r.
  - now destruct r.
  - unfold scope_write. now destruct r.
Qed.

Lemma effects_kept (r : State) (es : list Event) :
  Forall (fun e => is_effect e = true) es ->
  kept (exec r es) = kept r /\ _fibers (exec r es) = _fibers r
  /\ calls (exec r es) = calls r.
Proof.
  revert r. induction es as [| e es IH]; intros r Hes; [auto |].
  apply Forall_cons in Hes as [He Hes]. simpl.
  destruct (IH (step r e) Hes) as (-> & -> & ->). now apply effect_kept.
Qed.

Lemma fibers_goto (fid : nat) (p : Pc) (r : State) :
  _fibers (goto fid p r) = fiber_update fid (with_pc p) (_fibers r).
Proof. unfold goto. now destruct r. Qed.

(** The first turn of a fresh fiber. *)
Lemma first_turn (r : State) (fallback t : string) (c : nat)
    (old rest : list VisFiber) :
  cancelled (_signal r) = false ->
  stored (_graph r) t ->
  Forall (fun f' => fiber_id f' <= c) old ->
  Forall (fun f' => S c < fiber_id f') rest ->
  _fibers r = (old ++ {| fiber_id := S c;
                         queue := [scheduled_for (_graph r) fallback t];
                         fiber_entityId := entity_for (_graph r) fallback t;
                         pc := AtLoop |} :: rest)%list ->
  exists f',
    started_fiber r fallback (S c) t f'
    /\ _fibers (advance (S c) r) = (old ++ f' :: rest)%list
    /\ calls (advance (S c) r) = invocation_of r t :: calls r
    /\ kept (advance (S c) r) = kept r.
Proof.
  intros Hc (node & Hn & Hid) Hold Hrest Hfs.
  unfold advance. rewrite Hfs, fiber_lookup_middle by (exact Hold || reflexivity).
  cbn [pc]. unfold loop_head. rewrite Hc. cbn [queue fiber_id].
  set (r1 := set_fibers _ r).
  assert (Hg1 : _graph r1 = _graph r) by (unfold r1; now destruct r).
  assert (Hf1 : _fibers r1 =
                  (old ++ {| fiber_id := S c; queue := [];
                             fiber_entityId := entity_for (_graph r) fallback t;
                             pc := AtLoop |} :: rest)%list).
  { unfold r1. rewrite Hfs.
    rewrite fiber_update_middle by (exact Hold || exact Hrest || reflexivity).
    now destruct r. }
  cbn [scheduled_for sch_nodeId sch_entityId]. unfold getNode.
  rewrite Hg1, Hn.
  destruct (buildInputs_stored (_graph r) (gn_id node) node (_scope r1)) as [ins Hins];
    [now rewrite Hid |].
  rewrite Hins, Hid.
  set (ctx := {| entityId := entity_for (_graph r) fallback t; inputs := ins |}).
  assert (Hff : _invokeNode node r1 = _shouldFastForward t (gn_type node) r).
  { unfold _invokeNode, _shouldFastForward, r1. rewrite Hid. now destruct r. }
  rewrite Hff.
  exists {| fiber_id := S c; queue := [];
            fiber_entityId := entity_for (_graph r) fallback t;
            pc := AwaitInvoke node ctx (_shouldFastForward t (gn_type node) r) |}.
  split; [| split; [| split]].
  - unfold started_fiber. cbn [fiber_id queue fiber_entityId pc].
    split; [reflexivity |]. split; [reflexivity |]. split; [reflexivity |].
    exists node, ctx. auto.
  - rewrite fibers_goto.
    assert (Hobs : forall o, _fibers (observe o r1) = _fibers r1)
      by (intros o; now destruct r1).
    rewrite Hobs, Hf1.
    now rewrite fiber_update_middle by (exact Hold || exact Hrest || reflexivity).
  - unfold goto, calls, invocation_of. rewrite Hn.
    assert (Hh : history r1 = history r) by (unfold r1; now destruct r).
    destruct r1; simpl in *. now rewrite Hh.
  - unfold goto, kept, r1. now destruct r.
Qed.

(** The first turns of the fibers spawned for [targets]. *)
Lemma first_turns_spec (targets : list string) (effects : list (list Event))
    (r : State) (fallback : string) (c : nat) (old : list VisFiber) :
  cancelled (_signal r) = false ->
  Forall (stored (_graph r)) targets ->
  Forall (fun f' => fiber_id f' <= c) old ->
  _fibers r = (old ++ fresh_fibers (_graph r) fallback c targets)%list ->
  length effects = length targets ->
  Forall (Forall (fun e => is_effect e = true)) effects ->
  exists fs',
    started r fallback c targets fs'
    /\ _fibers (exec r (first_turns c effects)) = (old ++ fs')%list
    /\ calls (exec r (first_turns c effects))
       = (rev (invocation_of r <$> targets) ++ calls r)%list
    /\ kept (exec r (first_turns c effects)) = kept r.
Proof.
  revert effects r c old.
  induction targets as [| t ts IH]; intros [| es effects] r c old Hc Hst Hold Hfs Hlen Heff;
    try discriminate.
  - exists []. simpl in *. auto.
  - apply Forall_cons in Hst as [Ht Hts]. apply Forall_cons in Heff as [Hes Heff].
    injection Hlen as Hlen. cbn [fresh_fibers] in Hfs.
    destruct (first_turn r fallback t c old _ Hc Ht Hold
                (fresh_fibers_ids _ _ _ _) Hfs) as (f' & Hf' & Hfs1 & Hcalls1 & Hk1).
    cbn [first_turns]. unfold exec. cbn [foldl]. rewrite foldl_app.
    fold (exec (step r (Advance (S c))) es).
    change (step r (Advance (S c))) with (advance (S c) r).
    destruct (effects_kept (advance (S c) r) es Hes) as (Hk2 & Hfs2 & Hcalls2).
    set (r2 := exec (advance (S c) r) es) in *.
    fold (exec r2 (first_turns (S c) effects)).
    assert (Hk : kept r2 = kept r) by congruence.
    assert (Hg : _graph r2 = _graph r) by (unfold kept in Hk; now injection Hk).
    assert (Hc2 : cancelled (_signal r2) = false).
    { unfold kept in Hk. injection Hk as _ _ _ _ _ _ Hcc _ _. congruence. }
    destruct (IH effects r2 (S c) (old ++ [f'])%list) as (fs' & Hs & Hfs' & Hcalls' & Hk');
      [exact Hc2 | now rewrite Hg | | | exact Hlen | exact Heff |].
    { apply Forall_app. split.
      - eapply Forall_impl; [exact Hold |]. simpl. intros; lia.
      - constructor; [| constructor]. destruct Hf' as [-> _]. lia. }
    { rewrite Hfs2, Hfs1, Hg, <- app_assoc. reflexivity. }
    exists (f' :: fs'). split; [| split; [| split]].
    + cbn [started]. split; [exact Hf' |]. exact (started_marks _ _ _ _ _ _ (kept_marks _ _ Hk) Hs).
    + rewrite Hfs', <- app_assoc. reflexivity.
    + rewrite Hcalls', Hcalls2, Hcalls1. rewrite fmap_cons. cbn [rev].
      rewrite <- app_assoc. cbn [app].
      now rewrite (invocation_of_marks _ _ ts (kept_marks _ _ Hk)).
    + congruence.
Qed.

Lemma fiber_update_fresh (fid c : nat) (upd : VisFiber -> VisFiber)
    (fs : list VisFiber) (g : VisGraph) (e : string) (ts : list string) :
  fid <= c ->
  fiber_update fid upd (fs ++ fresh_fibers g e c ts)
  = (fiber_update fid upd fs ++ fresh_fibers g e c ts)%list.
Proof.
  intros Hfid. unfold fiber_update at 1. rewrite fmap_app. f_equal.
  apply fiber_update_absent. intros (f' & -> & Hin)%list_elem_of_fmap.
  pose proof (fresh_fibers_ids g e c ts) as Hids.
  rewrite Forall_forall in Hids. specialize (Hids f' Hin). lia.
Qed.

Lemma fiber_update_bound (fid c : nat) (upd : VisFiber -> VisFiber)
    (fs : list VisFiber) :
  (forall f, fiber_id (upd f) = fiber_id f) ->
  Forall (fun f' => fiber_id f' <= c) fs ->
  Forall (fun f' => fiber_id f' <= c) (fiber_update fid upd fs).
Proof.
  intros Hid Hfs. unfold fiber_update. apply Forall_fmap.
  eapply Forall_impl; [exact Hfs |]. intros f Hf. simpl.
  destruct (decide (fiber_id f = fid)); [now rewrite Hid | exact Hf].
Qed.

Lemma stored_is_Some (g : VisGraph) (l : list string) :
  Forall (stored g) l -> Forall (fun x => is_Some (_nodes g !! x)) l.
Proof.
  intros Hl. eapply Forall_impl; [exact Hl |].
  intros x (node & Hn & _). eauto.
Qed.

(** What [_routeTransitions] leaves when it reaches its [await], the
    first turns of the new fibers apart. *)
Lemma routeTransitions_spawned (f : VisFiber) (node : VisGraphNode)
    (ts : option (list VisFlowTransition)) (r : State) :
  let g := _graph r in
  let list := _normalizeTransitions node ts in
  let par := parallel_targets g node list in
  let c := _fiberCounter r in
  Forall (fun x => is_Some (_nodes g !! x)) (targeted g node list) ->
  _routeTransitions f node ts r =
    (Ok (awaited_ids c par),
     set_fibers
       (fiber_update (fiber_id f)
          (fun f' =>
             with_queue
               ((scheduled_for g (fiber_entityId f)
                   <$> sequential_targets g node list) ++ queue f')%list f')
          (_fibers r ++ fresh_fibers g (fiber_entityId f) c par.*1)%list)
       (set_fiberCounter (c + length par) r)).
Proof.
  intros g list par c Hex. unfold _routeTransitions. fold list.
  rewrite (route_each_spec list node (fiber_entityId f) [] [] r Hex).
  fold g par c. unfold grow. rewrite fresh_fibers_length, length_fmap.
  destruct r; reflexivity.
Qed.

Ltac stored_by_computation :=
  repeat first [ apply Forall_nil_2
               | apply Forall_cons_2;
                 [vm_compute; eexists; split; reflexivity |] ].

Ltac effects_by_cases :=
  repeat first [ apply Forall_nil_2 | apply Forall_cons_2; [try reflexivity |] ].

(** X16.  [_routeTransitions], taken with the first turns that the new
    fibers have had by the time it reaches its [await]: when the targets
    of the transitions are nodes of the graph, the signal is not cancelled
    and the synchronous code of the invoked nodes does not cancel it
    either, the targets of the sequential transitions are at the front of
    the queue of the routing fiber, in the order of the transitions and of
    their connections; each target of a parallel transition has a new
    fiber, with the next fiber ids in the same order, which has shifted
    the target off its queue and awaits the call of it; the targets have
    been invoked in that order; and the routing fiber awaits the new
    fibers of the parallel transitions whose [awaitCompletion] is not
    [false].  A target runs for the entity of its node, else for the one
    of the routing fiber. *)
Theorem routeTransitions_spec (f : VisFiber) (node : VisGraphNode)
    (ts : option (list VisFlowTransition)) (effects : list (list Event))
    (r : State) :
  let g := _graph r in
  let list := _normalizeTransitions node ts in
  let par := parallel_targets g node list in
  let c := _fiberCounter r in
  let routed := _routeTransitions f node ts r in
  let r' := exec routed.2 (first_turns c effects) in
  Forall (stored g) (targeted g node list) ->
  cancelled (_signal r) = false ->
  Forall (fun f' => fiber_id f' <= c) (_fibers r) -> fiber_id f <= c ->
  length effects = length par ->
  Forall (Forall (fun e => is_effect e = true)) effects ->
  routed.1 = Ok (awaited_ids c par)
  /\ (exists fs',
        started r (fiber_entityId f) c par.*1 fs'
        /\ _fibers r' =
             (fiber_update (fiber_id f)
                (fun f' =>
                   with_queue
                     ((scheduled_for g (fiber_entityId f)
                         <$> sequential_targets g node list) ++ queue f')%list f')
                (_fibers r) ++ fs')%list)
  /\ calls r' = (rev (invocation_of r <$> par.*1) ++ calls r)%list
  /\ _fiberCounter r' = c + length par
  /\ _status r' = _status r
  /\ cancelled (_signal r') = false.
Proof.
  intros g list par c routed r' Hst Hc Hold Hf Hlen Heff.
  assert (Hr : routed = _) by exact (routeTransitions_spawned f node ts r
                                        (stored_is_Some _ _ Hst)).
  fold g list par c in Hr. unfold r'. rewrite Hr. cbn [fst snd].
  split; [reflexivity |].
  set (upd := fun f' : VisFiber => with_queue _ f').
  set (r0 := set_fibers _ _).
  assert (Hm : marks r0 = marks r) by (unfold r0; now destruct r).
  assert (Hg : _graph r0 = g) by (unfold r0, g; now destruct r).
  assert (Hpar : Forall (stored (_graph r0)) par.*1).
  { rewrite Hg. apply Forall_forall. intros t Ht.
    rewrite Forall_forall in Hst. apply Hst.
    unfold par, parallel_targets, targeted in *.
    apply list_elem_of_fmap in Ht as ([t' a] & -> & Ht).
    apply list_elem_of_bind in Ht as (tr & Ht & Htr).
    apply list_elem_of_fmap in Ht as (x & [= -> _] & Hx).
    apply list_elem_of_bind. exists tr. split; [exact Hx |].
    apply list_elem_of_In, filter_In in Htr as [Htr _]. now apply list_elem_of_In. }
  destruct (first_turns_spec par.*1 effects r0 (fiber_entityId f) c
              (fiber_update (fiber_id f) upd (_fibers r)))
    as (fs' & Hs & Hfs & Hcalls & Hk).
  - unfold r0. now destruct r.
  - exact Hpar.
  - apply fiber_update_bound; [reflexivity | exact Hold].
  - rewrite Hg. unfold r0. rewrite <- fiber_update_fresh by exact Hf. now destruct r.
  - now rewrite length_fmap.
  - exact Heff.
  - split; [exists fs'; split; [exact (started_marks _ _ _ _ _ _ Hm Hs) | exact Hfs] |].
    split; [rewrite Hcalls, (invocation_of_marks _ _ _ Hm); unfold r0, calls;
            now destruct r |].
    unfold kept in Hk. injection Hk as _ _ Hcount Hstatus _ _ Hcanc _ _.
    rewrite Hcount, Hstatus, Hcanc. unfold r0. now destruct r.
Qed.

Lemma routeTransitions_spec_witness :
  let ts := Some [on_pin "next"; on_pin_with "next" parallel] in
  let g := _graph demo_runner in
  let list := _normalizeTransitions demo_node_A ts in
  let par := parallel_targets g demo_node_A list in
  let routed := _routeTransitions first_fiber demo_node_A ts demo_runner in
  let r' := exec routed.2 (first_turns 2 one_effect) in
  routed.1 = Ok (awaited_ids 2 par)
  /\ (exists fs',
        started demo_runner "entity" 2 par.*1 fs'
        /\ _fibers r' =
             (fiber_update 1
                (fun f' =>
                   with_queue
                     ((scheduled_for g "entity"
                         <$> sequential_targets g demo_node_A list) ++ queue f')%list f')
                (_fibers demo_runner) ++ fs')%list)
  /\ calls r' = (rev (invocation_of demo_runner <$> par.*1) ++ calls demo_runner)%list
  /\ _fiberCounter r' = 2 + length par
  /\ _status r' = _status demo_runner
  /\ cancelled (_signal r') = false.
Proof.
  apply (routeTransitions_spec first_fiber demo_node_A
           (Some [on_pin "next"; on_pin_with "next" parallel]) one_effect demo_runner).
  - match goal with
    | |- Forall _ ?l => replace l with ["B"; "B"] by (vm_compute; reflexivity)
    end.
    stored_by_computation.
  - reflexivity.
  - match goal with
    | |- Forall _ ?l =>
        replace l with [ {| fiber_id := 1; queue := [scheduled_for (_graph demo_runner) "entity" "A"];
                            fiber_entityId := "entity"; pc := AtLoop |};
                         {| fiber_id := 2; queue := [scheduled_for (_graph demo_runner) "entity" "C"];
                            fiber_entityId := "entity"; pc := AtLoop |} ]
          by (vm_compute; reflexivity)
    end.
    apply Forall_cons_2; [vm_compute; lia |].
    apply Forall_cons_2; [vm_compute; lia |]. apply Forall_nil_2.
  - vm_compute. lia.
  - reflexivity.
  - unfold one_effect. effects_by_cases.
Defined.

Lemma grow_options (l : list VisFiber) (r : State) :
  _options_entityId (grow l r) = _options_entityId r.
Proof. unfold grow. now destruct r. Qed.

Lemma spawn_roots_spec (rs : list string) (r : State) :
  Forall (fun x => is_Some (_nodes (_graph r) !! x)) rs ->
  spawn_roots rs r =
    (Ok tt, grow (fresh_fibers (_graph r) (_options_entityId r) (_fiberCounter r) rs) r).
Proof.
  revert r. induction rs as [| root rs IH]; intros r Hex.
  - simpl. now rewrite grow_nil.
  - apply Forall_cons in Hex as [Ht Hts]. cbn [spawn_roots].
    rewrite (resolveEntityId_ok _ _ _ Ht), spawnFiber_grow. cbn [snd].
    rewrite IH by (now rewrite grow_graph).
    rewrite grow_graph, grow_counter, grow_options, grow_grow. cbn [length].
    now rewrite Nat.add_1_r.
Qed.

Lemma spawn_roots_missing (pre post : list string) (missing : string) (r : State) :
  Forall (fun x => is_Some (_nodes (_graph r) !! x)) pre ->
  _nodes (_graph r) !! missing = None ->
  spawn_roots (pre ++ missing :: post) r =
    (Throw ("Missing node '" +:+ missing +:+ "' in graph."),
     grow (fresh_fibers (_graph r) (_options_entityId r) (_fiberCounter r) pre) r).
Proof.
  revert r. induction pre as [| root pre IH]; intros r Hex Hmiss.
  - cbn [app spawn_roots]. rewrite (resolveEntityId_missing _ _ _ Hmiss).
    simpl. now rewrite grow_nil.
  - apply Forall_cons in Hex as [Ht Hts]. rewrite <- app_comm_cons.
    cbn [spawn_roots].
    rewrite (resolveEntityId_ok _ _ _ Ht), spawnFiber_grow. cbn [snd].
    rewrite IH by (now rewrite grow_graph).
    rewrite grow_graph, grow_counter, grow_options, grow_grow. cbn [length].
    now rewrite Nat.add_1_r.
Qed.

Lemma fibers_grow (l : list VisFiber) (r : State) :
  _fibers (grow l r) = (_fibers r ++ l)%list.
Proof. unfold grow. now destruct r. Qed.

Lemma run_spawned (r : State) :
  _status r = Idle ->
  Forall (fun x => is_Some (_nodes (_graph r) !! x)) (roots (_graph r)) ->
  run r =
    (Ok HandleOfRunner,
     let r1 := grow (fresh_fibers (_graph r) (_options_entityId r) (_fiberCounter r)
                       (roots (_graph r)))
                 (set_resolveCompletion true
                    (set_completionPromise (Some false) (set_status Running r))) in
     match _fibers r1 with
     | [] => _finish Completed r1
     | _ :: _ => r1
     end).
Proof.
  intros Hidle Hex. unfold run.
  rewrite Hidle, bool_decide_eq_true_2 by reflexivity. cbn [negb].
  set (r1 := set_resolveCompletion true
               (set_completionPromise (Some false) (set_status Running r))).
  assert (Hg : _graph r1 = _graph r) by (unfold r1; now destruct r).
  assert (He : _options_entityId r1 = _options_entityId r) by (unfold r1; now destruct r).
  assert (Hc : _fiberCounter r1 = _fiberCounter r) by (unfold r1; now destruct r).
  rewrite spawn_roots_spec by (now rewrite Hg). rewrite Hg, He, Hc.
  cbv zeta. now destruct (_fibers (grow _ r1)).
Qed.

(** X17.  [run()] on an idle runner without fibers, taken with the first
    turns that the new fibers have had by the time it returns: when every
    root is a node of the graph, the signal is not cancelled and the
    synchronous code of the invoked roots does not cancel it either,
    [run()] returns the handle and leaves one fiber per root, in the order
    of the roots, with consecutive fiber ids; each has shifted its root
    off its queue and awaits the call of it, made for the entity of the
    root's node, else for the entity of the runner; the roots have been
    invoked in their order.  The runner is [running] with its completion
    promise pending, unless there is no root: then it is [completed] at
    once and the promise resolved. *)
Theorem run_starts_roots (r : State) (effects : list (list Event)) :
  let g := _graph r in
  let c := _fiberCounter r in
  let r' := exec (run r).2 (first_turns c effects) in
  _status r = Idle -> _fibers r = [] -> cancelled (_signal r) = false ->
  Forall (stored g) (roots g) ->
  length effects = length (roots g) ->
  Forall (Forall (fun e => is_effect e = true)) effects ->
  (run r).1 = Ok HandleOfRunner
  /\ started r (_options_entityId r) c (roots g) (_fibers r')
  /\ calls r' = (rev (invocation_of r <$> roots g) ++ calls r)%list
  /\ _fiberCounter r' = c + length (roots g)
  /\ _status r' = match roots g with [] => Completed | _ :: _ => Running end
  /\ _completionPromise r' =
       Some match roots g with [] => true | _ :: _ => false end.
Proof.
  intros g c r' Hidle Hfs Hc Hst Hlen Heff. unfold r'.
  rewrite (run_spawned r Hidle (stored_is_Some _ _ Hst)). cbn [fst snd].
  split; [reflexivity |]. fold g c.
  set (r1 := set_resolveCompletion true
               (set_completionPromise (Some false) (set_status Running r))).
  destruct (roots g) as [| root rs] eqn:Hroots.
  - destruct effects; [| discriminate]. cbn [fresh_fibers first_turns exec foldl].
    rewrite grow_nil.
    assert (Hf1 : _fibers r1 = []) by (unfold r1; now destruct r).
    rewrite Hf1. unfold _finish, resolve_completion, r1, calls.
    destruct r; simpl in *. subst. simpl. rewrite Nat.add_0_r. auto.
  - set (r0 := grow (fresh_fibers g (_options_entityId r) c (root :: rs)) r1).
    assert (Hf0 : _fibers r0
                  = ([] ++ fresh_fibers g (_options_entityId r) c (root :: rs))%list).
    { unfold r0, grow, r1. destruct r; simpl in *. now subst. }
    assert (Hne : match _fibers r0 with [] => _finish Completed r0 | _ :: _ => r0 end
                  = r0) by (rewrite Hf0; reflexivity).
    rewrite Hne.
    assert (Hm : marks r0 = marks r) by (unfold r0, grow, r1; now destruct r).
    assert (Hg : _graph r0 = g) by (unfold r0, grow, r1, g; now destruct r).
    destruct (first_turns_spec (root :: rs) effects r0 (_options_entityId r) c [])
      as (fs' & Hs & Hfs' & Hcalls & Hk).
    + unfold r0, grow, r1. now destruct r.
    + now rewrite Hg.
    + constructor.
    + now rewrite Hg.
    + exact Hlen.
    + exact Heff.
    + rewrite Hfs'. cbn [app].
      split; [exact (started_marks _ _ _ _ _ _ Hm Hs) |].
      split; [rewrite Hcalls, (invocation_of_marks _ _ _ Hm); unfold r0, grow, r1, calls;
              now destruct r |].
      unfold kept in Hk. injection Hk as _ _ Hcount Hstatus Hcp _ _ _ _.
      rewrite Hcount, Hstatus, Hcp. unfold r0, grow, r1.
      rewrite fresh_fibers_length. now destruct r.
Qed.

Lemma run_starts_roots_witness :
  let r := fresh_runner in
  let r' := exec (run r).2 (first_turns 0 one_effect) in
  (run r).1 = Ok HandleOfRunner
  /\ started r "entity" 0 (roots (_graph r)) (_fibers r')
  /\ calls r' = (rev (invocation_of r <$> roots (_graph r)) ++ calls r)%list
  /\ _fiberCounter r' = 0 + length (roots (_graph r))
  /\ _status r' = match roots (_graph r) with [] => Completed | _ :: _ => Running end
  /\ _completionPromise r' =
       Some match roots (_graph r) with [] => true | _ :: _ => false end.
Proof.
  apply (run_starts_roots fresh_runner one_effect);
    [reflexivity | reflexivity | reflexivity | | reflexivity
     | unfold one_effect; effects_by_cases].
  match goal with
  | |- Forall _ ?l => replace l with ["A"] by (vm_compute; reflexivity)
  end.
  stored_by_computation.
Defined.

(** X18.  When a root is not a node of the graph, [run()] on an idle
    runner without fibers throws "Missing node '...' in graph." for the
    first such root, after it has spawned the fibers of the roots before
    it, each of which has invoked its root by then (the signal not being
    cancelled); it leaves the runner [running] with its completion promise
    pending; and a second [run()] returns the handle and changes
    nothing. *)
Theorem run_missing_root (r : State) (pre post : list string) (missing : string)
    (effects : list (list Event)) :
  let g := _graph r in
  let c := _fiberCounter r in
  let r' := exec (run r).2 (first_turns c effects) in
  _status r = Idle -> _fibers r = [] -> cancelled (_signal r) = false ->
  roots g = (pre ++ missing :: post)%list ->
  Forall (stored g) pre ->
  _nodes g !! missing = None ->
  length effects = length pre ->
  Forall (Forall (fun e => is_effect e = true)) effects ->
  (run r).1 = Throw ("Missing node '" +:+ missing +:+ "' in graph.")
  /\ started r (_options_entityId r) c pre (_fibers r')
  /\ calls r' = (rev (invocation_of r <$> pre) ++ calls r)%list
  /\ _fiberCounter r' = c + length pre
  /\ _status r' = Running
  /\ _completionPromise r' = Some false
  /\ run r' = (Ok HandleOfRunner, r').
Proof.
  intros g c r' Hidle Hfs Hc Hroots Hst Hmiss Hlen Heff.
  set (r1 := set_resolveCompletion true
               (set_completionPromise (Some false) (set_status Running r))).
  assert (Hg1 : _graph r1 = g) by (unfold r1, g; now destruct r).
  assert (He : _options_entityId r1 = _options_entityId r) by (unfold r1; now destruct r).
  assert (Hc1 : _fiberCounter r1 = c) by (unfold r1, c; now destruct r).
  set (r0 := grow (fresh_fibers g (_options_entityId r) c pre) r1).
  assert (Hrun : run r =
            (Throw ("Missing node '" +:+ missing +:+ "' in graph."), r0)).
  { unfold run. rewrite Hidle, bool_decide_eq_true_2 by reflexivity. cbn [negb].
    fold r1. rewrite Hg1, Hroots.
    rewrite spawn_roots_missing
      by (rewrite Hg1; first [apply stored_is_Some, Hst | exact Hmiss]).
    now rewrite Hg1, He, Hc1. }
  unfold r'. rewrite Hrun. cbn [fst snd]. split; [reflexivity |].
  assert (Hm : marks r0 = marks r) by (unfold r0, grow, r1; now destruct r).
  assert (Hg : _graph r0 = g) by (unfold r0, grow, r1, g; now destruct r).
  destruct (first_turns_spec pre effects r0 (_options_entityId r) c [])
    as (fs' & Hs & Hfs' & Hcalls & Hk).
  - unfold r0, grow, r1. now destruct r.
  - now rewrite Hg.
  - constructor.
  - rewrite Hg. unfold r0. rewrite fibers_grow.
    assert (Hf1 : _fibers r1 = []) by (unfold r1; destruct r; exact Hfs).
    now rewrite Hf1.
  - exact Hlen.
  - exact Heff.
  - rewrite Hfs'. cbn [app].
    split; [exact (started_marks _ _ _ _ _ _ Hm Hs) |].
    split; [rewrite Hcalls, (invocation_of_marks _ _ _ Hm); unfold r0, grow, r1, calls;
            now destruct r |].
    unfold kept in Hk. injection Hk as _ _ Hcount Hstatus Hcp _ _ _ _.
    assert (Hrunning : _status (exec r0 (first_turns c effects)) = Running).
    { rewrite Hstatus. unfold r0, grow, r1. now destruct r. }
    rewrite Hcount, Hcp. split; [| split; [exact Hrunning | split]].
    + unfold r0, grow, r1. rewrite fresh_fibers_length. now destruct r.
    + unfold r0, grow, r1. now destruct r.
    + unfold run. now rewrite Hrunning.
Qed.

Lemma run_missing_root_witness :
  let r := half_runner in
  let r' := exec (run r).2 (first_turns 0 one_effect) in
  (run r).1 = Throw ("Missing node '" +:+ "X" +:+ "' in graph.")
  /\ started r "entity" 0 ["A"] (_fibers r')
  /\ calls r' = (rev (invocation_of r <$> ["A"]) ++ calls r)%list
  /\ _fiberCounter r' = 0 + length ["A"]
  /\ _status r' = Running
  /\ _completionPromise r' = Some false
  /\ run r' = (Ok HandleOfRunner, r').
Proof.
  apply (run_missing_root half_runner ["A"] [] "X" one_effect);
    [reflexivity | reflexivity | reflexivity | vm_compute; reflexivity
     | stored_by_computation | vm_compute; reflexivity | reflexivity
     | unfold one_effect; effects_by_cases].
Defined.

(** ** Waiting *)

Lemma resolve_completion_idem (r : State) :
  resolve_completion (resolve_completion r) = resolve_completion r.
Proof. unfold resolve_completion. destruct r as [? ? ? ? ? ? ? ? ? ? ? ? []]; reflexivity. Qed.

Lemma finish_idem (state : RunnerStatus) (r : State) :
  _finish state (_finish state r) = _finish state r.
Proof.
  unfold _finish, resolve_completion.
  destruct r as [? ? ? ? ? ? ? ? ? [] ? ? []]; destruct state; reflexivity.
Qed.

Lemma signal_cancel_noop (why : option string) (r : State) :
  cancelled (_signal r) = true -> signal_cancel why r = r.
Proof. intros Hc. unfold signal_cancel. now rewrite Hc. Qed.

Lemma finish_frame (state : RunnerStatus) (r : State) :
  _signal (_finish state r) = _signal r
  /\ _fibers (_finish state r) = _fibers r
  /\ _waiters (_finish state r) = _waiters r
  /\ resolvedPromises (_finish state r) = resolvedPromises r.
Proof.
  unfold _finish, resolve_completion. repeat case_match; now destruct r.
Qed.

Lemma resolveAllWaiters_wakes (r : State) (n : string) (ws : list NodeWaiter)
    (w : NodeWaiter) :
  _waiters r !! n = Some ws -> w ∈ ws ->
  resolve w ∈ resolvedPromises (_resolveAllWaiters r).
Proof.
  intros Hws Hw. unfold _resolveAllWaiters. destruct r; simpl in *.
  apply elem_of_union_l, elem_of_list_to_set, list_elem_of_bind.
  exists (n, ws). split.
  - simpl. apply list_elem_of_fmap. now exists w.
  - now apply elem_of_map_to_list.
Qed.

(** X19.  [cancel(reason)] is idempotent.  The first cancellation of the
    signal records the reason, resolves the promise of every recorded
    waiter and empties the table of waiters; a cancellation of a signal
    that is cancelled already changes neither the signal nor the waiters. *)
Theorem cancel_wakes_and_is_idempotent (why why' : option string) (r : State) :
  cancel why' (cancel why r) = cancel why r
  /\ (_status r <> Cancelled -> cancelled (_signal r) = false ->
      _signal (cancel why r)
      = {| cancelled := true; fastForward := fastForward (_signal r); reason := why |}
      /\ _waiters (cancel why r) = ∅
      /\ forall n ws w, _waiters r !! n = Some ws -> w ∈ ws ->
           resolve w ∈ resolvedPromises (cancel why r))
  /\ (cancelled (_signal r) = true ->
      _signal (cancel why r) = _signal r
      /\ _waiters (cancel why r) = _waiters r
      /\ resolvedPromises (cancel why r) = resolvedPromises r).
Proof.
  split; [| split].
  - unfold cancel at 2 3.
    destruct (decide (_status r = Cancelled)) as [Hs | Hs].
    { unfold cancel. now rewrite decide_True. }
    pose proof (signal_cancel_cancelled why r) as Hc.
    destruct (signal_cancel_frame why r) as (_ & Hst & _).
    destruct (_fibers (signal_cancel why r)) as [| f fs] eqn:Hfs.
    + unfold cancel.
      destruct (decide (_status (_finish Cancelled (signal_cancel why r)) = Cancelled));
        [reflexivity |].
      destruct (finish_frame Cancelled (signal_cancel why r)) as (Hsg & Hfb & _).
      rewrite signal_cancel_noop by (now rewrite Hsg).
      rewrite Hfb, Hfs. apply finish_idem.
    + unfold cancel. rewrite decide_False by (now rewrite Hst).
      rewrite signal_cancel_noop by exact Hc. now rewrite Hfs.
  - intros Hs Hc. unfold cancel. rewrite decide_False by exact Hs.
    assert (Hsc : signal_cancel why r =
              _resolveAllWaiters
                (set_signal {| cancelled := true;
                               fastForward := fastForward (_signal r);
                               reason := why |} r))
      by (unfold signal_cancel; now rewrite Hc).
    assert (Hgoal :
      _signal (signal_cancel why r)
      = {| cancelled := true; fastForward := fastForward (_signal r); reason := why |}
      /\ _waiters (signal_cancel why r) = ∅
      /\ forall n ws w, _waiters r !! n = Some ws -> w ∈ ws ->
           resolve w ∈ resolvedPromises (signal_cancel why r)).
    { rewrite Hsc. split; [| split].
      - unfold _resolveAllWaiters. now destruct r.
      - unfold _resolveAllWaiters. now destruct r.
      - intros n ws w Hws Hw. apply (resolveAllWaiters_wakes _ n ws w); [| exact Hw].
        now destruct r. }
    destruct (_fibers (signal_cancel why r)); [| exact Hgoal].
    destruct (finish_frame Cancelled (signal_cancel why r)) as (-> & _ & -> & ->).
    exact Hgoal.
  - intros Hc. unfold cancel.
    destruct (decide (_status r = Cancelled)); [auto |].
    rewrite signal_cancel_noop by exact Hc.
    destruct (_fibers r); [| auto].
    now destruct (finish_frame Cancelled r) as (-> & _ & -> & ->).
Qed.

(** *** No wait is forgotten *)

Lemma Waited_wt (r r' : State) : wt r' = wt r -> Waited r -> Waited r'.
Proof.
  unfold wt. intros [= Hws Hpc Hrp Hcc] HW p Hp.
  rewrite Hpc in Hp. destruct (HW p Hp) as [Hres | (n & ws & w & H1 & H2 & H3 & H4)].
  - left. now rewrite Hrp.
  - right. exists n, ws, w. unfold completed_of in *. now rewrite Hws, Hcc.
Qed.

Lemma wt_set_fibers (fs : list VisFiber) (r : State) : wt (set_fibers fs r) = wt r.
Proof. now destruct r. Qed.

Lemma wt_reject (fid : nat) (e : string) (r : State) : wt (reject fid e r) = wt r.
Proof. unfold reject, goto. now destruct r. Qed.

Lemma wt_apply (n : string) (outs : option (list (string * value))) (r : State) :
  wt (_applyOutputs n outs r) = wt r.
Proof. destruct outs; now destruct r. Qed.

Lemma wt_Spawned (r r' : State) : Spawned r r' -> wt r' = wt r.
Proof. intros (new & -> & _). now destruct r. Qed.

Lemma wt_route (f : VisFiber) (node : VisGraphNode)
    (ts : option (list VisFlowTransition)) (r : State) :
  wt (_routeTransitions f node ts r).2 = wt r.
Proof.
  unfold _routeTransitions.
  pose proof (wt_Spawned _ _
                (route_each_Spawned (_normalizeTransitions node ts) node
                   (fiber_entityId f) [] [] r)) as Hs.
  destruct (route_each _ _ _ _ _ _) as [[[pending ps] | err] r']; simpl in *;
    [now rewrite wt_set_fibers | exact Hs].
Qed.

Lemma wt_after_wait (f : VisFiber) (node : VisGraphNode)
    (result : VisNodeExecutionResult) (r : State) :
  wt (after_wait f node result r) = wt r.
Proof.
  unfold after_wait.
  pose proof (wt_route f node (transitions result)
                (_applyOutputs (gn_id node) (outputs result) r)) as H2.
  rewrite wt_apply in H2.
  destruct (_routeTransitions f node (transitions result) _) as [[children | e] r'];
    simpl in H2; unfold goto; now rewrite wt_set_fibers.
Qed.

Lemma wt_loop_head (f : VisFiber) (r : State) : wt (loop_head f r) = wt r.
Proof.
  unfold loop_head, reject, goto. repeat case_match; now destruct r.
Qed.

Lemma wt_finish (state : RunnerStatus) (r : State) : wt (_finish state r) = wt r.
Proof. unfold _finish, resolve_completion. repeat case_match; now destruct r. Qed.

Lemma wt_on_finally (fid : nat) (r : State) : wt (on_finally fid r) = wt r.
Proof.
  unfold on_finally. cbv zeta.
  destruct (_fibers (set_fibers _ r)); rewrite ?wt_finish; apply wt_set_fibers.
Qed.

Lemma wt_run (r : State) : wt (run r).2 = wt r.
Proof.
  unfold run. destruct (bool_decide (_status r = Idle)); simpl; [| reflexivity].
  set (r1 := set_resolveCompletion true
               (set_completionPromise (Some false) (set_status Running r))).
  assert (H1 : wt r1 = wt r) by (unfold r1; now destruct r).
  pose proof (wt_Spawned _ _ (spawn_roots_Spawned (roots (_graph r1)) r1)) as H2.
  destruct (spawn_roots (roots (_graph r1)) r1) as [[u | err] r2];
    cbn [snd] in H2 |- *; [| now rewrite H2].
  destruct (_fibers r2); cbn [snd]; rewrite ?wt_finish; now rewrite H2.
Qed.

Lemma Waited_mark (n : string) (r : State) :
  Waited r -> Waited (_markNodeCompleted n r).
Proof.
  intros HW p Hp.
  assert (Hpc : promiseCounter (_markNodeCompleted n r) = promiseCounter r).
  { destruct (mark_frame n r) as (ws & rp & ->). now destruct r. }
  assert (Hmono : forall q, q ∈ resolvedPromises r ->
                            q ∈ resolvedPromises (_markNodeCompleted n r)).
  { intros q Hq. unfold _markNodeCompleted. destruct r; simpl in *.
    repeat case_match; simpl; try exact Hq; now apply elem_of_union_r. }
  rewrite Hpc in Hp.
  destruct (HW p Hp) as [Hres | (m & ws & w & Hws & Hw & Hpw & Htarget)].
  - left. now apply Hmono.
  - destruct (decide (n = m)) as [<- | Hne].
    + left. rewrite <- Hpw. apply (mark_wakes n r ws w Hws Hw). lia.
    + right. exists m, ws, w.
      rewrite (mark_other_waiters n m r Hne), (completed_of_mark_ne n m r Hne).
      auto.
Qed.

Lemma waitForNode_cases (n : string) (next : bool) (r : State) :
  (_waitForNode n next r).2 = r
  \/ exists target,
       target = completed_of r n + 1
       /\ (_waitForNode n next r).2
          = add_waiter n {| targetCount := target; resolve := promiseCounter r |}
              (set_promiseCounter (S (promiseCounter r)) r).
Proof.
  unfold _waitForNode. destruct next; simpl.
  - rewrite bool_decide_eq_false_2 by lia. right. eauto.
  - case_bool_decide as Hc; simpl; [now left |].
    right. exists 1. split; [lia | reflexivity].
Qed.

Lemma Waited_waitForNode (n : string) (next : bool) (r : State) :
  Waited r -> Waited (_waitForNode n next r).2.
Proof.
  intros HW.
  destruct (waitForNode_cases n next r) as [-> | (target & Htarget & ->)];
    [exact HW |].
  set (w := {| targetCount := target; resolve := promiseCounter r |}).
  set (r' := add_waiter n w (set_promiseCounter (S (promiseCounter r)) r)).
  assert (Hpc : promiseCounter r' = S (promiseCounter r))
    by (unfold r', add_waiter; now destruct r).
  assert (Hrp : resolvedPromises r' = resolvedPromises r)
    by (unfold r', add_waiter; now destruct r).
  assert (Hcc : forall m, completed_of r' m = completed_of r m)
    by (intros m; unfold r', add_waiter, completed_of; now destruct r).
  assert (Hn : _waiters r' !! n = Some (default [] (_waiters r !! n) ++ [w])%list)
    by (apply (waitForNode_records n next r target)).
  assert (Hm : forall m, m <> n -> _waiters r' !! m = _waiters r !! m).
  { intros m Hne. unfold r', add_waiter. destruct r; simpl.
    apply lookup_insert_ne. congruence. }
  intros p Hp. rewrite Hpc in Hp.
  destruct (decide (p = promiseCounter r)) as [-> | Hne].
  - right. exists n, (default [] (_waiters r !! n) ++ [w])%list, w.
    rewrite Hcc. repeat split; try assumption.
    apply elem_of_app. right. apply list_elem_of_here.
  - destruct (HW p ltac:(lia)) as [Hres | (m & ws & w0 & Hws & Hw & Hpw & Ht)].
    + left. now rewrite Hrp.
    + right. exists m. destruct (decide (m = n)) as [-> | Hmn].
      * exists (ws ++ [w])%list, w0. rewrite Hn, Hws, Hcc. simpl.
        repeat split; try assumption. apply elem_of_app. now left.
      * exists ws, w0. rewrite (Hm m Hmn), Hcc. auto.
Qed.

Lemma Waited_waitForNodes (ids : list string) (next : bool) (ps : list nat)
    (r : State) :
  Waited r -> Waited (_waitForNodes ids next ps r).2.
Proof.
  revert ps r. induction ids as [| id ids IH]; intros ps r HW; simpl; [exact HW |].
  destruct (getNode (_graph r) id); [| exact HW].
  pose proof (Waited_waitForNode id next r HW) as Hw.
  destruct (_waitForNode id next r) as [[p |] r']; simpl in Hw; now apply IH.
Qed.

Lemma Waited_resolveAll (r : State) : Waited r -> Waited (_resolveAllWaiters r).
Proof.
  intros HW p Hp. left.
  assert (Hpc : promiseCounter (_resolveAllWaiters r) = promiseCounter r)
    by (unfold _resolveAllWaiters; now destruct r).
  rewrite Hpc in Hp.
  destruct (HW p Hp) as [Hres | (m & ws & w & Hws & Hw & <- & _)].
  - unfold _resolveAllWaiters. destruct r; simpl in *. now apply elem_of_union_r.
  - now apply (resolveAllWaiters_wakes r m ws w).
Qed.

Lemma Waited_signal_cancel (why : option string) (r : State) :
  Waited r -> Waited (signal_cancel why r).
Proof.
  intros HW. unfold signal_cancel. destruct (cancelled (_signal r)); [exact HW |].
  apply Waited_resolveAll. apply (Waited_wt r); [now destruct r | exact HW].
Qed.

Lemma Waited_goto (fid : nat) (p : Pc) (r : State) : Waited r -> Waited (goto fid p r).
Proof. apply Waited_wt, wt_set_fibers. Qed.

Lemma Waited_advance (fid : nat) (r : State) : Waited r -> Waited (advance fid r).
Proof.
  intros HW. unfold advance.
  destruct (fiber_lookup fid (_fibers r)) as [f |]; [| exact HW].
  destruct (pc f) as [| node ctx ff | node result ps | node children | node e | | e |].
  - exact (Waited_wt _ _ (wt_loop_head f r) HW).
  - exact HW.
  - destruct (forallb _ ps); [| exact HW].
    destruct (cancelled (_signal r)).
    + now apply Waited_goto, Waited_mark.
    + exact (Waited_wt _ _ (wt_after_wait f node result r) HW).
  - destruct (forallb _ children); [| exact HW].
    now apply Waited_goto, Waited_mark.
  - apply (Waited_wt (_markNodeCompleted (gn_id node) r)); [apply wt_reject |].
    now apply Waited_mark.
  - exact (Waited_wt _ _ (wt_on_finally fid r) HW).
  - unfold on_catch. apply Waited_goto, Waited_signal_cancel.
    apply (Waited_wt r); [now destruct r | exact HW].
  - exact (Waited_wt _ _ (wt_on_finally fid r) HW).
Qed.

Lemma Waited_step (r : State) (e : Event) : Waited r -> Waited (step r e).
Proof.
  intros HW. destruct e; simpl.
  - exact (Waited_wt _ _ (wt_run r) HW).
  - unfold cancel. destruct (decide (_status r = Cancelled)); [exact HW |].
    pose proof (Waited_signal_cancel why r HW) as HW'.
    destruct (_fibers (signal_cancel why r)); [| exact HW'].
    exact (Waited_wt _ _ (wt_finish _ _) HW').
  - apply (Waited_wt r); [now destruct r | exact HW].
  - apply (Waited_wt r); [now destruct r | exact HW].
  - now apply Waited_advance.
  - unfold node_returns.
    destruct (fiber_lookup fid (_fibers r)) as [f |]; [| exact HW].
    destruct (pc f) as [| node ctx ff | | | | | |]; try exact HW.
    destruct (waitFor result) as [[| t ts] |];
      try exact (Waited_wt _ _ (wt_after_wait f node result r) HW).
    pose proof (Waited_waitForNodes (t :: ts) (default false (waitForNext result))
                  [] r HW) as Hw.
    destruct (_waitForNodes (t :: ts) _ [] r) as [[ps | err] r']; simpl in Hw;
      now apply Waited_goto.
  - unfold node_throws.
    destruct (fiber_lookup fid (_fibers r)) as [f |]; [| exact HW].
    destruct (pc f); try exact HW.
    apply (Waited_wt r); [| exact HW]. unfold reject, goto. now destruct r.
  - now apply Waited_signal_cancel.
  - apply (Waited_wt r); [| exact HW].
    unfold signal_requestFastForward. case_match; now destruct r.
  - apply (Waited_wt r); [now destruct r | exact HW].
  - apply (Waited_wt r); [now destruct r | exact HW].
  - apply (Waited_wt r); [unfold scope_write; now destruct r | exact HW].
Qed.

Lemma Waited_exec (r : State) (es : list Event) : Waited r -> Waited (exec r es).
Proof.
  revert r. induction es as [| e es IH]; intros r HW; [exact HW |].
  simpl. apply IH. now apply Waited_step.
Qed.

(** X20.  No wait is forgotten: in every run of a new runner, each promise
    that [_waitForNode] has handed out is resolved, or a waiter for it is
    recorded under the node it waits for, with the target count one above
    the completion count of that node; so the very next completion of that
    node resolves the promise, and so does the first cancellation of the
    signal, be it by a node or by [cancel] on the runner.  A waiter that
    is recorded when the signal is cancelled already is left to the next
    completion of its node: cancelling again does not resolve it. *)
Theorem no_wait_is_forgotten (g : VisGraph) (e : string) (sc bb : gmap string value)
    (es : list Event) (p : nat) :
  let r := exec (new g e sc bb) es in
  p < promiseCounter r ->
  (p ∈ resolvedPromises r
   \/ exists n,
        waits_for r p n
        /\ p ∈ resolvedPromises (_markNodeCompleted n r)
        /\ (cancelled (_signal r) = false ->
            forall why, p ∈ resolvedPromises (signal_cancel why r)
                        /\ p ∈ resolvedPromises (cancel why r)))
  /\ (cancelled (_signal late_wait) = true
      /\ 0 < promiseCounter late_wait
      /\ waits_for late_wait 0 "A"
      /\ forall why, (0 ∉ resolvedPromises (cancel why late_wait))
                     /\ (0 ∉ resolvedPromises (signal_cancel why late_wait))).
Proof.
  intros r Hp. split.
  - assert (HW : Waited r).
    { apply Waited_exec. intros q Hq. simpl in Hq. lia. }
    assert (HL : Life r) by apply Life_exec, Life_new.
    destruct (HW p Hp) as [Hres | (n & Hn)]; [now left |].
    right. exists n. split; [exact Hn |].
    destruct Hn as (ws & w & Hws & Hw & <- & Ht). split.
    + apply (mark_wakes n r ws w Hws Hw). lia.
    + intros Hc why.
      assert (Hsig : resolve w ∈ resolvedPromises (signal_cancel why r)).
      { unfold signal_cancel. rewrite Hc.
        apply (resolveAllWaiters_wakes _ n ws w); [| exact Hw].
        now destruct r. }
      split; [exact Hsig |].
      unfold cancel. destruct (decide (_status r = Cancelled)) as [Hst | Hst].
      { rewrite (life_cancelled r HL (or_introl Hst)) in Hc. discriminate. }
      destruct (_fibers (signal_cancel why r)); [| exact Hsig].
      now destruct (finish_frame Cancelled (signal_cancel why r)) as (_ & _ & _ & ->).
  - split; [reflexivity |]. split; [vm_compute; constructor |]. split.
    + exists [{| targetCount := 1; resolve := 0 |}], {| targetCount := 1; resolve := 0 |}.
      split; [vm_compute; reflexivity |].
      split; [apply list_elem_of_here |]. split; reflexivity.
    + intros why.
      assert (Hs : signal_cancel why late_wait = late_wait)
        by (now apply signal_cancel_noop).
      assert (Hr : resolvedPromises late_wait = ∅) by (vm_compute; reflexivity).
      split.
      * unfold cancel. destruct (decide (_status late_wait = Cancelled)) as [Hst | _];
          [discriminate Hst |].
        rewrite Hs. change (_fibers late_wait) with (_fibers late_wait).
        destruct (_fibers late_wait) eqn:Hf; [discriminate Hf |].
        rewrite Hr. apply not_elem_of_empty.
      * rewrite Hs, Hr. apply not_elem_of_empty.
Qed.

Lemma no_wait_is_forgotten_witness :
  let r := exec fresh_runner [CallRun; Advance 1; NodeReturns 1 waiting_result] in
  0 < promiseCounter r
  /\ (0 ∈ resolvedPromises r
      \/ exists n,
           waits_for r 0 n
           /\ 0 ∈ resolvedPromises (_markNodeCompleted n r)
           /\ (cancelled (_signal r) = false ->
               forall why, 0 ∈ resolvedPromises (signal_cancel why r)
                           /\ 0 ∈ resolvedPromises (cancel why r))).
Proof.
  split; [vm_compute; constructor |].
  refine (proj1 (no_wait_is_forgotten (hydrated demo_registry one_node_asset)
                   "entity" ∅ ∅
                   [CallRun; Advance 1; NodeReturns 1 waiting_result] 0 _)).
  vm_compute. constructor.
Defined.

(** ** The Parallel node, routed *)

Lemma fiber_update_queue_id (fid : nat) (fs : list VisFiber) :
  fiber_update fid (fun f' => with_queue (queue f') f') fs = fs.
Proof.
  unfold fiber_update. induction fs as [| g fs IH]; [reflexivity |].
  rewrite fmap_cons, IH. f_equal.
  destruct (decide (fiber_id g = fid)); now destruct g.
Qed.

Lemma awaited_ids_uniform (c : nat) (a : bool) (l : list string) :
  awaited_ids c ((fun x => (x, a)) <$> l)
  = if a then seq (S c) (length l) else [].
Proof.
  revert c. induction l as [| x l IH]; intros c.
  - now destruct a.
  - rewrite fmap_cons. cbn [awaited_ids]. rewrite IH. now destruct a.
Qed.

(** X21.  A Parallel node emits no output, and routing its result never
    changes the queue of the routing fiber: every node connected to
    [branchA], [branchB], [branchC] or [branchD] gets a fiber of its own,
    in this order of the pins, which has invoked the node by the time
    [_routeTransitions] reaches its [await] (the signal not being
    cancelled), and the routing fiber awaits all of these fibers when
    [awaitCompletion] is set and none of them otherwise. *)
Theorem parallel_node_fans_out (n : VisParallelNode) (node : VisGraphNode)
    (ctx : VisNodeExecutionContext) (st : Store) (f : VisFiber)
    (effects : list (list Event)) (r : State) :
  let g := _graph r in
  let c := _fiberCounter r in
  let targets :=
    ["branchA"; "branchB"; "branchC"; "branchD"] ≫= getNext g (gn_id node) in
  Forall (stored g) targets ->
  cancelled (_signal r) = false ->
  Forall (fun f' => fiber_id f' <= c) (_fibers r) ->
  length effects = length targets ->
  Forall (Forall (fun e => is_effect e = true)) effects ->
  exists result,
    parallel_onExecute n ctx st = (Returned result, st)
    /\ outputs result = None
    /\ (_routeTransitions f node (transitions result) r).1
       = Ok (if parallel_awaitCompletion n then seq (S c) (length targets) else [])
    /\ let r' := exec (_routeTransitions f node (transitions result) r).2
                   (first_turns c effects) in
       (exists fs',
          started r (fiber_entityId f) c targets fs'
          /\ _fibers r' = (_fibers r ++ fs')%list)
       /\ calls r' = (rev (invocation_of r <$> targets) ++ calls r)%list
       /\ _fiberCounter r' = c + length targets.
Proof.
  intros g c targets Hst Hc Hold Hlen Heff.
  eexists. split; [reflexivity |]. split; [reflexivity |].
  set (ts := (fun pin => {| Node.pinId := pin; strategy := Some parallel;
                            awaitCompletion := Some (parallel_awaitCompletion n);
                            groupId := None |})
               <$> ["branchA"; "branchB"; "branchC"; "branchD"]).
  change (transitions _) with (Some ts).
  assert (Hnorm : _normalizeTransitions node (Some ts) = ts) by reflexivity.
  assert (Htargeted : targeted g node ts = targets) by reflexivity.
  assert (Hseq : sequential_targets g node ts = []) by reflexivity.
  assert (Hpar : parallel_targets g node ts
                 = (fun x => (x, parallel_awaitCompletion n)) <$> targets).
  { unfold parallel_targets, targets, ts.
    cbn [fmap list_fmap List.filter is_parallel strategy mbind list_bind
         awaitCompletion is_awaited Node.pinId].
    rewrite !fmap_app. now destruct (parallel_awaitCompletion n). }
  assert (Hr : _routeTransitions f node (Some ts) r
               = (Ok (if parallel_awaitCompletion n
                      then seq (S c) (length targets) else []),
                  grow (fresh_fibers g (fiber_entityId f) c targets) r)).
  { unfold _routeTransitions. rewrite Hnorm.
    rewrite (route_each_spec ts node (fiber_entityId f) [] [] r)
      by (fold g; rewrite Htargeted; apply stored_is_Some, Hst).
    fold g c. rewrite Hseq, Hpar, fst_paired, awaited_ids_uniform.
    cbn [fmap list_fmap app]. rewrite fiber_update_queue_id.
    unfold grow. now destruct r. }
  rewrite Hr. cbn [fst snd]. split; [reflexivity |]. cbv zeta.
  set (r0 := grow _ r).
  assert (Hm : marks r0 = marks r) by (unfold r0, grow; now destruct r).
  assert (Hg : _graph r0 = g) by (unfold r0, grow, g; now destruct r).
  destruct (first_turns_spec targets effects r0 (fiber_entityId f) c (_fibers r))
    as (fs' & Hs & Hfs' & Hcalls & Hk).
  - unfold r0, grow. now destruct r.
  - now rewrite Hg.
  - exact Hold.
  - rewrite Hg. unfold r0, grow. now destruct r.
  - exact Hlen.
  - exact Heff.
  - split; [exists fs'; split; [exact (started_marks _ _ _ _ _ _ Hm Hs) | exact Hfs'] |].
    split; [rewrite Hcalls, (invocation_of_marks _ _ _ Hm); unfold r0, grow, calls;
            now destruct r |].
    unfold kept in Hk. injection Hk as _ _ Hcount _ _ _ _ _ _.
    rewrite Hcount. unfold r0, grow. rewrite fresh_fibers_length. now destruct r.
Qed.

Lemma parallel_node_fans_out_witness :
  let targets := ["branchA"; "branchB"; "branchC"; "branchD"]
                   ≫= getNext (_graph fan_runner) (gn_id demo_node_A) in
  exists result,
    parallel_onExecute {| parallel_id := "A"; parallel_awaitCompletion := true |}
      (ctx_with ∅) empty_store = (Returned result, empty_store)
    /\ outputs result = None
    /\ (_routeTransitions first_fiber demo_node_A (transitions result) fan_runner).1
       = Ok (if true then seq (S (_fiberCounter fan_runner)) (length targets) else [])
    /\ let r' := exec (_routeTransitions first_fiber demo_node_A (transitions result)
                         fan_runner).2
                   (first_turns (_fiberCounter fan_runner) two_effects) in
       (exists fs',
          started fan_runner "entity" (_fiberCounter fan_runner) targets fs'
          /\ _fibers r' = (_fibers fan_runner ++ fs')%list)
       /\ calls r' = (rev (invocation_of fan_runner <$> targets) ++ calls fan_runner)%list
       /\ _fiberCounter r' = _fiberCounter fan_runner + length targets.
Proof.
  apply (parallel_node_fans_out
           {| parallel_id := "A"; parallel_awaitCompletion := true |}
           demo_node_A (ctx_with ∅) empty_store first_fiber two_effects fan_runner).
  - match goal with
    | |- Forall _ ?l => replace l with ["B"; "C"] by (vm_compute; reflexivity)
    end.
    stored_by_computation.
  - reflexivity.
  - apply Forall_forall. intros f' Hf'.
    apply list_elem_of_In in Hf'. vm_compute in Hf'.
    destruct Hf' as [<- | []]. vm_compute. lia.
  - reflexivity.
  - unfold two_effects. effects_by_cases.
Defined.
